(** * Starship reentry water-cooling calculator

    A shallow embedding of [starship_water_calc.py] and the properties of
    its specification.

    The script is a straight line of assignments over Python [int] and
    [float] values followed by nine [print] calls.  Python integers are
    modelled by [Z]; Python floats by the kernel's binary64 numbers
    ([PrimFloat.float]), whose operations are the IEEE 754 ones CPython
    uses.  The exceptions the arithmetic can raise are threaded through an
    error monad, so that a run either prints its lines or stops with an
    uncaught exception. *)

From Stdlib Require Import ZArith QArith Qabs Floats Bool List String Ascii Lia.
From ExtLib Require Import Structures.Monad Structures.MonadExc Data.Monads.EitherMonad.
Import ListNotations MonadNotation.
Local Open Scope monad_scope.
Set Warnings "-inexact-float".

(** ** Python values and exceptions *)

(** The built-in exceptions the script's arithmetic can raise. *)
Inductive exn : Set :=
| ZeroDivisionError
| OverflowError
| ValueError.

(** A Python expression evaluates to a value or raises. *)
Abbreviation py := (sum exn).

(** What the interpreter leaves behind: the lines written to standard
    output, or an uncaught exception (a traceback on standard error; the
    script has printed nothing by then, since every [print] follows the
    last computation). *)
Inductive outcome : Set :=
| Printed (stdout : list string)
| Traceback (e : exn).

Module Py.

(** *** Exact values of floats *)

(** The integer [m], signed by [s]. *)
Definition signed (s : bool) (m : positive) : Z :=
  if s then Z.neg m else Z.pos m.

(** The rational [v * 2^e]. *)
Definition dyadic (v e : Z) : Q :=
  if (0 <=? e)%Z then inject_Z (v * 2 ^ e)
  else Qmake v (2 ^ Z.to_pos (- e)).

(** The exact value of a finite float; [0] for zeros (and, by
    convention, for infinities and NaN, which [finite] excludes). *)
Definition F2Q (x : float) : Q :=
  match Prim2SF x with
  | S754_finite s m e => dyadic (signed s m) e
  | _ => 0
  end.

Definition finite (x : float) : bool :=
  match Prim2SF x with
  | S754_finite _ _ _ | S754_zero _ => true
  | _ => false
  end.

Definition is_infinity (x : spec_float) : bool :=
  match x with
  | S754_infinity _ => true
  | _ => false
  end.

(** *** int -> float

    [PyLong_AsDouble]: the nearest binary64 number, ties to even;
    OverflowError ("int too large to convert to float") when that would
    be an infinity.  Mixed [float op int] arithmetic converts its [int]
    operand this way before operating. *)
Definition Z2SF (z : Z) : spec_float := binary_normalize prec emax z 0 false.

Definition Z2F (z : Z) : float := SF2Prim (Z2SF z).

Definition int_to_float (z : Z) : py float :=
  if is_infinity (Z2SF z) then raise OverflowError else ret (Z2F z).

(** *** float / float

    [float_div]: ZeroDivisionError when the divisor compares equal to
    zero (either sign), the IEEE quotient otherwise. *)
Definition float_truediv (a b : float) : py float :=
  if (b =? 0)%float then raise ZeroDivisionError else ret (a / b)%float.

(** *** float ** int, for a positive integer exponent

    [float_pow] with exponent [n > 0]: NaN stays NaN, an infinity or a
    zero keeps its sign only for odd [n], and a finite nonzero base goes
    through the C library's [pow], whose overflow CPython turns into
    OverflowError (an underflow silently gives zero).  [pow] is modelled
    as the correctly rounded power: the exact [m^n * 2^(e*n)] rounded to
    nearest, ties to even. *)
Definition SFpow (x : spec_float) (n : positive) : spec_float :=
  let odd := Z.odd (Z.pos n) in
  match x with
  | S754_nan => S754_nan
  | S754_infinity s => S754_infinity (s && odd)
  | S754_zero s => S754_zero (s && odd)
  | S754_finite s m e =>
      binary_normalize prec emax (signed s m ^ Z.pos n) (e * Z.pos n) false
  end.

Definition pow (x : float) (n : positive) : float :=
  SF2Prim (SFpow (Prim2SF x) n).

Definition float_pow (x : float) (n : positive) : py float :=
  if finite x && is_infinity (SFpow (Prim2SF x) n) then raise OverflowError
  else ret (pow x n).

(** *** math.ceil and math.floor

    [float.__ceil__] and [float.__floor__] return the exact integer;
    converting NaN raises ValueError and an infinity OverflowError. *)
Definition ceil_dyadic (v e : Z) : Z :=
  if (0 <=? e)%Z then v * 2 ^ e else - ((- v) / 2 ^ (- e)).

Definition floor_dyadic (v e : Z) : Z :=
  if (0 <=? e)%Z then v * 2 ^ e else v / 2 ^ (- e).

Definition math_ceil (x : float) : py Z :=
  match Prim2SF x with
  | S754_nan => raise ValueError
  | S754_infinity _ => raise OverflowError
  | S754_zero _ => ret 0%Z
  | S754_finite s m e => ret (ceil_dyadic (signed s m) e)
  end.

Definition math_floor (x : float) : py Z :=
  match Prim2SF x with
  | S754_nan => raise ValueError
  | S754_infinity _ => raise OverflowError
  | S754_zero _ => ret 0%Z
  | S754_finite s m e => ret (floor_dyadic (signed s m) e)
  end.

End Py.

(** ** The script *)

(** The editable constants at the top of the script, with the types of
    the literals assigned to them: [int] for masses, speeds, payload and
    cost, [float] for the three fractions. *)
Record constants : Set := {
  m_vehicle : Z;
  v_orbital : Z;
  fraction_max_heating : float;
  heat_fraction : float;
  temp_fraction : float;
  Lv : Z;
  payload_per_flight : Z;
  propellant_cost_per_flight : Z
}.

Definition defaults : constants := {|
  m_vehicle := 120000;
  v_orbital := 7800;
  fraction_max_heating := 0.3;
  heat_fraction := 0.01;
  temp_fraction := 0.8;
  Lv := 2260000;
  payload_per_flight := 150;
  propellant_cost_per_flight := 500000
|}.

(** One definition per assignment, named after the variable it assigns and
    taking the constants and the variables its right-hand side reads. *)
Section Statements.

Variable c : constants.

(** [KE_total = 0.5 * m_vehicle * v_orbital ** 2] *)
Definition KE_total : py float :=
  m <- Py.int_to_float (m_vehicle c) ;;
  let half_m := (0.5 * m)%float in
  v2 <- Py.int_to_float (v_orbital c ^ 2) ;;
  ret (half_m * v2)%float.

(** [KE_max = fraction_max_heating * KE_total] *)
Definition KE_max (KE_total : float) : float :=
  (fraction_max_heating c * KE_total)%float.

(** [heat_max = heat_fraction * KE_max] *)
Definition heat_max (KE_max : float) : float :=
  (heat_fraction c * KE_max)%float.

(** [heat_to_tiles_fraction = temp_fraction ** 4] *)
Definition heat_to_tiles_fraction : py float :=
  Py.float_pow (temp_fraction c) 4.

(** [fraction_absorbed = 1 - heat_to_tiles_fraction] *)
Definition fraction_absorbed (heat_to_tiles_fraction : float) : float :=
  (1 - heat_to_tiles_fraction)%float.

(** [energy_to_steam = fraction_absorbed * heat_max] *)
Definition energy_to_steam (fraction_absorbed heat_max : float) : float :=
  (fraction_absorbed * heat_max)%float.

(** [m_water_kg = energy_to_steam / Lv] *)
Definition m_water_kg (energy_to_steam : float) : py float :=
  lv <- Py.int_to_float (Lv c) ;;
  Py.float_truediv energy_to_steam lv.

(** [m_water_tonnes = m_water_kg / 1000] *)
Definition m_water_tonnes (m_water_kg : float) : py float :=
  Py.float_truediv m_water_kg 1000.

(** [num_flights = math.ceil(m_water_tonnes / payload_per_flight)] *)
Definition num_flights (m_water_tonnes : float) : py Z :=
  p <- Py.int_to_float (payload_per_flight c) ;;
  q <- Py.float_truediv m_water_tonnes p ;;
  Py.math_ceil q.

(** [total_cost = num_flights * propellant_cost_per_flight] *)
Definition total_cost (num_flights : Z) : Z :=
  (num_flights * propellant_cost_per_flight c)%Z.

(** [reentries_per_launch = math.floor(payload_per_flight / m_water_tonnes)] *)
Definition reentries_per_launch (m_water_tonnes : float) : py Z :=
  p <- Py.int_to_float (payload_per_flight c) ;;
  q <- Py.float_truediv p m_water_tonnes ;;
  Py.math_floor q.

End Statements.

(** The float variables of lines 34 to 55. *)
Module Heat.
Record t : Set := {
  KE_total : float;
  KE_max : float;
  heat_max : float;
  heat_to_tiles_fraction : float;
  fraction_absorbed : float;
  energy_to_steam : float;
  m_water_kg : float;
  m_water_tonnes : float
}.
End Heat.

(** The variables the script has assigned when it reaches its output: the
    floats above and the three integers of lines 58 to 64. *)
Module Env.
Record t : Set := {
  heat : Heat.t;
  num_flights : Z;
  total_cost : Z;
  reentries_per_launch : Z
}.
End Env.

(** Lines 34 to 55, in order. *)
Definition heat_budget (c : constants) : py Heat.t :=
  ke <- KE_total c ;;
  let kmax := KE_max c ke in
  let hmax := heat_max c kmax in
  tiles <- heat_to_tiles_fraction c ;;
  let fa := fraction_absorbed tiles in
  let es := energy_to_steam fa hmax in
  kg <- m_water_kg c es ;;
  t <- m_water_tonnes kg ;;
  ret {| Heat.KE_total := ke; Heat.KE_max := kmax; Heat.heat_max := hmax;
         Heat.heat_to_tiles_fraction := tiles; Heat.fraction_absorbed := fa;
         Heat.energy_to_steam := es; Heat.m_water_kg := kg;
         Heat.m_water_tonnes := t |}.

(** Lines 34 to 64, in order. *)
Definition calculate (c : constants) : py Env.t :=
  h <- heat_budget c ;;
  n <- num_flights c (Heat.m_water_tonnes h) ;;
  let cost := total_cost c n in
  r <- reentries_per_launch c (Heat.m_water_tonnes h) ;;
  ret {| Env.heat := h; Env.num_flights := n; Env.total_cost := cost;
         Env.reentries_per_launch := r |}.

(** ** Output formatting *)

Module Fmt.

Local Open Scope Z_scope.
Local Open Scope list_scope.

Definition text := list ascii.

Definition digit (d : Z) : ascii := ascii_of_N (48 + Z.to_N d).

(** The decimal digits of [n >= 0], most significant first. *)
Fixpoint digits_aux (fuel : nat) (n : Z) (acc : text) : text :=
  match fuel with
  | O => acc
  | S fuel' =>
      let acc' := digit (n mod 10) :: acc in
      if n <? 10 then acc' else digits_aux fuel' (n / 10) acc'
  end.

Definition digits (n : Z) : text :=
  digits_aux (S (Z.to_nat (Z.log2 n))) n [].

Definition minus (neg : bool) : text := if neg then ["-"%char] else [].

(** [str(n)] for an [int].  (The interpreter's cap on the number of
    digits of such a conversion, 4300 by default in recent versions, is
    not modelled; the two counts come from floats and have at most 309
    digits.) *)
Definition str_int (n : Z) : text := minus (n <? 0) ++ digits (Z.abs n).

(** [format(n, ",")] for an [int]: a comma before every group of three
    digits, counted from the right. *)
Fixpoint group3 (k : nat) (rev_digits : text) : text :=
  match rev_digits with
  | [] => []
  | d :: rest =>
      match k with
      | 3%nat => ","%char :: d :: group3 1 rest
      | _ => d :: group3 (S k) rest
      end
  end.

Definition comma_int (n : Z) : text :=
  minus (n <? 0) ++ rev (group3 0 (rev (digits (Z.abs n)))).

(** The integer nearest to [n / d], ties to the even one
    ([n >= 0], [d > 0]). *)
Definition round_half_even (n d : Z) : Z :=
  let q := n / d in
  match 2 * (n mod d) ?= d with
  | Lt => q
  | Gt => q + 1
  | Eq => if Z.even q then q else q + 1
  end.

(** A positive finite float [m * 2^e] as a fraction of integers. *)
Definition numerator (m : positive) (e : Z) : Z := Z.pos m * 2 ^ Z.max e 0.
Definition denominator (e : Z) : Z := 2 ^ Z.max (- e) 0.

(** The decimal exponent of [num / den > 0]: the [d] with
    [10^d <= num / den < 10^(d+1)]. *)
Fixpoint exp10_up (fuel : nat) (num den d : Z) : Z :=
  match fuel with
  | O => d
  | S fuel' =>
      if den * 10 <=? num then exp10_up fuel' num (den * 10) (d + 1) else d
  end.

Fixpoint exp10_down (fuel : nat) (num den d : Z) : Z :=
  match fuel with
  | O => d
  | S fuel' =>
      if num <? den then exp10_down fuel' (num * 10) den (d - 1) else d
  end.

Definition exp10 (num den : Z) : Z :=
  let fuel := S (Z.to_nat (Z.log2 num + Z.log2 den)) in
  if den <=? num then exp10_up fuel num den 0 else exp10_down fuel num den 0.

(** [num / den / 10^s] rounded to an integer, ties to even. *)
Definition scaled (num den s : Z) : Z :=
  if 0 <=? s then round_half_even num (den * 10 ^ s)
  else round_half_even (num * 10 ^ (- s)) den.

Definition zeros (n : Z) : text := repeat "0"%char (Z.to_nat n).

(** Left-pad with zeros to at least [w] characters. *)
Definition pad (w : Z) (t : text) : text :=
  zeros (w - Z.of_nat (List.length t)) ++ t.

(** An exponent as [e+XX] / [e-XX], two digits at least. *)
Definition exponent (d : Z) : text :=
  "e"%char :: (if d <? 0 then "-"%char else "+"%char) :: pad 2 (digits (Z.abs d)).

(** A digit string with a point after its first [k] digits; no point
    when nothing follows it. *)
Definition point (k : nat) (ds : text) : text :=
  match skipn k ds with
  | [] => firstn k ds
  | frac => firstn k ds ++ "."%char :: frac
  end.

Definition special (x : spec_float) : text :=
  match x with
  | S754_nan => list_ascii_of_string "nan"%string
  | S754_infinity s => minus s ++ list_ascii_of_string "inf"%string
  | _ => []
  end.

(** [format(x, ".pe")]: [p] decimals in scientific notation, correctly
    rounded from the exact value. *)
Definition sci (p : Z) (x : float) : text :=
  match Prim2SF x with
  | S754_zero s => minus s ++ point 1 (zeros (p + 1)) ++ exponent 0
  | S754_finite s m e =>
      let num := numerator m e in
      let den := denominator e in
      let d := exp10 num den in
      let n := scaled num den (d - p) in
      let '(n, d) := if 10 ^ (p + 1) <=? n then (n / 10, d + 1) else (n, d) in
      minus s ++ point 1 (digits n) ++ exponent d
  | other => special other
  end.

(** [format(x, ".pf")]: [p] decimals in fixed notation, correctly
    rounded from the exact value. *)
Definition fixed (p : Z) (x : float) : text :=
  match Prim2SF x with
  | S754_zero s => minus s ++ point 1 (zeros (p + 1))
  | S754_finite s m e =>
      let n := scaled (numerator m e) (denominator e) (- p) in
      let ds := pad (p + 1) (digits n) in
      minus s ++ point (List.length ds - Z.to_nat p) ds
  | other => special other
  end.

(** *** repr of a float: the shortest digits that read back *)

(** The float nearest to [n * 10^q] ([n > 0]), ties to even. *)
Definition dec_to_SF (n q : Z) : spec_float :=
  if 0 <=? q then binary_normalize prec emax (n * 10 ^ q) 0 false
  else
    let '(mz, ez, lz) := SFdiv_core_binary prec emax n 0 (10 ^ (- q)) 0 in
    binary_round_aux prec emax false mz ez lz.

Definition reads_back (m : positive) (e : Z) (n q : Z) : bool :=
  match dec_to_SF n q with
  | S754_finite false m' e' => (m' =? m)%positive && (e' =? e)
  | _ => false
  end.

(** With [k] significant digits: the [k]-digit decimal nearest to the
    value if it reads back as the float, else its neighbour on the other
    side of the value if that one does. *)
Definition candidate (m : positive) (e : Z) (d k : Z) : option (Z * Z) :=
  let num := numerator m e in
  let den := denominator e in
  let q := d - k + 1 in
  let lo := if 0 <=? q then num / (den * 10 ^ q) else (num * 10 ^ (- q)) / den in
  let near := scaled num den q in
  let far := if near =? lo then lo + 1 else lo in
  if reads_back m e near q then Some (near, q)
  else if reads_back m e far q then Some (far, q)
  else None.

Fixpoint shortest (fuel : nat) (m : positive) (e : Z) (d k : Z) : Z * Z :=
  match fuel with
  | O => (scaled (numerator m e) (denominator e) (d - k + 1), d - k + 1)
  | S fuel' =>
      match candidate m e d k with
      | Some nq => nq
      | None => shortest fuel' m e d (k + 1)
      end
  end.

Fixpoint strip_zeros (fuel : nat) (n q : Z) : Z * Z :=
  match fuel with
  | O => (n, q)
  | S fuel' => if n mod 10 =? 0 then strip_zeros fuel' (n / 10) (q + 1) else (n, q)
  end.

(** [repr(x)], which is also [str(x)] and what an f-string field
    without a format gives: scientific notation when the decimal point
    would stand more than 16 places right of the first digit or 4 or
    more places left of it, and [.0] after an integral value. *)
Definition repr (x : float) : text :=
  match Prim2SF x with
  | S754_zero s => minus s ++ list_ascii_of_string "0.0"%string
  | S754_finite s m e =>
      let d := exp10 (numerator m e) (denominator e) in
      let '(n, q) := shortest 16 m e d 1 in
      let '(n, q) := strip_zeros 17 n q in
      let ds := digits n in
      let decpt := Z.of_nat (List.length ds) + q in
      minus s ++
      (if (decpt <=? -4) || (16 <? decpt) then point 1 ds ++ exponent (decpt - 1)
       else if decpt <=? 0 then "0"%char :: "."%char :: zeros (- decpt) ++ ds
       else if Z.of_nat (List.length ds) <=? decpt
            then ds ++ zeros (decpt - Z.of_nat (List.length ds)) ++ list_ascii_of_string ".0"%string
            else point (Z.to_nat decpt) ds)
  | other => special other
  end.

End Fmt.

Local Open Scope string_scope.

(** The nine [print] calls of lines 67 to 75. *)
Definition report (c : constants) (v : Env.t) : py (list string) :=
  let h := Env.heat v in
  let line (parts : list Fmt.text) := string_of_list_ascii (List.concat parts) in
  let lit := list_ascii_of_string in
  hundred <- Py.int_to_float 100 ;;
  ret [ line [lit "Total kinetic energy: "; Fmt.sci 2 (Heat.KE_total h); lit " J"];
        line [lit "KE during max heating (";
              Fmt.repr (fraction_max_heating c * hundred)%float; lit "%): ";
              Fmt.sci 2 (Heat.KE_max h); lit " J"];
        line [lit "Heat during max heating (heat_fraction ";
              Fmt.repr (heat_fraction c); lit "): ";
              Fmt.sci 2 (Heat.heat_max h); lit " J"];
        line [lit "Fraction absorbed by water: "; Fmt.fixed 2 (Heat.fraction_absorbed h)];
        line [lit "Energy to steam: "; Fmt.sci 2 (Heat.energy_to_steam h); lit " J"];
        line [lit "Required water mass: "; Fmt.fixed 0 (Heat.m_water_tonnes h);
              lit " metric tonnes"];
        line [lit "Number of flights needed: "; Fmt.str_int (Env.num_flights v)];
        line [lit "Total cost to deliver water to orbit: $";
              Fmt.comma_int (Env.total_cost v); lit " USD"];
        line [lit "Reentries supplied per launch (including freighter): ";
              Fmt.str_int (Env.reentries_per_launch v)] ].

(** The whole script. *)
Definition main (c : constants) : outcome :=
  match v <- calculate c ;; report c v with
  | inr lines => Printed lines
  | inl e => Traceback e
  end.

(** ** The specification's vocabulary *)

Module Spec.

(** "The smallest integer >= q" and "the largest integer <= q". *)
Definition is_ceiling (q : Q) (n : Z) : Prop :=
  q <= inject_Z n /\ forall k : Z, q <= inject_Z k -> (n <= k)%Z.

Definition is_floor (q : Q) (n : Z) : Prop :=
  inject_Z n <= q /\ forall k : Z, inject_Z k <= q -> (k <= n)%Z.

(** A run the specification calls handled: it ends by printing, not in
    an uncaught exception. *)
Definition handled (o : outcome) : bool :=
  match o with
  | Printed _ => true
  | Traceback _ => false
  end.

(** The floats within [eps] of the rational [q]. *)
Definition close_to (eps q : Q) (x : float) : Prop :=
  Py.finite x = true /\ Qabs (Py.F2Q x - q) <= eps.

End Spec.

(** The default constants with one of the fractions replaced. *)
Definition with_fraction_max_heating (x : float) : constants := {|
  m_vehicle := m_vehicle defaults;
  v_orbital := v_orbital defaults;
  fraction_max_heating := x;
  heat_fraction := heat_fraction defaults;
  temp_fraction := temp_fraction defaults;
  Lv := Lv defaults;
  payload_per_flight := payload_per_flight defaults;
  propellant_cost_per_flight := propellant_cost_per_flight defaults
|}.

Definition with_temp_fraction (x : float) : constants := {|
  m_vehicle := m_vehicle defaults;
  v_orbital := v_orbital defaults;
  fraction_max_heating := fraction_max_heating defaults;
  heat_fraction := heat_fraction defaults;
  temp_fraction := x;
  Lv := Lv defaults;
  payload_per_flight := payload_per_flight defaults;
  propellant_cost_per_flight := propellant_cost_per_flight defaults
|}.


(** ** The formula chain of the specification *)

Module Chain.
Section Chain.

Variable c : constants.
Variable v : Env.t.

Let h : Heat.t := Env.heat v.

(** An [int] operand of a float operation: the nearest float. *)
Let num (z : Z) : float := Py.Z2F z.



End Chain.
End Chain.

(** ** Rounding, specified

    The vocabulary for reasoning about the rounding that every binary64
    operation ends with. *)

Abbreviation rne := Fmt.round_half_even.

Module Round.

Local Open Scope Z_scope.

(** [mrs] locates the fraction [N / D]: its mantissa is the integer part,
    its round bit says whether the rest reaches one half, its sticky bit
    whether anything is left beyond that. *)
Definition loc_ok (mrs : shr_record) (N D : Z) : Prop :=
  shr_m mrs * D <= N < (shr_m mrs + 1) * D /\
  (shr_r mrs = true <-> (2 * shr_m mrs + 1) * D <= 2 * N) /\
  (shr_s mrs = true <-> N <> shr_m mrs * D /\ 2 * N <> (2 * shr_m mrs + 1) * D).

(** Reads a hypothesis [b = true <-> P] with [b] a constant as [P] or
    [~ P], and proves a goal of that shape. *)
Ltac bool_iff_in H :=
  match type of H with
  | true = true <-> _ => apply proj1 in H; specialize (H eq_refl)
  | false = true <-> ?P =>
      let H' := fresh in
      assert (H' : ~ P) by (intros H'; apply H in H'; discriminate H');
      clear H; rename H' into H
  end.

Ltac bool_iff :=
  match goal with
  | |- true = true <-> _ => split; [intros _ | reflexivity]
  | |- false = true <-> _ => split; [discriminate | intros ?; exfalso]
  end.

Definition fexp64 (g : Z) : Z := Z.max (g - 53) (-1074).

(** The second half of [binary_round_aux]: renormalise the rounded
    mantissa and check for overflow. *)
Definition finish (s : bool) (M E : Z) : spec_float :=
  let '(mrs, e) := shr_fexp prec emax M E loc_Exact in
  match shr_m mrs with
  | Z0 => S754_zero s
  | Zpos m => if e <=? emax - prec then S754_finite s m e else S754_infinity s
  | Zneg _ => S754_nan
  end.

(** The float with mantissa [M] (at most 53 bits, or exactly [2^53]) and
    exponent [E]. *)
Definition pack (s : bool) (M E : Z) : spec_float :=
  if M =? 0 then S754_zero s
  else if M <? 2 ^ 53 then
    if E <=? 971 then S754_finite s (Z.to_pos M) E else S754_infinity s
  else
    if E + 1 <=? 971 then S754_finite s (2 ^ 52)%positive (E + 1) else S754_infinity s.

(** Floats in their order: the position of a float among all floats,
    which is its IEEE bit pattern read as a sign-magnitude integer. *)
Definition key (x : spec_float) : Z :=
  match x with
  | S754_zero _ => 0
  | S754_nan => 0
  | S754_finite s m e => cond_Zopp s ((e + 1074) * 2 ^ 52 + Z.pos m)
  | S754_infinity s => cond_Zopp s (2047 * 2 ^ 52)
  end.

(** *** Rounding a fraction

    [A / D] counts units of [2^B]; [rexp] is the exponent of the float
    its rounding lands on and [rmant] the mantissa. *)
Definition rexp (B A D : Z) : Z := fexp64 (Zdigits2 (A / D) + B).
Definition rmant (B A D : Z) : Z := rne A (D * 2 ^ (rexp B A D - B)).
Definition Rnd (s : bool) (B A D : Z) : spec_float :=
  pack s (rmant B A D) (rexp B A D).

Definition is_nan (x : spec_float) : bool :=
  match x with S754_nan => true | _ => false end.

Definition max_float : float := 0x1.fffffffffffffp+1023.

(** *** Rounding an integer of either sign *)

(** The rounding of the integer [A], of either sign, counting units of
    [2^B]. *)
Definition SRnd (B A : Z) : spec_float :=
  if A =? 0 then S754_zero false else Rnd (A <? 0) B (Z.abs A) 1.

(** The value of a float in units of [2^B] (an integer when [B] is at
    most its exponent); [0] for what has no finite value. *)
Definition units (B : Z) (x : spec_float) : Z :=
  match x with
  | S754_finite s m e => cond_Zopp s (Z.pos m * 2 ^ (e - B))
  | _ => 0
  end.

Definition is_finite (x : spec_float) : bool :=
  match x with
  | S754_finite _ _ _ | S754_zero _ => true
  | _ => false
  end.

End Round.

(** ** Concrete runs *)

(** The float variables of lines 34 to 55 when only
    [fraction_max_heating] departs from the defaults. *)
Definition heat_at (a : float) : Heat.t :=
  let ke := 3650400000000%float in
  let kmax := (a * ke)%float in
  let hmax := (0.01 * kmax)%float in
  let fa := 0.5903999999999999%float in
  let es := (fa * hmax)%float in
  let kg := (es / 2260000)%float in
  {| Heat.KE_total := ke; Heat.KE_max := kmax; Heat.heat_max := hmax;
     Heat.heat_to_tiles_fraction := 0.4096000000000001;
     Heat.fraction_absorbed := fa; Heat.energy_to_steam := es;
     Heat.m_water_kg := kg; Heat.m_water_tonnes := (kg / 1000)%float |}.

(** Closes a goal between concrete rationals by evaluation. *)
Ltac qle_compute := unfold Qle; apply Z.leb_le; vm_compute; reflexivity.

Ltac close_compute := split; [vm_compute; reflexivity | qle_compute].

(** The variables after a run on the default constants. *)
Definition default_heat : Heat.t := {|
  Heat.KE_total := 3650400000000;
  Heat.KE_max := 1095120000000;
  Heat.heat_max := 10951200000;
  Heat.heat_to_tiles_fraction := 0.4096000000000001;
  Heat.fraction_absorbed := 0.5903999999999999;
  Heat.energy_to_steam := 6465588479.999999;
  Heat.m_water_kg := 2860.8798584070792;
  Heat.m_water_tonnes := 2.8608798584070794
|}.

Definition default_env : Env.t := {|
  Env.heat := default_heat;
  Env.num_flights := 1;
  Env.total_cost := 500000;
  Env.reentries_per_launch := 52
|}.

(** ** Vocabulary of the further properties *)



Module Range.

Local Open Scope Z_scope.

(** The least magnitude of an [int] that is too large for a float: the
    midpoint between the largest float and [2^1024], which rounds up. *)
Definition int_max : Z := 2 ^ 1024 - 2 ^ 970.



End Range.

(** Reading the report back: the value of a digit, of a run of digits,
    and of a numeral with an optional minus sign, as [int] reads them;
    and the rationals the decimal formats denote. *)
Module Read.

Local Open Scope Z_scope.
Local Open Scope list_scope.

Definition digit_value (ch : ascii) : Z := Z.of_N (N_of_ascii ch) - 48.

Definition is_digit (ch : ascii) : bool :=
  (0 <=? digit_value ch) && (digit_value ch <=? 9).

Definition number (t : Fmt.text) : Z :=
  fold_left (fun a ch => 10 * a + digit_value ch) t 0.

Definition int (t : Fmt.text) : Z :=
  match t with
  | "-"%char :: t' => - number t'
  | _ => number t
  end.

Definition is_comma (ch : ascii) : bool := Ascii.eqb ch ","%char.

(** The text without its thousands separators. *)
Definition no_commas (t : Fmt.text) : Fmt.text :=
  filter (fun ch => negb (is_comma ch)) t.

(** The rational [n * 10^k]. *)
Definition decimal (n k : Z) : Q :=
  if 0 <=? k then inject_Z (n * 10 ^ k) else Qmake n (Z.to_pos (10 ^ (- k))).

(** [num / den / 10^k] as a fraction of integers. *)
Definition shifted (num den k : Z) : Z * Z :=
  if 0 <=? k then (num, den * 10 ^ k) else (num * 10 ^ (- k), den).

(** The text before the first [ch], and the text after it if there is
    one. *)
Fixpoint split_at (ch : ascii) (t : Fmt.text) : Fmt.text * option Fmt.text :=
  match t with
  | [] => ([], None)
  | c :: t' =>
      if Ascii.eqb c ch then ([], Some t')
      else let '(a, b) := split_at ch t' in (c :: a, b)
  end.

Definition sign_of (t : Fmt.text) : bool * Fmt.text :=
  match t with
  | "-"%char :: t' => (true, t')
  | _ => (false, t)
  end.

Definition exponent_of (t : option Fmt.text) : Z :=
  match t with
  | None => 0
  | Some ("-"%char :: t') => - Read.number t'
  | Some ("+"%char :: t') => Read.number t'
  | Some t' => Read.number t'
  end.

(** A decimal literal [[-]digits[.digits][e[+|-]digits]]: its sign and
    the [(n, q)] of its magnitude [n * 10^q]. *)
Definition literal (t : Fmt.text) : bool * (Z * Z) :=
  let '(s, t) := sign_of t in
  let '(mant, ex) := split_at "e" t in
  let '(ip, fp) := split_at "." mant in
  let fp := match fp with Some f => f | None => [] end in
  (s, (Read.number (ip ++ fp), exponent_of ex - Z.of_nat (List.length fp))).

(** [float(t)] for a decimal literal: the float nearest to its value. *)
Definition to_float (t : Fmt.text) : float :=
  let '(s, (n, q)) := literal t in
  SF2Prim (if s then SFopp (Fmt.dec_to_SF n q) else Fmt.dec_to_SF n q).

End Read.

(** * Properties *)

(** Proofs step through the script one assignment at a time. *)
Arguments KE_total : simpl never.
Arguments heat_to_tiles_fraction : simpl never.
Arguments m_water_kg : simpl never.
Arguments m_water_tonnes : simpl never.
Arguments num_flights : simpl never.
Arguments reentries_per_launch : simpl never.
Arguments heat_budget : simpl never.
Arguments calculate : simpl never.
Arguments report : simpl never.
Arguments Py.int_to_float : simpl never.
Arguments Py.float_truediv : simpl never.
Arguments Py.float_pow : simpl never.
Arguments Py.math_ceil : simpl never.
Arguments Py.math_floor : simpl never.

(** ** Exact integer parts *)

Section IntegerParts.

Local Open Scope Z_scope.

Lemma pos_pow2 (e : Z) : e < 0 -> Z.pos (2 ^ Z.to_pos (- e)) = 2 ^ (- e).
Proof.
  intros He. rewrite Pos2Z.inj_pow, Z2Pos.id by lia. reflexivity.
Qed.

Lemma dyadic_le_int (v e k : Z) :
  (Py.dyadic v e <= inject_Z k)%Q <->
  if 0 <=? e then v * 2 ^ e <= k else v <= k * 2 ^ (- e).
Proof.
  unfold Py.dyadic. destruct (Z.leb_spec 0 e) as [He|He].
  - rewrite <- Zle_Qle. reflexivity.
  - unfold Qle. cbn [Qnum Qden inject_Z]. rewrite pos_pow2 by lia. lia.
Qed.

Lemma int_le_dyadic (v e k : Z) :
  (inject_Z k <= Py.dyadic v e)%Q <->
  if 0 <=? e then k <= v * 2 ^ e else k * 2 ^ (- e) <= v.
Proof.
  unfold Py.dyadic. destruct (Z.leb_spec 0 e) as [He|He].
  - rewrite <- Zle_Qle. reflexivity.
  - unfold Qle. cbn [Qnum Qden inject_Z]. rewrite pos_pow2 by lia. lia.
Qed.

Lemma ceil_dyadic_spec (v e : Z) :
  Spec.is_ceiling (Py.dyadic v e) (Py.ceil_dyadic v e).
Proof.
  unfold Spec.is_ceiling, Py.ceil_dyadic.
  split; [|intros k]; rewrite dyadic_le_int;
    destruct (Z.leb_spec 0 e) as [He|He]; try lia.
  - assert (Hd : 0 < 2 ^ (- e)) by (apply Z.pow_pos_nonneg; lia).
    pose proof (Z.mul_div_le (- v) _ Hd). lia.
  - intros Hk.
    assert (Hd : 0 < 2 ^ (- e)) by (apply Z.pow_pos_nonneg; lia).
    enough (- k <= - v / 2 ^ (- e)) by lia.
    apply Z.div_le_lower_bound; lia.
Qed.

Lemma floor_dyadic_spec (v e : Z) :
  Spec.is_floor (Py.dyadic v e) (Py.floor_dyadic v e).
Proof.
  unfold Spec.is_floor, Py.floor_dyadic.
  split; [|intros k]; rewrite int_le_dyadic;
    destruct (Z.leb_spec 0 e) as [He|He]; try lia.
  - assert (Hd : 0 < 2 ^ (- e)) by (apply Z.pow_pos_nonneg; lia).
    pose proof (Z.mul_div_le v _ Hd). lia.
  - intros Hk.
    assert (Hd : 0 < 2 ^ (- e)) by (apply Z.pow_pos_nonneg; lia).
    apply Z.div_le_lower_bound; lia.
Qed.

Lemma is_ceiling_unique (q : Q) (n n' : Z) :
  Spec.is_ceiling q n -> Spec.is_ceiling q n' -> n = n'.
Proof.
  intros [H1 H2] [H1' H2']. apply H2 in H1'. apply H2' in H1. lia.
Qed.

Lemma is_floor_unique (q : Q) (n n' : Z) :
  Spec.is_floor q n -> Spec.is_floor q n' -> n = n'.
Proof.
  intros [H1 H2] [H1' H2']. apply H2 in H1'. apply H2' in H1. lia.
Qed.

Lemma is_ceiling_zero : Spec.is_ceiling 0 0.
Proof.
  split; [apply Qle_refl|]. intros k Hk. rewrite Zle_Qle. exact Hk.
Qed.

Lemma is_floor_zero : Spec.is_floor 0 0.
Proof.
  split; [apply Qle_refl|]. intros k Hk. rewrite Zle_Qle. exact Hk.
Qed.

End IntegerParts.

(** [math.ceil] and [math.floor] succeed exactly on finite floats, and
    return the integer parts of the exact value. *)
Lemma math_ceil_finite (x : float) :
  Py.finite x = true ->
  exists n, Py.math_ceil x = inr n /\ Spec.is_ceiling (Py.F2Q x) n.
Proof.
  unfold Py.finite, Py.math_ceil, Py.F2Q.
  destruct (Prim2SF x) as [s|s| |s m e]; try discriminate; intros _.
  - exists 0%Z. split; [reflexivity | apply is_ceiling_zero].
  - eexists. split; [reflexivity | apply ceil_dyadic_spec].
Qed.

Lemma math_floor_finite (x : float) :
  Py.finite x = true ->
  exists n, Py.math_floor x = inr n /\ Spec.is_floor (Py.F2Q x) n.
Proof.
  unfold Py.finite, Py.math_floor, Py.F2Q.
  destruct (Prim2SF x) as [s|s| |s m e]; try discriminate; intros _.
  - exists 0%Z. split; [reflexivity | apply is_floor_zero].
  - eexists. split; [reflexivity | apply floor_dyadic_spec].
Qed.

Lemma math_ceil_returns (x : float) (n : Z) :
  Py.math_ceil x = inr n -> Py.finite x = true.
Proof.
  unfold Py.finite, Py.math_ceil.
  destruct (Prim2SF x); cbn; congruence.
Qed.

Lemma math_floor_returns (x : float) (n : Z) :
  Py.math_floor x = inr n -> Py.finite x = true.
Proof.
  unfold Py.finite, Py.math_floor.
  destruct (Prim2SF x); cbn; congruence.
Qed.

Lemma math_ceil_raises (x : float) (e : exn) :
  Py.math_ceil x = inl e -> Py.finite x = false /\ e <> ZeroDivisionError.
Proof.
  unfold Py.finite, Py.math_ceil.
  destruct (Prim2SF x); cbn; intros H; inversion H; split; congruence.
Qed.

Lemma math_floor_raises (x : float) (e : exn) :
  Py.math_floor x = inl e -> Py.finite x = false /\ e <> ZeroDivisionError.
Proof.
  unfold Py.finite, Py.math_floor.
  destruct (Prim2SF x); cbn; intros H; inversion H; split; congruence.
Qed.

(** ** Rounding to nearest is monotone

    [binary_round_aux], with which IEEE multiplication and division end,
    rounds the exact result to the nearest float, and does so
    monotonically.  The development locates the exact result as a fraction
    [A / D] of units of [2^B], follows the right shifts that bring it to
    the target exponent, and compares results through [Round.key]. *)

Section Rounding.

Import Round.
Local Open Scope Z_scope.

(** *** Binary digits *)
Lemma digits2_pos_size (p : positive) : digits2_pos p = Pos.size p.
Proof. induction p; cbn; congruence. Qed.

Lemma Zdigits2_pos_bounds (p : positive) :
  2 ^ (Z.pos (digits2_pos p) - 1) <= Z.pos p < 2 ^ Z.pos (digits2_pos p).
Proof.
  rewrite digits2_pos_size. split.
  - pose proof (Pos.size_le p) as H.
    assert (H' : 2 ^ Z.pos (Pos.size p) <= 2 * Z.pos p).
    { rewrite <- Pos2Z.inj_pow. change (2 * Z.pos p) with (Z.pos p~0). lia. }
    replace (Z.pos (Pos.size p)) with (Z.succ (Z.pos (Pos.size p) - 1)) in H' by lia.
    rewrite Z.pow_succ_r in H' by lia. lia.
  - pose proof (Pos.size_gt p) as H. rewrite <- Pos2Z.inj_pow. lia.
Qed.

Lemma Zdigits2_bounds (m : Z) :
  0 < m -> 2 ^ (Zdigits2 m - 1) <= m < 2 ^ Zdigits2 m.
Proof.
  destruct m as [|p|p]; try lia. intros _. apply Zdigits2_pos_bounds.
Qed.

Lemma Zdigits2_nonneg (m : Z) : 0 <= Zdigits2 m.
Proof. destruct m; cbn; lia. Qed.

Lemma Zdigits2_pos (m : Z) : 0 < m -> 0 < Zdigits2 m.
Proof. destruct m; cbn; lia. Qed.

Lemma pow2_lt_le (a b : Z) : 0 <= a -> 2 ^ a < 2 ^ b -> a < b.
Proof.
  intros Ha H. destruct (Z.lt_ge_cases a b) as [|Hge]; [assumption|].
  destruct (Z.neg_nonneg_cases b) as [Hb|Hb].
  - rewrite (Z.pow_neg_r 2 b Hb) in H.
    pose proof (Z.pow_pos_nonneg 2 a ltac:(lia) Ha). lia.
  - pose proof (Z.pow_le_mono_r 2 b a ltac:(lia) Hge). lia.
Qed.

(** Digits grow with the number. *)
Lemma Zdigits2_le (a b : Z) : 0 <= a <= b -> Zdigits2 a <= Zdigits2 b.
Proof.
  intros [Ha Hab].
  destruct (Z.eq_dec a 0) as [->|Hnz]; [apply Zdigits2_nonneg|].
  pose proof (Zdigits2_bounds a ltac:(lia)) as [Ha1 _].
  pose proof (Zdigits2_bounds b ltac:(lia)) as [_ Hb2].
  pose proof (Zdigits2_pos a ltac:(lia)).
  enough (Zdigits2 a - 1 < Zdigits2 b) by lia.
  apply pow2_lt_le; lia.
Qed.

(** A number below [2^k] has at most [k] digits. *)
Lemma Zdigits2_le_pow (a k : Z) : 0 <= a < 2 ^ k -> 0 <= k -> Zdigits2 a <= k.
Proof.
  intros [Ha Hak] Hk.
  destruct (Z.eq_dec a 0) as [->|Hnz]; [cbn; lia|].
  pose proof (Zdigits2_bounds a ltac:(lia)) as [Ha1 _].
  pose proof (Zdigits2_pos a ltac:(lia)).
  enough (Zdigits2 a - 1 < k) by lia.
  apply pow2_lt_le; lia.
Qed.

(** A number at or above [2^k] has more than [k] digits. *)
Lemma Zdigits2_gt_pow (a k : Z) : 0 <= k -> 2 ^ k <= a -> k < Zdigits2 a.
Proof.
  intros Hk Hka.
  assert (0 < 2 ^ k) by (apply Z.pow_pos_nonneg; lia).
  pose proof (Zdigits2_bounds a ltac:(lia)) as [_ Ha2].
  apply pow2_lt_le; lia.
Qed.

(** *** Right shifts keep the fraction located *)

Lemma loc_ok_nonneg mrs N D : 0 < D -> 0 <= N -> loc_ok mrs N D -> 0 <= shr_m mrs.
Proof. intros HD HN [H _]. nia. Qed.

Lemma shr_1_div2 (m : Z) (r s : bool) :
  0 <= m ->
  shr_1 (Build_shr_record m r s) = Build_shr_record (Z.div2 m) (Z.odd m) (r || s).
Proof.
  intros Hm. destruct m as [|[p|p|]|p]; try reflexivity. lia.
Qed.

Lemma shr_1_ok (mrs : shr_record) (N D : Z) :
  0 < D -> 0 <= N -> loc_ok mrs N D -> loc_ok (shr_1 mrs) N (2 * D).
Proof.
  intros HD HN H. pose proof (loc_ok_nonneg _ _ _ HD HN H) as Hm.
  destruct mrs as [m r s]. cbn [shr_m] in Hm. rewrite (shr_1_div2 m r s Hm).
  unfold loc_ok in *. cbn [shr_m shr_r shr_s] in *.
  destruct H as (Hb & Hr & Hs).
  pose proof (Z.div2_odd m) as Hdiv. set (h := Z.div2 m) in *.
  destruct (Z.odd m); cbn [Z.b2z] in Hdiv;
    destruct r, s; bool_iff_in Hr; bool_iff_in Hs; cbn [orb];
    (split; [nia|]); (split; bool_iff; nia).
Qed.

Lemma pow2_double_succ (k : Z) : 0 <= k -> 2 ^ (2 * k + 1) = 2 * (2 ^ k * 2 ^ k).
Proof.
  intros Hk. replace (2 * k + 1) with (1 + k + k) by lia.
  rewrite !Z.pow_add_r by lia. lia.
Qed.

Lemma pow2_double (k : Z) : 0 <= k -> 2 ^ (2 * k) = 2 ^ k * 2 ^ k.
Proof.
  intros Hk. replace (2 * k) with (k + k) by lia.
  rewrite !Z.pow_add_r by lia. lia.
Qed.

Lemma iter_shr_1_ok (p : positive) (N : Z) :
  0 <= N ->
  forall (mrs : shr_record) (D : Z),
    0 < D -> loc_ok mrs N D -> loc_ok (iter_pos shr_1 p mrs) N (D * 2 ^ Z.pos p).
Proof.
  intros HN. induction p as [p IH|p IH|]; intros mrs D HD H; cbn [iter_pos].
  - rewrite (Pos2Z.inj_xI p), (pow2_double_succ (Z.pos p)) by lia.
    assert (Hp : 0 < 2 ^ Z.pos p) by (apply Z.pow_pos_nonneg; lia).
    replace (D * (2 * (2 ^ Z.pos p * 2 ^ Z.pos p)))
      with (2 * D * 2 ^ Z.pos p * 2 ^ Z.pos p) by lia.
    apply IH; [nia|]. apply IH; [lia|]. apply shr_1_ok; assumption.
  - rewrite (Pos2Z.inj_xO p), (pow2_double (Z.pos p)) by lia.
    assert (Hp : 0 < 2 ^ Z.pos p) by (apply Z.pow_pos_nonneg; lia).
    replace (D * (2 ^ Z.pos p * 2 ^ Z.pos p))
      with (D * 2 ^ Z.pos p * 2 ^ Z.pos p) by lia.
    apply IH; [nia|]. apply IH; assumption.
  - change (2 ^ 1) with 2. replace (D * 2) with (2 * D) by lia.
    apply shr_1_ok; assumption.
Qed.

Lemma shr_ok (mrs : shr_record) (e n N D : Z) :
  0 < D -> 0 <= N -> 0 <= n -> loc_ok mrs N D ->
  loc_ok (fst (shr mrs e n)) N (D * 2 ^ n) /\ snd (shr mrs e n) = e + n.
Proof.
  intros HD HN Hn H. destruct n as [|p|p]; try lia; cbn [shr fst snd].
  - rewrite Z.mul_1_r. split; [assumption | lia].
  - split; [apply iter_shr_1_ok; assumption | reflexivity].
Qed.

(** A shift by a non-positive amount does nothing. *)
Lemma shr_nop (mrs : shr_record) (e n : Z) : n <= 0 -> shr mrs e n = (mrs, e).
Proof. destruct n; try lia; reflexivity. Qed.

Lemma loc_ok_div (mrs : shr_record) (N D : Z) :
  0 < D -> loc_ok mrs N D -> shr_m mrs = N / D.
Proof.
  intros HD [H _]. apply Z.div_unique with (r := N - shr_m mrs * D); lia.
Qed.

Lemma round_nearest_even_ok (mrs : shr_record) (N D : Z) :
  0 < D -> loc_ok mrs N D ->
  round_nearest_even (shr_m mrs) (loc_of_shr_record mrs) = Fmt.round_half_even N D.
Proof.
  intros HD H. pose proof (loc_ok_div _ _ _ HD H) as Hq.
  unfold Fmt.round_half_even. rewrite <- Hq.
  assert (Hmod : N mod D = N - shr_m mrs * D).
  { rewrite Z.mod_eq by lia. rewrite <- Hq. lia. }
  rewrite Hmod. destruct mrs as [m r s]. unfold loc_ok in H.
  cbn [shr_m shr_r shr_s loc_of_shr_record] in *. destruct H as (Hb & Hr & Hs).
  destruct r, s; bool_iff_in Hr; bool_iff_in Hs;
    destruct (Z.compare_spec (2 * (N - m * D)) D); cbn [round_nearest_even];
    reflexivity || lia.
Qed.

Lemma loc_ok_exact (m D : Z) : 0 < D -> loc_ok (shr_record_of_loc m loc_Exact) (m * D) D.
Proof.
  intros HD. unfold loc_ok. cbn [shr_record_of_loc shr_m shr_r shr_s].
  split; [lia|]. split; bool_iff; lia.
Qed.

Lemma loc_ok_new_location (q r D : Z) :
  0 < D -> 0 <= r < D ->
  loc_ok (shr_record_of_loc q (new_location D r)) (q * D + r) D.
Proof.
  intros HD Hr. unfold new_location, new_location_even, new_location_odd.
  destruct (Z.even D) eqn:Hev.
  - destruct (Z.eqb_spec r 0) as [->|Hnz].
    + rewrite Z.add_0_r. apply loc_ok_exact. assumption.
    + destruct (Z.compare_spec (2 * r) D); unfold loc_ok;
        cbn [shr_record_of_loc shr_m shr_r shr_s];
        (split; [lia|]); (split; bool_iff; lia).
  - assert (Hodd : Z.odd D = true) by (rewrite <- Z.negb_even, Hev; reflexivity).
    apply Z.odd_spec in Hodd. destruct Hodd as [k Hk].
    destruct (Z.eqb_spec r 0) as [->|Hnz].
    + rewrite Z.add_0_r. apply loc_ok_exact. assumption.
    + destruct (Z.compare_spec (2 * r + 1) D); unfold loc_ok;
        cbn [shr_record_of_loc shr_m shr_r shr_s];
        (split; [lia|]); (split; bool_iff; lia).
Qed.

(** *** The last step of a rounding *)

Lemma fexp_fexp64 (g : Z) : fexp prec emax g = fexp64 g.
Proof. reflexivity. Qed.

Lemma binary_round_aux_finish (s : bool) (m e : Z) (l : location) :
  binary_round_aux prec emax s m e l =
  let mrs := fst (shr_fexp prec emax m e l) in
  finish s (round_nearest_even (shr_m mrs) (loc_of_shr_record mrs))
         (snd (shr_fexp prec emax m e l)).
Proof.
  unfold binary_round_aux, finish.
  destruct (shr_fexp prec emax m e l) as [mrs e']. reflexivity.
Qed.

Lemma finish_pack (s : bool) (M E : Z) :
  0 <= M <= 2 ^ 53 -> -1074 <= E -> finish s M E = pack s M E.
Proof.
  intros HM HE. unfold finish, pack, shr_fexp. rewrite fexp_fexp64.
  destruct (Z.eqb_spec M 0) as [->|Hnz].
  - rewrite shr_nop by (cbn [Zdigits2]; unfold fexp64; lia). reflexivity.
  - destruct (Z.ltb_spec M (2 ^ 53)) as [Hlt|Hge].
    + pose proof (Zdigits2_le_pow M 53 ltac:(lia) ltac:(lia)) as Hd.
      rewrite shr_nop by (unfold fexp64; lia).
      cbn [shr_record_of_loc shr_m]. destruct M; try lia. reflexivity.
    + assert (M = 2 ^ 53) as -> by lia.
      replace (fexp64 (Zdigits2 (2 ^ 53) + E) - E) with 1
        by (change (Zdigits2 (2 ^ 53)) with 54; unfold fexp64; lia).
      reflexivity.
Qed.

Lemma key_pack (M E : Z) :
  0 <= M <= 2 ^ 53 -> -1074 <= E -> (-1074 < E -> 2 ^ 52 <= M) ->
  key (pack false M E) = Z.min ((E + 1074) * 2 ^ 52 + M) (2047 * 2 ^ 52).
Proof.
  intros HM HE Hn. unfold pack.
  destruct (Z.eqb_spec M 0) as [->|Hnz];
    [|destruct (Z.ltb_spec M (2 ^ 53));
      [destruct (Z.leb_spec E 971) | destruct (Z.leb_spec (E + 1) 971)]];
    cbn [key cond_Zopp]; rewrite ?Z2Pos.id by lia; lia.
Qed.

(** *** Nearest integers *)

Lemma rne_bounds (A D : Z) : 0 < D -> A / D <= rne A D <= A / D + 1.
Proof.
  intros HD. unfold rne.
  destruct (2 * (A mod D) ?= D); [destruct (Z.even (A / D))| |]; lia.
Qed.

Lemma rne_mono (A1 A2 D : Z) : 0 < D -> A1 <= A2 -> rne A1 D <= rne A2 D.
Proof.
  intros HD HA.
  pose proof (Z.div_le_mono A1 A2 D HD HA) as Hq.
  destruct (Z.eq_dec (A1 / D) (A2 / D)) as [Heq|Hne].
  - unfold rne. rewrite <- Heq.
    assert (Hr : A1 mod D <= A2 mod D).
    { rewrite !Z.mod_eq by lia. rewrite <- Heq. lia. }
    destruct (Z.compare_spec (2 * (A1 mod D)) D);
      destruct (Z.compare_spec (2 * (A2 mod D)) D);
      destruct (Z.even (A1 / D)); lia.
  - pose proof (rne_bounds A1 D HD). pose proof (rne_bounds A2 D HD). lia.
Qed.

Lemma rne_scale (A D k : Z) : 0 < D -> 0 < k -> rne (A * k) (D * k) = rne A D.
Proof.
  intros HD Hk. unfold rne.
  rewrite Z.div_mul_cancel_r, Z.mul_mod_distr_r by lia.
  destruct (Z.compare_spec (2 * (A mod D * k)) (D * k));
    destruct (Z.compare_spec (2 * (A mod D)) D); reflexivity || nia.
Qed.

Lemma pow2_pos (k : Z) : 0 <= k -> 0 < 2 ^ k.
Proof. intros Hk. apply Z.pow_pos_nonneg; lia. Qed.

Lemma Zdigits2_unique (a k : Z) : 0 < k -> 2 ^ (k - 1) <= a < 2 ^ k -> Zdigits2 a = k.
Proof.
  intros Hk [Hl Hu].
  pose proof (pow2_pos (k - 1) ltac:(lia)).
  pose proof (Zdigits2_le_pow a k ltac:(lia) ltac:(lia)).
  pose proof (Zdigits2_gt_pow a (k - 1) ltac:(lia) Hl). lia.
Qed.

(** Scaling the numerator by [2^k] adds [k] digits to a nonzero quotient. *)
Lemma Zdigits2_div_scale (N D k : Z) :
  0 < D -> D <= N -> 0 <= k ->
  Zdigits2 (N * 2 ^ k / D) = Zdigits2 (N / D) + k.
Proof.
  intros HD HN Hk.
  assert (Hq : 0 < N / D) by (apply Z.div_str_pos; lia).
  pose proof (Zdigits2_bounds _ Hq) as [Hl Hu].
  pose proof (Zdigits2_pos _ Hq) as Hd.
  pose proof (pow2_pos k Hk) as Hpk.
  pose proof (Z.mul_div_le N D HD) as Hfloor.
  pose proof (Z.mul_succ_div_gt N D HD) as Hceil.
  apply Zdigits2_unique; [lia|]. split.
  - apply Z.div_le_lower_bound; [lia|].
    replace (Zdigits2 (N / D) + k - 1) with (Zdigits2 (N / D) - 1 + k) by lia.
    rewrite Z.pow_add_r by lia.
    assert (D * 2 ^ (Zdigits2 (N / D) - 1) <= N) by nia. nia.
  - apply Z.div_lt_upper_bound; [lia|].
    rewrite Z.pow_add_r by lia.
    assert (N < D * 2 ^ Zdigits2 (N / D)) by nia. nia.
Qed.

(** A zero quotient stays below [2^k]. *)
Lemma Zdigits2_div_small (N D k : Z) :
  0 < D -> 0 <= N < D -> 0 <= k -> Zdigits2 (N * 2 ^ k / D) <= k.
Proof.
  intros HD HN Hk. pose proof (pow2_pos k Hk).
  apply Zdigits2_le_pow; [|assumption]. split.
  - apply Z.div_pos; nia.
  - apply Z.div_lt_upper_bound; nia.
Qed.

(** *** [binary_round_aux] rounds to nearest, monotonically *)

Lemma Rnd_bounds (B A D : Z) :
  0 < D -> 0 <= A -> B <= -1074 ->
  -1074 <= rexp B A D /\
  0 <= rmant B A D <= 2 ^ 53 /\
  (-1074 < rexp B A D -> 2 ^ 52 <= rmant B A D).
Proof.
  intros HD HA HB. unfold rmant, rexp.
  set (q := A / D). set (d := Zdigits2 q). set (E := fexp64 (d + B)).
  assert (Hq : 0 <= q) by (apply Z.div_pos; lia).
  pose proof (Zdigits2_nonneg q) as Hd. fold d in Hd.
  assert (HE : -1074 <= E) by (unfold E, fexp64; lia).
  pose proof (pow2_pos (E - B) ltac:(lia)) as Hp.
  pose proof (rne_bounds A (D * 2 ^ (E - B)) ltac:(nia)) as Hr.
  rewrite <- Z.div_div in Hr by lia. fold q in Hr.
  assert (Hup : q / 2 ^ (E - B) < 2 ^ 53).
  { apply Z.div_lt_upper_bound; [lia|].
    destruct (Z.eq_dec q 0) as [Hz|Hnz]; [rewrite Hz; lia|].
    pose proof (Zdigits2_bounds q ltac:(lia)) as [_ Hu]. fold d in Hu.
    rewrite <- Z.pow_add_r by lia.
    pose proof (Z.pow_le_mono_r 2 d (E - B + 53) ltac:(lia)
                  ltac:(unfold E, fexp64; lia)). lia. }
  assert (Hlo : 0 <= q / 2 ^ (E - B)) by (apply Z.div_pos; lia).
  split; [exact HE|]. split; [lia|]. intros Hn.
  assert (HEd : E = d + B - 53) by (unfold E, fexp64 in *; lia).
  assert (Hq' : 0 < q).
  { destruct (Z.eq_dec q 0) as [Hz|]; [|lia].
    unfold d in HEd. rewrite Hz in HEd. cbn in HEd. lia. }
  pose proof (Zdigits2_bounds q Hq') as [Hl _]. fold d in Hl.
  enough (2 ^ 52 <= q / 2 ^ (E - B)) by lia.
  apply Z.div_le_lower_bound; [lia|].
  rewrite <- Z.pow_add_r by lia.
  replace (E - B + 52) with (d - 1) by lia. exact Hl.
Qed.

Lemma shr_m_record_of_loc (m : Z) (l : location) : shr_m (shr_record_of_loc m l) = m.
Proof. destruct l as [|[]]; reflexivity. Qed.

(** [binary_round_aux], given a located fraction whose exponent is not
    above the target, rounds that fraction. *)
Lemma binary_round_aux_Rnd (s : bool) (m e : Z) (l : location) (N D B : Z) :
  0 < D -> 0 <= N ->
  loc_ok (shr_record_of_loc m l) N D ->
  e <= fexp64 (Zdigits2 m + e) ->
  B <= e -> B <= -1074 ->
  binary_round_aux prec emax s m e l = Rnd s B (N * 2 ^ (e - B)) D.
Proof.
  intros HD HN Hloc Hpre HBe HB.
  rewrite binary_round_aux_finish. unfold shr_fexp. rewrite fexp_fexp64.
  set (E := fexp64 (Zdigits2 m + e)) in *.
  destruct (shr_ok _ e (E - e) N D HD HN ltac:(lia) Hloc) as [Hloc' He'].
  cbv zeta. rewrite He'.
  rewrite (round_nearest_even_ok _ N (D * 2 ^ (E - e)))
    by (try assumption; pose proof (pow2_pos (E - e) ltac:(lia)); nia).
  replace (e + (E - e)) with E by lia.
  pose proof (loc_ok_div _ _ _ HD Hloc) as Hm.
  rewrite shr_m_record_of_loc in Hm.
  pose proof (pow2_pos (e - B) ltac:(lia)) as Hk.
  assert (HE : rexp B (N * 2 ^ (e - B)) D = E).
  { unfold rexp. destruct (Z_lt_le_dec N D) as [Hlt|Hge].
    - assert (m = 0) by (rewrite Hm; apply Z.div_small; lia). subst m.
      pose proof (Zdigits2_div_small N D (e - B) HD ltac:(lia) ltac:(lia)).
      pose proof (Zdigits2_nonneg (N * 2 ^ (e - B) / D)).
      unfold E in *. rewrite H in *. cbn [Zdigits2] in *. unfold fexp64 in *. lia.
    - rewrite Zdigits2_div_scale by lia. rewrite <- Hm.
      unfold E. f_equal. lia. }
  assert (HM : rmant B (N * 2 ^ (e - B)) D = rne N (D * 2 ^ (E - e))).
  { unfold rmant. rewrite HE.
    replace (E - B) with (E - e + (e - B)) by lia.
    rewrite Z.pow_add_r by lia. rewrite Z.mul_assoc.
    apply rne_scale; [|lia]. pose proof (pow2_pos (E - e) ltac:(lia)). nia. }
  destruct (Rnd_bounds B (N * 2 ^ (e - B)) D HD ltac:(nia) HB) as (Hb1 & Hb2 & _).
  unfold Rnd. rewrite HE, HM in *. apply finish_pack; assumption.
Qed.

Lemma key_Rnd (B A D : Z) :
  0 < D -> 0 <= A -> B <= -1074 ->
  key (Rnd false B A D)
  = Z.min ((rexp B A D + 1074) * 2 ^ 52 + rmant B A D) (2047 * 2 ^ 52).
Proof.
  intros HD HA HB. destruct (Rnd_bounds B A D HD HA HB) as (H1 & H2 & H3).
  apply key_pack; assumption.
Qed.

(** Rounding is monotone. *)
Lemma Rnd_mono (B A1 A2 D : Z) :
  0 < D -> 0 <= A1 <= A2 -> B <= -1074 ->
  key (Rnd false B A1 D) <= key (Rnd false B A2 D).
Proof.
  intros HD HA HB. rewrite !key_Rnd by lia.
  destruct (Rnd_bounds B A1 D HD ltac:(lia) HB) as (Ha1 & Ha2 & Ha3).
  destruct (Rnd_bounds B A2 D HD ltac:(lia) HB) as (Hb1 & Hb2 & Hb3).
  assert (HE : rexp B A1 D <= rexp B A2 D).
  { unfold rexp, fexp64.
    pose proof (Zdigits2_le (A1 / D) (A2 / D)
                  ltac:(split; [apply Z.div_pos; lia | apply Z.div_le_mono; lia])).
    lia. }
  destruct (Z.eq_dec (rexp B A1 D) (rexp B A2 D)) as [Heq|Hne].
  - assert (rmant B A1 D <= rmant B A2 D).
    { unfold rmant. rewrite Heq. apply rne_mono; [|lia].
      pose proof (pow2_pos (rexp B A2 D - B) ltac:(lia)). nia. }
    rewrite Heq. lia.
  - specialize (Hb3 ltac:(lia)). lia.
Qed.

(** *** Canonical floats *)

Lemma canonical_bounds (m : positive) (e : Z) :
  canonical_mantissa prec emax m e = true ->
  e = fexp64 (Zdigits2 (Z.pos m) + e) /\
  -1074 <= e /\ Z.pos m < 2 ^ 53 /\ (-1074 < e -> 2 ^ 52 <= Z.pos m).
Proof.
  unfold canonical_mantissa. rewrite fexp_fexp64. intros H.
  apply Z.eqb_eq in H. change (Z.pos (digits2_pos m)) with (Zdigits2 (Z.pos m)) in H.
  pose proof (Zdigits2_bounds (Z.pos m) ltac:(lia)) as [Hl Hu].
  pose proof (Zdigits2_pos (Z.pos m) ltac:(lia)) as Hd.
  set (d := Zdigits2 (Z.pos m)) in *.
  split; [lia|]. split; [unfold fexp64 in H; lia|]. split.
  - pose proof (Z.pow_le_mono_r 2 d 53 ltac:(lia) ltac:(unfold fexp64 in H; lia)). lia.
  - intros He. assert (d = 53) as Hd53 by (unfold fexp64 in H; lia).
    rewrite Hd53 in Hl. exact Hl.
Qed.

Lemma valid_finite (s : bool) (m : positive) (e : Z) :
  valid_binary (S754_finite s m e) = true ->
  canonical_mantissa prec emax m e = true /\ e <= 971.
Proof.
  unfold valid_binary. cbn [SpecFloat.valid_binary]. unfold bounded. intros H. apply andb_prop in H.
  destruct H as [H1 H2]. apply Z.leb_le in H2. split; [exact H1|exact H2].
Qed.

(** Between canonical positive floats the order of the keys is the order
    of the values. *)
Lemma canonical_scaled_le (m1 m2 : positive) (e1 e2 b : Z) :
  canonical_mantissa prec emax m1 e1 = true ->
  canonical_mantissa prec emax m2 e2 = true ->
  key (S754_finite false m1 e1) <= key (S754_finite false m2 e2) ->
  b <= e1 -> b <= e2 ->
  Z.pos m1 * 2 ^ (e1 - b) <= Z.pos m2 * 2 ^ (e2 - b).
Proof.
  intros H1 H2 Hk Hb1 Hb2. cbn [key cond_Zopp] in Hk.
  apply canonical_bounds in H1, H2.
  destruct H1 as (_ & Ha1 & Ha2 & Ha3), H2 as (_ & Hc1 & Hc2 & Hc3).
  assert (He : e1 <= e2) by lia.
  pose proof (pow2_pos (e1 - b) ltac:(lia)) as Hp1.
  destruct (Z.eq_dec e1 e2) as [->|Hne].
  - assert (Z.pos m1 <= Z.pos m2) by lia. nia.
  - specialize (Hc3 ltac:(lia)).
    pose proof (Z.pow_le_mono_r 2 (e1 - b + 1) (e2 - b) ltac:(lia) ltac:(lia)) as Hp.
    rewrite Z.pow_add_r in Hp by lia. change (2 ^ 1) with 2 in Hp. nia.
Qed.

(** *** Comparison is the order of the keys *)

Lemma key_finite_bounds (s : bool) (m : positive) (e : Z) :
  valid_binary (S754_finite s m e) = true ->
  0 < (e + 1074) * 2 ^ 52 + Z.pos m < 2047 * 2 ^ 52.
Proof.
  intros H. apply valid_finite in H. destruct H as [H He].
  apply canonical_bounds in H. lia.
Qed.

Lemma SFleb_key (a b : spec_float) :
  valid_binary a = true -> valid_binary b = true ->
  is_nan a = false -> is_nan b = false ->
  SFleb a b = (key a <=? key b).
Proof.
  intros Va Vb Na Nb.
  destruct a as [sa|sa| |sa ma ea]; try discriminate;
    destruct b as [sb|sb| |sb mb eb]; try discriminate;
    try pose proof (key_finite_bounds _ _ _ Va) as Ka;
    try pose proof (key_finite_bounds _ _ _ Vb) as Kb;
    unfold SFleb, SFcompare; cbn [key].
  all: try (destruct sa; cbn [cond_Zopp]; symmetry;
            first [apply Z.leb_le; lia | apply Z.leb_gt; lia]).
  all: try (destruct sb; cbn [cond_Zopp]; symmetry;
            first [apply Z.leb_le; lia | apply Z.leb_gt; lia]).
  all: try (destruct sa, sb; cbn [cond_Zopp]; symmetry;
            first [apply Z.leb_le; lia | apply Z.leb_gt; lia]).
  apply valid_finite in Va, Vb. destruct Va as [Ca _], Vb as [Cb _].
  apply canonical_bounds in Ca, Cb.
  change (Pos.compare_cont Eq ma mb) with (Pos.compare ma mb).
  destruct sa, sb; cbn [cond_Zopp];
    destruct (Z.compare_spec ea eb); try destruct (Pos.compare_spec ma mb);
    cbn [CompOpp]; symmetry;
    first [apply Z.leb_le; lia | apply Z.leb_gt; lia].
Qed.

Lemma key_pack_sign (s : bool) (M E : Z) :
  key (pack s M E) = cond_Zopp s (key (pack false M E)).
Proof.
  unfold pack.
  destruct (M =? 0), (M <? 2 ^ 53), (E <=? 971), (E + 1 <=? 971), s; reflexivity.
Qed.

Lemma key_Rnd_sign (s : bool) (B A D : Z) :
  key (Rnd s B A D) = cond_Zopp s (key (Rnd false B A D)).
Proof. apply key_pack_sign. Qed.

Lemma Rnd_not_nan (s : bool) (B A D : Z) : is_nan (Rnd s B A D) = false.
Proof.
  unfold Rnd. generalize (rmant B A D) (rexp B A D). intros M E. unfold pack.
  destruct (M =? 0), (M <? 2 ^ 53), (E <=? 971), (E + 1 <=? 971); reflexivity.
Qed.

Lemma key_Rnd_range (B A D : Z) :
  0 < D -> 0 <= A -> B <= -1074 -> 0 <= key (Rnd false B A D) <= 2047 * 2 ^ 52.
Proof.
  intros HD HA HB. rewrite key_Rnd by assumption.
  destruct (Rnd_bounds B A D HD HA HB) as (H1 & H2 & H3). lia.
Qed.

(** *** Multiplication and division round the exact result *)

Lemma SFmul_Rnd (sx sy : bool) (mx my : positive) (ex ey B : Z) :
  canonical_mantissa prec emax mx ex = true ->
  canonical_mantissa prec emax my ey = true ->
  B <= ex + ey -> B <= -1074 ->
  SFmul prec emax (S754_finite sx mx ex) (S754_finite sy my ey)
  = Rnd (xorb sx sy) B (Z.pos mx * Z.pos my * 2 ^ (ex + ey - B)) 1.
Proof.
  intros Cx Cy HB1 HB2. cbn [SFmul].
  apply canonical_bounds in Cx, Cy.
  destruct Cx as (Cx & _), Cy as (Cy & _).
  rewrite Pos2Z.inj_mul.
  apply binary_round_aux_Rnd; try lia.
  - rewrite <- (Z.mul_1_r (Z.pos mx * Z.pos my)) at 2. apply loc_ok_exact. lia.
  - pose proof (Zdigits2_bounds (Z.pos mx) ltac:(lia)) as [Hx _].
    pose proof (Zdigits2_bounds (Z.pos my) ltac:(lia)) as [Hy _].
    pose proof (Zdigits2_pos (Z.pos mx) ltac:(lia)) as Hdx.
    pose proof (Zdigits2_pos (Z.pos my) ltac:(lia)) as Hdy.
    set (dx := Zdigits2 (Z.pos mx)) in *. set (dy := Zdigits2 (Z.pos my)) in *.
    assert (Hd : dx + dy - 2 < Zdigits2 (Z.pos mx * Z.pos my)).
    { apply Zdigits2_gt_pow; [lia|].
      replace (dx + dy - 2) with ((dx - 1) + (dy - 1)) by lia.
      rewrite Z.pow_add_r by lia.
      pose proof (pow2_pos (dx - 1) ltac:(lia)).
      pose proof (pow2_pos (dy - 1) ltac:(lia)). nia. }
    unfold fexp64 in *. lia.
Qed.

Lemma SFdiv_Rnd (sx sy : bool) (mx my : positive) (ex ey B : Z) :
  canonical_mantissa prec emax mx ex = true ->
  canonical_mantissa prec emax my ey = true ->
  B <= ex - ey -> B <= -1074 ->
  SFdiv prec emax (S754_finite sx mx ex) (S754_finite sy my ey)
  = Rnd (xorb sx sy) B (Z.pos mx * 2 ^ (ex - ey - B)) (Z.pos my).
Proof.
  intros Cx Cy HB1 HB2. cbn [SFdiv]. unfold SFdiv_core_binary.
  rewrite fexp_fexp64.
  set (dx := Zdigits2 (Z.pos mx)). set (dy := Zdigits2 (Z.pos my)).
  set (e' := Z.min (fexp64 (dx + ex - (dy + ey))) (ex - ey)).
  set (sh := ex - ey - e').
  assert (Hsh : 0 <= sh) by (unfold sh, e'; lia).
  set (m' := match sh with
             | 0 => Z.pos mx
             | Z.pos _ => Z.shiftl (Z.pos mx) sh
             | Z.neg _ => 0
             end).
  assert (Hm' : m' = Z.pos mx * 2 ^ sh).
  { unfold m'. destruct sh as [|p|p]; [lia | | lia].
    apply Z.shiftl_mul_pow2. lia. }
  pose proof (Z_div_mod m' (Z.pos my) ltac:(lia)) as Hdm.
  destruct (Z.div_eucl m' (Z.pos my)) as [q r]. destruct Hdm as [Hqr Hr].
  pose proof (pow2_pos sh Hsh) as Hpsh.
  assert (He'B : B <= e') by (unfold e', fexp64; lia).
  rewrite (binary_round_aux_Rnd _ q e' _ m' (Z.pos my) B); try lia.
  - f_equal. rewrite Hm', <- Z.mul_assoc, <- Z.pow_add_r by lia.
    f_equal. f_equal. unfold sh. lia.
  - rewrite Hqr, (Z.mul_comm (Z.pos my) q). apply loc_ok_new_location; lia.
  - pose proof (Zdigits2_bounds (Z.pos mx) ltac:(lia)) as [Hx _].
    pose proof (Zdigits2_bounds (Z.pos my) ltac:(lia)) as [_ Hy].
    pose proof (Zdigits2_pos (Z.pos mx) ltac:(lia)) as Hdx.
    pose proof (Zdigits2_pos (Z.pos my) ltac:(lia)) as Hdy.
    fold dx in Hx, Hdx. fold dy in Hy, Hdy.
    assert (Hq : 0 <= q) by nia.
    pose proof (Zdigits2_nonneg q) as Hdq.
    assert (Hd : dx - 1 + sh - dy < 0 \/ dx + sh - dy <= Zdigits2 q).
    { destruct (Z_lt_le_dec (dx - 1 + sh - dy) 0) as [|Hge]; [left; assumption|right].
      enough (dx - 1 + sh - dy < Zdigits2 q) by lia.
      apply Zdigits2_gt_pow; [lia|].
      assert (Hpow : 2 ^ (dx - 1 + sh - dy) * 2 ^ dy <= m').
      { rewrite <- Z.pow_add_r by lia.
        replace (dx - 1 + sh - dy + dy) with (dx - 1 + sh) by lia.
        rewrite Z.pow_add_r by lia. rewrite Hm'. nia. }
      pose proof (pow2_pos (dx - 1 + sh - dy) Hge).
      nia. }
    unfold sh, e', fexp64 in *. lia.
Qed.

(** *** Operations by a positive constant are monotone *)

Section Monotone.

(** [f] maps zeros and infinities to themselves and a finite float
    [m * 2^e] to the rounding of [m * 2^e * K / D * 2^(-shift)]. *)
Variable f : spec_float -> spec_float.
Variables K D shift : Z.
Hypothesis K_pos : 0 < K.
Hypothesis D_pos : 0 < D.
Hypothesis f_zero : forall s, f (S754_zero s) = S754_zero s.
Hypothesis f_infinity : forall s, f (S754_infinity s) = S754_infinity s.
Hypothesis f_finite :
  forall s m e B,
    canonical_mantissa prec emax m e = true ->
    B + shift <= e -> B <= -1074 ->
    f (S754_finite s m e) = Rnd s B (Z.pos m * 2 ^ (e - (B + shift)) * K) D.

Lemma monotone_not_nan (x : spec_float) :
  valid_binary x = true -> is_nan x = false -> is_nan (f x) = false.
Proof.
  intros V N. destruct x as [s|s| |s m e]; try discriminate.
  - rewrite f_zero. reflexivity.
  - rewrite f_infinity. reflexivity.
  - apply valid_finite in V. destruct V as [C _].
    rewrite (f_finite s m e (Z.min (-1074) (e - shift)) C) by lia.
    apply Rnd_not_nan.
Qed.

Lemma monotone_key_finite (s : bool) (m : positive) (e B : Z) :
  canonical_mantissa prec emax m e = true ->
  B + shift <= e -> B <= -1074 ->
  key (f (S754_finite s m e))
  = cond_Zopp s (key (Rnd false B (Z.pos m * 2 ^ (e - (B + shift)) * K) D)) /\
  0 <= key (Rnd false B (Z.pos m * 2 ^ (e - (B + shift)) * K) D) <= 2047 * 2 ^ 52.
Proof.
  intros C HB1 HB2. rewrite (f_finite s m e B C HB1 HB2), key_Rnd_sign.
  split; [reflexivity|]. apply key_Rnd_range; try assumption.
  pose proof (pow2_pos (e - (B + shift)) ltac:(lia)). nia.
Qed.

Lemma monotone_key (x y : spec_float) :
  valid_binary x = true -> valid_binary y = true ->
  is_nan x = false -> is_nan y = false ->
  key x <= key y -> key (f x) <= key (f y).
Proof.
  intros Vx Vy Nx Ny Hk.
  destruct x as [sx|sx| |sx mx ex]; try discriminate;
    destruct y as [sy|sy| |sy my ey]; try discriminate;
    rewrite ?f_zero, ?f_infinity.
  all: try pose proof (key_finite_bounds _ _ _ Vx) as Kx.
  all: try pose proof (key_finite_bounds _ _ _ Vy) as Ky.
  all: try (apply valid_finite in Vx; destruct Vx as [Cx _]).
  all: try (apply valid_finite in Vy; destruct Vy as [Cy _]).
  all: cbn [key] in Hk |- *.
  (* zero, zero *)
  - lia.
  (* zero, infinity *)
  - exact Hk.
  (* zero, finite *)
  - destruct (monotone_key_finite sy my ey (Z.min (-1074) (ey - shift)) Cy
                ltac:(lia) ltac:(lia)) as [-> Hr].
    destruct sy; cbn [cond_Zopp] in *; lia.
  (* infinity, zero *)
  - exact Hk.
  (* infinity, infinity *)
  - exact Hk.
  (* infinity, finite *)
  - destruct (monotone_key_finite sy my ey (Z.min (-1074) (ey - shift)) Cy
                ltac:(lia) ltac:(lia)) as [-> Hr].
    destruct sx, sy; cbn [cond_Zopp] in *; lia.
  (* finite, zero *)
  - destruct (monotone_key_finite sx mx ex (Z.min (-1074) (ex - shift)) Cx
                ltac:(lia) ltac:(lia)) as [-> Hr].
    destruct sx; cbn [cond_Zopp] in *; lia.
  (* finite, infinity *)
  - destruct (monotone_key_finite sx mx ex (Z.min (-1074) (ex - shift)) Cx
                ltac:(lia) ltac:(lia)) as [-> Hr].
    destruct sx, sy; cbn [cond_Zopp] in *; lia.
  (* finite, finite *)
  - set (B := Z.min (-1074) (Z.min (ex - shift) (ey - shift))).
    destruct (monotone_key_finite sx mx ex B Cx ltac:(lia) ltac:(lia)) as [-> Hrx].
    destruct (monotone_key_finite sy my ey B Cy ltac:(lia) ltac:(lia)) as [-> Hry].
    destruct sx, sy; cbn [cond_Zopp] in *; try lia.
    + enough (key (Rnd false B (Z.pos my * 2 ^ (ey - (B + shift)) * K) D)
              <= key (Rnd false B (Z.pos mx * 2 ^ (ex - (B + shift)) * K) D)) by lia.
      pose proof (canonical_scaled_le my mx ey ex (B + shift) Cy Cx
                    ltac:(cbn [key cond_Zopp]; lia) ltac:(lia) ltac:(lia)).
      pose proof (pow2_pos (ey - (B + shift)) ltac:(lia)).
      apply Rnd_mono; [assumption | nia | lia].
    + pose proof (canonical_scaled_le mx my ex ey (B + shift) Cx Cy
                    ltac:(cbn [key cond_Zopp]; lia) ltac:(lia) ltac:(lia)).
      pose proof (pow2_pos (ex - (B + shift)) ltac:(lia)).
      apply Rnd_mono; [assumption | nia | lia].
Qed.

Lemma monotone_SFleb (x y : spec_float) :
  valid_binary x = true -> valid_binary y = true ->
  valid_binary (f x) = true -> valid_binary (f y) = true ->
  SFleb x y = true -> SFleb (f x) (f y) = true.
Proof.
  intros Vx Vy Vfx Vfy H.
  assert (Nx : is_nan x = false) by (destruct x; try reflexivity; discriminate H).
  assert (Ny : is_nan y = false).
  { destruct y; try reflexivity. destruct x; discriminate H. }
  rewrite SFleb_key in H by assumption. apply Z.leb_le in H.
  rewrite SFleb_key; try assumption; try (apply monotone_not_nan; assumption).
  apply Z.leb_le. apply monotone_key; assumption.
Qed.

End Monotone.

Lemma xorb_false_r' (s : bool) : xorb s false = s.
Proof. destruct s; reflexivity. Qed.

Section ByConstant.

Variable c : float.
Variable mc : positive.
Variable ec : Z.
Hypothesis c_finite : Prim2SF c = S754_finite false mc ec.

Lemma constant_canonical : canonical_mantissa prec emax mc ec = true.
Proof.
  pose proof (Prim2SF_valid c) as V. rewrite c_finite in V.
  apply valid_finite in V. exact (proj1 V).
Qed.

(** [x * c] grows with [x]. *)
Lemma mul_constant_r_monotone (x y : float) :
  (x <=? y)%float = true -> (x * c <=? y * c)%float = true.
Proof.
  rewrite !leb_spec, !mul_spec. intros H.
  apply (monotone_SFleb (fun a => SF64mul a (Prim2SF c)) (Z.pos mc) 1 (- ec));
    try apply Prim2SF_valid; try (rewrite <- mul_spec; apply Prim2SF_valid);
    try assumption; try lia; rewrite c_finite.
  - intros s. cbn. now rewrite xorb_false_r'.
  - intros s. cbn. now rewrite xorb_false_r'.
  - intros s m e B C HB1 HB2. unfold SF64mul.
    rewrite (SFmul_Rnd s false m mc e ec B C constant_canonical) by lia.
    rewrite xorb_false_r'. f_equal.
    replace (e - (B + - ec)) with (e + ec - B) by lia. lia.
Qed.

(** [c * x] grows with [x]. *)
Lemma mul_constant_l_monotone (x y : float) :
  (x <=? y)%float = true -> (c * x <=? c * y)%float = true.
Proof.
  rewrite !leb_spec, !mul_spec. intros H.
  apply (monotone_SFleb (fun a => SF64mul (Prim2SF c) a) (Z.pos mc) 1 (- ec));
    try apply Prim2SF_valid; try (rewrite <- mul_spec; apply Prim2SF_valid);
    try assumption; try lia; rewrite c_finite.
  - intros s. reflexivity.
  - intros s. reflexivity.
  - intros s m e B C HB1 HB2. unfold SF64mul.
    rewrite (SFmul_Rnd false s mc m ec e B constant_canonical C) by lia.
    cbn [xorb]. f_equal.
    replace (e - (B + - ec)) with (ec + e - B) by lia. lia.
Qed.

(** [x / c] grows with [x]. *)
Lemma div_constant_monotone (x y : float) :
  (x <=? y)%float = true -> (x / c <=? y / c)%float = true.
Proof.
  rewrite !leb_spec, !div_spec. intros H.
  apply (monotone_SFleb (fun a => SF64div a (Prim2SF c)) 1 (Z.pos mc) ec);
    try apply Prim2SF_valid; try (rewrite <- div_spec; apply Prim2SF_valid);
    try assumption; try lia; rewrite c_finite.
  - intros s. cbn. now rewrite xorb_false_r'.
  - intros s. cbn. now rewrite xorb_false_r'.
  - intros s m e B C HB1 HB2. unfold SF64div.
    rewrite (SFdiv_Rnd s false m mc e ec B C constant_canonical) by lia.
    rewrite xorb_false_r'. f_equal.
    replace (e - (B + ec)) with (e - ec - B) by lia. lia.
Qed.

End ByConstant.

Lemma finite_le_max (x : float) :
  Py.finite x = true ->
  (x <=? max_float)%float = true /\ (- max_float <=? x)%float = true.
Proof.
  unfold Py.finite. rewrite !leb_spec. pose proof (Prim2SF_valid x) as V.
  destruct (Prim2SF x) as [s|s| |s m e] eqn:Hx; try discriminate; intros _.
  - split; reflexivity.
  - pose proof (key_finite_bounds _ _ _ V) as K.
    rewrite !SFleb_key; try assumption; try reflexivity.
    change (key (Prim2SF max_float)) with (2047 * 2 ^ 52 - 1).
    change (key (Prim2SF (- max_float))) with (- (2047 * 2 ^ 52 - 1)).
    cbn [key]. split; apply Z.leb_le; destruct s; cbn [cond_Zopp]; lia.
Qed.

Lemma between_finite (lo hi x : float) :
  Py.finite lo = true -> Py.finite hi = true ->
  (lo <=? x)%float = true -> (x <=? hi)%float = true ->
  Py.finite x = true.
Proof.
  unfold Py.finite. rewrite !leb_spec.
  destruct (Prim2SF lo) as [?|?| |? ? ?]; try discriminate;
    destruct (Prim2SF hi) as [?|?| |? ? ?]; try discriminate;
    destruct (Prim2SF x) as [?|[]| |? ? ?]; try reflexivity; intros _ _;
    cbn; try discriminate; intros H1 H2;
    repeat match goal with
           | H : (if ?b then _ else _) = _ |- _ => destruct b
           | H : match ?b with _ => _ end = _ |- _ => destruct b
           end; discriminate.
Qed.

(** Dividing a finite float by a positive finite constant gives a finite
    float as soon as the largest float does. *)
Lemma div_constant_finite (c : float) (mc : positive) (ec : Z) (x : float) :
  Prim2SF c = S754_finite false mc ec ->
  Py.finite (max_float / c)%float = true ->
  Py.finite (- max_float / c)%float = true ->
  Py.finite x = true -> Py.finite (x / c)%float = true.
Proof.
  intros Hc Hhi Hlo Hx. destruct (finite_le_max x Hx) as [H1 H2].
  apply (between_finite (- max_float / c) (max_float / c)); try assumption.
  - apply (div_constant_monotone c mc ec Hc). exact H2.
  - apply (div_constant_monotone c mc ec Hc). exact H1.
Qed.

Lemma div_150_finite (x : float) :
  Py.finite x = true -> Py.finite (x / 150)%float = true.
Proof.
  apply (div_constant_finite 150 5277655813324800 (-45)); reflexivity.
Qed.

(** A quotient of finite nonzero floats is never NaN. *)
Lemma div_finite_not_nan (x y : float) (sx sy : bool) (mx my : positive) (ex ey : Z) :
  Prim2SF x = S754_finite sx mx ex ->
  Prim2SF y = S754_finite sy my ey ->
  is_nan (Prim2SF (x / y)%float) = false.
Proof.
  intros Hx Hy.
  pose proof (Prim2SF_valid x) as Vx. pose proof (Prim2SF_valid y) as Vy.
  rewrite Hx in Vx. rewrite Hy in Vy.
  apply valid_finite in Vx, Vy. destruct Vx as [Cx _], Vy as [Cy _].
  rewrite div_spec, Hx, Hy. unfold SF64div.
  rewrite (SFdiv_Rnd sx sy mx my ex ey (Z.min (-1074) (ex - ey)) Cx Cy) by lia.
  apply Rnd_not_nan.
Qed.

Lemma finite_nonzero (w : float) :
  Py.finite w = true -> (w =? 0)%float = false ->
  exists s m e, Prim2SF w = S754_finite s m e.
Proof.
  unfold Py.finite. rewrite FloatAxioms.eqb_spec.
  change (Prim2SF 0) with (S754_zero false).
  destruct (Prim2SF w) as [s|s| |s m e]; try discriminate; intros _ _.
  exists s, m, e. reflexivity.
Qed.

End Rounding.

(** ** Running the script on concrete constants *)

Lemma calculate_defaults : calculate defaults = inr default_env.
Proof. vm_compute. reflexivity. Qed.


Lemma int_to_float_150 : Py.int_to_float 150 = inr 150%float.
Proof. vm_compute. reflexivity. Qed.

Lemma int_to_float_2260000 : Py.int_to_float 2260000 = inr 2260000%float.
Proof. vm_compute. reflexivity. Qed.

(** C10. With the default constants the run completes with a water mass
    strictly between 0 and 150 tonnes, within 0.005 of 2.86, one flight,
    a total cost of 500000 USD and 52 reentries per launch. *)
Theorem default_results :
  exists v : Env.t,
    calculate defaults = inr v /\
    (0 <? Heat.m_water_tonnes (Env.heat v))%float = true /\
    (Heat.m_water_tonnes (Env.heat v) <? 150)%float = true /\
    Spec.close_to (5 # 1000) (286 # 100) (Heat.m_water_tonnes (Env.heat v)) /\
    Env.num_flights v = 1%Z /\
    Env.total_cost v = 500000%Z /\
    Env.reentries_per_launch v = 52%Z.
Proof.
  exists default_env. split; [exact calculate_defaults|].
  repeat split; try (vm_compute; reflexivity). qle_compute.
Qed.

(** C4. With the default constants [KE_total] is exactly the float
    3.6504e12, and [heat_to_tiles_fraction] and [fraction_absorbed] are
    0.4096 and 0.5904 within floating-point tolerance (one unit in the
    last place, 2^-52): they are the floats Python prints as
    0.4096000000000001 and 0.5903999999999999. *)
Theorem default_energy_and_fractions :
  exists h : Heat.t,
    heat_budget defaults = inr h /\
    Heat.KE_total h = 3.6504e12%float /\
    (Py.F2Q (Heat.KE_total h) == inject_Z (120000 * 7800 ^ 2) * (1 # 2))%Q /\
    Spec.close_to (1 # 2 ^ 52) (4096 # 10000) (Heat.heat_to_tiles_fraction h) /\
    Spec.close_to (1 # 2 ^ 52) (5904 # 10000) (Heat.fraction_absorbed h) /\
    Heat.heat_to_tiles_fraction h = 0.4096000000000001%float /\
    Heat.fraction_absorbed h = 0.5903999999999999%float.
Proof.
  exists default_heat. split; [vm_compute; reflexivity|].
  split; [vm_compute; reflexivity|].
  split; [vm_compute; reflexivity|].
  split; [close_compute|].
  split; [close_compute|].
  split; vm_compute; reflexivity.
Qed.

(** With the default payload the two quotients are divisions by and of 150. *)
Lemma num_flights_150 (c : constants) (w : float) :
  payload_per_flight c = 150%Z ->
  num_flights c w = Py.math_ceil (w / 150)%float.
Proof.
  intros HP. unfold num_flights. rewrite HP, int_to_float_150. reflexivity.
Qed.

Lemma reentries_per_launch_150 (c : constants) (w : float) :
  payload_per_flight c = 150%Z ->
  (w =? 0)%float = false ->
  reentries_per_launch c w = Py.math_floor (150 / w)%float.
Proof.
  intros HP Hw. unfold reentries_per_launch. rewrite HP, int_to_float_150.
  cbn. unfold Py.float_truediv. rewrite Hw. reflexivity.
Qed.

(** ** Division by zero *)

(** Dividing by a zero water mass raises. *)
Lemma reentries_per_launch_zero (c : constants) (w p : float) :
  Py.int_to_float (payload_per_flight c) = inr p ->
  (w =? 0)%float = true ->
  reentries_per_launch c w = inl ZeroDivisionError.
Proof.
  intros Hp Hw. unfold reentries_per_launch. rewrite Hp. cbn.
  unfold Py.float_truediv. rewrite Hw. reflexivity.
Qed.

Lemma num_flights_converts (c : constants) (w : float) (n : Z) :
  num_flights c w = inr n ->
  exists p, Py.int_to_float (payload_per_flight c) = inr p.
Proof.
  unfold num_flights.
  destruct (Py.int_to_float (payload_per_flight c)) as [e|p]; cbn.
  - discriminate.
  - intros _. exists p. reflexivity.
Qed.

(** With the default payload a zero water mass needs no flight. *)
Lemma num_flights_zero (c : constants) (w : float) :
  payload_per_flight c = 150%Z ->
  (w =? 0)%float = true ->
  num_flights c w = inr 0%Z.
Proof.
  intros HP Hw. rewrite (num_flights_150 c w HP).
  unfold Py.math_ceil. rewrite div_spec.
  rewrite FloatAxioms.eqb_spec in Hw.
  change (Prim2SF 0) with (S754_zero false) in Hw.
  change (Prim2SF 150) with (S754_finite false 5277655813324800 (-45)).
  destruct (Prim2SF w) as [[]|[]| |[] m e]; try discriminate Hw; reflexivity.
Qed.

(** C2, as the script behaves.  Whenever the constants make
    [m_water_tonnes] evaluate to zero, the run ends in an uncaught
    exception and prints nothing; when [num_flights] was computed, as it
    is (with value 0) for [payload_per_flight = 150], the exception is
    the ZeroDivisionError raised by the division for
    [reentries_per_launch]. *)
Theorem zero_water_mass_raises (c : constants) (h : Heat.t) :
  heat_budget c = inr h ->
  (Heat.m_water_tonnes h =? 0)%float = true ->
  exists e : exn,
    calculate c = inl e /\
    main c = Traceback e /\
    (forall n : Z,
        num_flights c (Heat.m_water_tonnes h) = inr n ->
        reentries_per_launch c (Heat.m_water_tonnes h) = inl ZeroDivisionError /\
        e = ZeroDivisionError) /\
    (payload_per_flight c = 150%Z ->
     num_flights c (Heat.m_water_tonnes h) = inr 0%Z /\ e = ZeroDivisionError).
Proof.
  intros Hh Hw. unfold main, calculate. rewrite Hh. cbn.
  destruct (num_flights c (Heat.m_water_tonnes h)) as [e|n] eqn:Hn; cbn.
  - exists e. split; [reflexivity|]. split; [reflexivity|]. split; [discriminate|].
    intros HP. rewrite (num_flights_zero c _ HP Hw) in Hn. discriminate Hn.
  - destruct (num_flights_converts _ _ _ Hn) as [p Hp].
    rewrite (reentries_per_launch_zero c _ p Hp Hw). cbn.
    exists ZeroDivisionError. split; [reflexivity|]. split; [reflexivity|].
    split; [intros ? _; split; reflexivity|].
    intros HP. rewrite (num_flights_zero c _ HP Hw) in Hn.
    split; [symmetry; exact Hn | reflexivity].
Qed.

Lemma zero_water_mass_raises_witness :
  heat_budget (with_fraction_max_heating 0) = inr (heat_at 0) /\
  exists e : exn,
    calculate (with_fraction_max_heating 0) = inl e /\
    main (with_fraction_max_heating 0) = Traceback e /\
    (forall n : Z,
        num_flights (with_fraction_max_heating 0) (Heat.m_water_tonnes (heat_at 0))
          = inr n ->
        reentries_per_launch (with_fraction_max_heating 0)
          (Heat.m_water_tonnes (heat_at 0)) = inl ZeroDivisionError /\
        e = ZeroDivisionError) /\
    (payload_per_flight (with_fraction_max_heating 0) = 150%Z ->
     num_flights (with_fraction_max_heating 0) (Heat.m_water_tonnes (heat_at 0))
       = inr 0%Z /\ e = ZeroDivisionError).
Proof.
  split; [vm_compute; reflexivity|].
  apply (zero_water_mass_raises (with_fraction_max_heating 0) (heat_at 0));
    vm_compute; reflexivity.
Defined.

(** C2, as stated, fails: with [fraction_max_heating = 0.0] the water
    mass is zero and the run is not handled, it ends in an uncaught
    ZeroDivisionError. *)
Lemma zero_water_mass_unhandled :
  (exists h : Heat.t,
      heat_budget (with_fraction_max_heating 0) = inr h /\
      (Heat.m_water_tonnes h =? 0)%float = true) /\
  main (with_fraction_max_heating 0) = Traceback ZeroDivisionError /\
  Spec.handled (main (with_fraction_max_heating 0)) = false.
Proof.
  split; [eexists; split; vm_compute; reflexivity|].
  split; vm_compute; reflexivity.
Qed.

(** C6, as the script behaves.  With [temp_fraction = 1.0] and the other
    constants at their defaults, [fraction_absorbed] and [m_water_tonnes]
    are zero, [num_flights] is 0, and the division for
    [reentries_per_launch] raises ZeroDivisionError, which nothing
    catches: the run prints no line. *)
Theorem temp_fraction_one :
  exists h : Heat.t,
    heat_budget (with_temp_fraction 1) = inr h /\
    Heat.heat_to_tiles_fraction h = 1%float /\
    Heat.fraction_absorbed h = 0%float /\
    Heat.m_water_tonnes h = 0%float /\
    num_flights (with_temp_fraction 1) (Heat.m_water_tonnes h) = inr 0%Z /\
    reentries_per_launch (with_temp_fraction 1) (Heat.m_water_tonnes h)
      = inl ZeroDivisionError /\
    main (with_temp_fraction 1) = Traceback ZeroDivisionError.
Proof.
  eexists. split; [vm_compute; reflexivity|].
  repeat split; vm_compute; reflexivity.
Qed.

(** C6, as stated, fails in its last part: the division by zero that
    [temp_fraction = 1.0] triggers is not handled. *)
Lemma temp_fraction_one_unhandled :
  Spec.handled (main (with_temp_fraction 1)) = false.
Proof. vm_compute. reflexivity. Qed.

(** ** Determinism *)

(** C7. Two runs whose eight constants are identical compute the same
    values (or raise the same exception) and write the same lines. *)
Theorem main_deterministic (c1 c2 : constants) :
  m_vehicle c1 = m_vehicle c2 ->
  v_orbital c1 = v_orbital c2 ->
  fraction_max_heating c1 = fraction_max_heating c2 ->
  heat_fraction c1 = heat_fraction c2 ->
  temp_fraction c1 = temp_fraction c2 ->
  Lv c1 = Lv c2 ->
  payload_per_flight c1 = payload_per_flight c2 ->
  propellant_cost_per_flight c1 = propellant_cost_per_flight c2 ->
  calculate c1 = calculate c2 /\ main c1 = main c2.
Proof.
  destruct c1, c2. cbn. intros. subst. split; reflexivity.
Qed.

Lemma main_deterministic_witness :
  calculate defaults = calculate (with_temp_fraction 0.8) /\
  main defaults = main (with_temp_fraction 0.8).
Proof.
  apply (main_deterministic defaults (with_temp_fraction 0.8)); reflexivity.
Defined.

(** ** Divisions by constants *)

Lemma math_ceil_not_zero_division (x : float) :
  Py.math_ceil x <> inl ZeroDivisionError.
Proof.
  destruct (Py.math_ceil x) as [e|n] eqn:H; [|discriminate].
  apply math_ceil_raises in H. intros [= ->]. now apply (proj2 H).
Qed.

(** C9. With [Lv = 2260000] and [payload_per_flight = 150], the three
    divisions other than the one for [reentries_per_launch] divide by a
    nonzero constant: whatever the numerator, [m_water_kg] and
    [m_water_tonnes] return the quotient and [num_flights] is [math.ceil]
    of the quotient, which can raise but never ZeroDivisionError. *)
Theorem constant_divisors (c : constants) (x : float) :
  Lv c = 2260000%Z ->
  payload_per_flight c = 150%Z ->
  m_water_kg c x = inr (x / 2260000)%float /\
  m_water_tonnes x = inr (x / 1000)%float /\
  num_flights c x = Py.math_ceil (x / 150)%float /\
  num_flights c x <> inl ZeroDivisionError.
Proof.
  intros HL HP.
  assert (Hn : num_flights c x = Py.math_ceil (x / 150)%float).
  { unfold num_flights. rewrite HP, int_to_float_150. reflexivity. }
  split; [|split; [|split]].
  - unfold m_water_kg. rewrite HL, int_to_float_2260000. reflexivity.
  - reflexivity.
  - exact Hn.
  - rewrite Hn. apply math_ceil_not_zero_division.
Qed.

Lemma constant_divisors_witness :
  m_water_kg defaults infinity = inr (infinity / 2260000)%float /\
  m_water_tonnes infinity = inr (infinity / 1000)%float /\
  num_flights defaults infinity = Py.math_ceil (infinity / 150)%float /\
  num_flights defaults infinity <> inl ZeroDivisionError.
Proof.
  apply (constant_divisors defaults infinity); reflexivity.
Defined.

(** ** Integer parts of the two quotients *)

Lemma math_ceil_not_finite (x : float) :
  Py.finite x = false -> exists e, Py.math_ceil x = inl e.
Proof.
  unfold Py.finite, Py.math_ceil.
  destruct (Prim2SF x); try discriminate; intros _; eexists; reflexivity.
Qed.

Lemma math_floor_not_finite (x : float) :
  Py.finite x = false -> exists e, Py.math_floor x = inl e.
Proof.
  unfold Py.finite, Py.math_floor.
  destruct (Prim2SF x); try discriminate; intros _; eexists; reflexivity.
Qed.

(** C3, as the script behaves.  With [payload_per_flight = 150] and any
    finite water mass [w]: [num_flights] is the smallest integer at or
    above the binary64 quotient [w / 150]; and when [w] is not zero,
    [reentries_per_launch] is the largest integer at or below the binary64
    quotient [150 / w] if that quotient is finite, while otherwise (the
    quotient has overflowed) [math.floor] raises OverflowError. *)
Theorem integer_parts_of_quotients (c : constants) (w : float) :
  payload_per_flight c = 150%Z ->
  Py.finite w = true ->
  (exists n : Z,
      num_flights c w = inr n /\ Spec.is_ceiling (Py.F2Q (w / 150)) n) /\
  ((w =? 0)%float = false ->
   Py.finite (150 / w) = true ->
     exists r : Z,
       reentries_per_launch c w = inr r /\ Spec.is_floor (Py.F2Q (150 / w)) r) /\
  ((w =? 0)%float = false ->
   Py.finite (150 / w) = false ->
     reentries_per_launch c w = inl OverflowError).
Proof.
  intros HP Hw. rewrite (num_flights_150 c w HP).
  split; [apply math_ceil_finite, div_150_finite, Hw|].
  split; intros Hz; rewrite (reentries_per_launch_150 c w HP Hz).
  - apply math_floor_finite.
  - destruct (finite_nonzero w Hw Hz) as (s & m & e & Hwf).
    pose proof (div_finite_not_nan 150 w false s 5277655813324800 m (-45) e
                  eq_refl Hwf) as Hn.
    unfold Py.finite, Py.math_floor.
    destruct (Prim2SF (150 / w)); try discriminate; reflexivity.
Qed.

Lemma integer_parts_of_quotients_witness :
  (exists n : Z,
      num_flights defaults 2.8608798584070794 = inr n /\
      Spec.is_ceiling (Py.F2Q (2.8608798584070794 / 150)) n) /\
  (exists r : Z,
      reentries_per_launch defaults 2.8608798584070794 = inr r /\
      Spec.is_floor (Py.F2Q (150 / 2.8608798584070794)) r).
Proof.
  destruct (integer_parts_of_quotients defaults 2.8608798584070794
              eq_refl eq_refl) as (Hn & Hr & _).
  split; [exact Hn | apply Hr; reflexivity].
Defined.

(** C3, as stated, fails: the positive water mass 1e-310 makes
    [150 / m_water_tonnes] overflow to infinity, and
    [reentries_per_launch] is no integer at all, [math.floor] raises
    OverflowError. *)
Lemma tiny_water_mass_overflows :
  (0 <? 1e-310)%float = true /\
  payload_per_flight defaults = 150%Z /\
  (150 / 1e-310)%float = infinity /\
  reentries_per_launch defaults 1e-310 = inl OverflowError.
Proof. repeat split; vm_compute; reflexivity. Qed.

(** ** The printed report *)

(** The rounding behind [.2e], [.2f] and [.0f] is to the nearest, ties to even. *)
Section Formatting.

Local Open Scope Z_scope.

Lemma round_half_even_nearest (n d : Z) :
  0 < d -> 2 * Z.abs (n - d * rne n d) <= d.
Proof.
  intros Hd. unfold rne.
  pose proof (Z.div_mod n d ltac:(lia)) as Hn.
  pose proof (Z.mod_pos_bound n d Hd) as Hr.
  destruct (Z.compare_spec (2 * (n mod d)) d); [destruct (Z.even (n / d))| |]; lia.
Qed.

Lemma digits_aux_nonempty (fuel : nat) (n : Z) (acc : Fmt.text) :
  acc <> [] \/ fuel <> O -> Fmt.digits_aux fuel n acc <> [].
Proof.
  revert n acc. induction fuel as [|fuel IH]; intros n acc H; cbn [Fmt.digits_aux].
  - destruct H as [H|H]; [exact H | congruence].
  - destruct (n <? 10); [discriminate|]. apply IH. left. discriminate.
Qed.

Lemma digits_nonempty (n : Z) : Fmt.digits n <> [].
Proof. apply digits_aux_nonempty. right. discriminate. Qed.

Lemma point_all (ds : Fmt.text) : Fmt.point (List.length ds) ds = ds.
Proof.
  unfold Fmt.point. rewrite skipn_all, firstn_all. reflexivity.
Qed.

(** [format(x, ".0f")] prints the digits of the integer nearest to [x],
    ties to the even one, after the sign. *)
Lemma fixed_0_nearest_integer (x : float) (s : bool) (m : positive) (e : Z) :
  Prim2SF x = S754_finite s m e ->
  Fmt.fixed 0 x
  = (Fmt.minus s ++ Fmt.digits (rne (Fmt.numerator m e) (Fmt.denominator e)))%list.
Proof.
  intros Hx. unfold Fmt.fixed. rewrite Hx. f_equal.
  unfold Fmt.scaled. cbn [Z.opp Z.leb Z.compare Z.pow Z.pow_pos Pos.iter].
  rewrite Z.mul_1_r.
  set (ds := Fmt.digits _).
  assert (Hpad : Fmt.pad (0 + 1) ds = ds).
  { unfold Fmt.pad, Fmt.zeros.
    pose proof (digits_nonempty (rne (Fmt.numerator m e) (Fmt.denominator e))) as Hne.
    fold ds in Hne. destruct ds as [|a ds']; [congruence|].
    cbn [List.length]. replace (Z.to_nat (0 + 1 - Z.of_nat (S (List.length ds')))) with O by lia.
    reflexivity. }
  rewrite Hpad. cbn [Z.to_nat]. rewrite Nat.sub_0_r. apply point_all.
Qed.

End Formatting.





(** ** The formula chain *)

(** Each step returns exactly when its operands are in range. *)
Lemma int_to_float_inr (z : Z) (x : float) :
  Py.int_to_float z = inr x <->
  Py.is_infinity (Py.Z2SF z) = false /\ x = Py.Z2F z.
Proof.
  unfold Py.int_to_float. destruct (Py.is_infinity (Py.Z2SF z)); cbn.
  - split; [discriminate | intros [[=] _]].
  - split; [intros [= <-]; split; reflexivity | intros [_ ->]; reflexivity].
Qed.

Lemma float_truediv_inr (a b q : float) :
  Py.float_truediv a b = inr q <-> (b =? 0)%float = false /\ q = (a / b)%float.
Proof.
  unfold Py.float_truediv. destruct (b =? 0)%float; cbn.
  - split; [discriminate | intros [[=] _]].
  - split; [intros [= <-]; split; reflexivity | intros [_ ->]; reflexivity].
Qed.

Lemma float_pow_inr (x : float) (n : positive) (y : float) :
  Py.float_pow x n = inr y <->
  Py.finite x && Py.is_infinity (Py.SFpow (Prim2SF x) n) = false /\ y = Py.pow x n.
Proof.
  unfold Py.float_pow.
  destruct (Py.finite x && Py.is_infinity (Py.SFpow (Prim2SF x) n)); cbn.
  - split; [discriminate | intros [[=] _]].
  - split; [intros [= <-]; split; reflexivity | intros [_ ->]; reflexivity].
Qed.

Lemma math_ceil_inr (x : float) (n : Z) :
  Py.math_ceil x = inr n <-> Py.finite x = true /\ Spec.is_ceiling (Py.F2Q x) n.
Proof.
  split.
  - intros H. pose proof (math_ceil_returns _ _ H) as Hf.
    destruct (math_ceil_finite x Hf) as (n' & Hn' & Hc). split; [exact Hf|].
    congruence.
  - intros [Hf Hc]. destruct (math_ceil_finite x Hf) as (n' & Hn' & Hc').
    rewrite Hn'. f_equal. eapply is_ceiling_unique; eassumption.
Qed.

Lemma math_floor_inr (x : float) (n : Z) :
  Py.math_floor x = inr n <-> Py.finite x = true /\ Spec.is_floor (Py.F2Q x) n.
Proof.
  split.
  - intros H. pose proof (math_floor_returns _ _ H) as Hf.
    destruct (math_floor_finite x Hf) as (n' & Hn' & Hc). split; [exact Hf|].
    congruence.
  - intros [Hf Hc]. destruct (math_floor_finite x Hf) as (n' & Hn' & Hc').
    rewrite Hn'. f_equal. eapply is_floor_unique; eassumption.
Qed.

(** A bind returns exactly when both of its parts do. *)
Lemma bind_inr {A B : Type} (m : py A) (k : A -> py B) (b : B) :
  (x <- m ;; k x) = inr b <-> exists a, m = inr a /\ k a = inr b.
Proof.
  destruct m as [e|a]; cbn.
  - split; [discriminate | intros (a & [=] & _)].
  - split; [intros H; exists a; split; [reflexivity | exact H]
           | intros (a' & [= <-] & H); exact H].
Qed.

Lemma heat_budget_inr (c : constants) (h : Heat.t) :
  heat_budget c = inr h <->
  Py.is_infinity (Py.Z2SF (m_vehicle c)) = false /\
  Py.is_infinity (Py.Z2SF (v_orbital c ^ 2)) = false /\
  Py.finite (temp_fraction c)
    && Py.is_infinity (Py.SFpow (Prim2SF (temp_fraction c)) 4) = false /\
  Py.is_infinity (Py.Z2SF (Lv c)) = false /\
  (Py.Z2F (Lv c) =? 0)%float = false /\
  Heat.KE_total h = (0.5 * Py.Z2F (m_vehicle c) * Py.Z2F (v_orbital c ^ 2))%float /\
  Heat.KE_max h = (fraction_max_heating c * Heat.KE_total h)%float /\
  Heat.heat_max h = (heat_fraction c * Heat.KE_max h)%float /\
  Heat.heat_to_tiles_fraction h = Py.pow (temp_fraction c) 4 /\
  Heat.fraction_absorbed h = (1 - Heat.heat_to_tiles_fraction h)%float /\
  Heat.energy_to_steam h = (Heat.fraction_absorbed h * Heat.heat_max h)%float /\
  Heat.m_water_kg h = (Heat.energy_to_steam h / Py.Z2F (Lv c))%float /\
  Heat.m_water_tonnes h = (Heat.m_water_kg h / 1000)%float.
Proof.
  unfold heat_budget, KE_total, heat_to_tiles_fraction, m_water_kg, m_water_tonnes,
    KE_max, heat_max, fraction_absorbed, energy_to_steam.
  split.
  - intros H.
    repeat (apply bind_inr in H; destruct H as (? & ? & H)).
    repeat match goal with
           | H : (_ <- _ ;; _) = inr _ |- _ =>
               apply bind_inr in H; destruct H as (? & ? & H)
           | H : Py.int_to_float _ = inr _ |- _ =>
               apply int_to_float_inr in H; destruct H as [? ->]
           | H : Py.float_truediv _ _ = inr _ |- _ =>
               apply float_truediv_inr in H; destruct H as [? ->]
           | H : Py.float_pow _ _ = inr _ |- _ =>
               apply float_pow_inr in H; destruct H as [? ->]
           | H : ret _ = inr _ |- _ => cbn in H; injection H as <-
           end.
    cbn. repeat split; assumption.
  - intros (H1 & H2 & H3 & H4 & H5 & E1 & E2 & E3 & E4 & E5 & E6 & E7 & E8).
    destruct h; cbn in *; subst.
    rewrite (proj2 (int_to_float_inr _ _) (conj H1 eq_refl)). cbn [bind Monad_either].
    rewrite (proj2 (int_to_float_inr _ _) (conj H2 eq_refl)). cbn [bind Monad_either ret].
    rewrite (proj2 (float_pow_inr _ _ _) (conj H3 eq_refl)). cbn [bind Monad_either].
    rewrite (proj2 (int_to_float_inr _ _) (conj H4 eq_refl)). cbn [bind Monad_either].
    rewrite (proj2 (float_truediv_inr _ _ _) (conj H5 eq_refl)). cbn [bind Monad_either].
    reflexivity.
Qed.






(** ** Monotonicity in [fraction_max_heating] *)

Lemma heat_budget_fraction_max_heating (a : float) :
  heat_budget (with_fraction_max_heating a) = inr (heat_at a).
Proof.
  apply heat_budget_inr. repeat split; vm_compute; reflexivity.
Qed.

(** C5, as the script behaves.  With the other constants at their
    defaults and [a <= b] two values of [fraction_max_heating], each of
    [KE_max], [heat_max], [energy_to_steam], [m_water_kg] and
    [m_water_tonnes] computed at [b] is greater than or equal to the one
    computed at [a]. *)
Theorem fraction_max_heating_monotone (a b : float) :
  (a <=? b)%float = true ->
  exists ha hb : Heat.t,
    heat_budget (with_fraction_max_heating a) = inr ha /\
    heat_budget (with_fraction_max_heating b) = inr hb /\
    (Heat.KE_max ha <=? Heat.KE_max hb)%float = true /\
    (Heat.heat_max ha <=? Heat.heat_max hb)%float = true /\
    (Heat.energy_to_steam ha <=? Heat.energy_to_steam hb)%float = true /\
    (Heat.m_water_kg ha <=? Heat.m_water_kg hb)%float = true /\
    (Heat.m_water_tonnes ha <=? Heat.m_water_tonnes hb)%float = true.
Proof.
  intros Hab. exists (heat_at a), (heat_at b).
  split; [apply heat_budget_fraction_max_heating|].
  split; [apply heat_budget_fraction_max_heating|].
  cbn [heat_at Heat.KE_max Heat.heat_max Heat.energy_to_steam Heat.m_water_kg
       Heat.m_water_tonnes].
  pose proof (mul_constant_r_monotone 3650400000000 7476019200000000 (-11)
                eq_refl _ _ Hab) as H1.
  pose proof (mul_constant_l_monotone 0.01 5764607523034235 (-59)
                eq_refl _ _ H1) as H2.
  pose proof (mul_constant_l_monotone 0.5903999999999999 5317850439999081 (-53)
                eq_refl _ _ H2) as H3.
  pose proof (div_constant_monotone 2260000 4853313044480000 (-31)
                eq_refl _ _ H3) as H4.
  pose proof (div_constant_monotone 1000 8796093022208000 (-43)
                eq_refl _ _ H4) as H5.
  repeat split; assumption.
Qed.

Lemma fraction_max_heating_monotone_witness :
  exists ha hb : Heat.t,
    heat_budget (with_fraction_max_heating 0.3) = inr ha /\
    heat_budget (with_fraction_max_heating 0.5) = inr hb /\
    (Heat.KE_max ha <=? Heat.KE_max hb)%float = true /\
    (Heat.heat_max ha <=? Heat.heat_max hb)%float = true /\
    (Heat.energy_to_steam ha <=? Heat.energy_to_steam hb)%float = true /\
    (Heat.m_water_kg ha <=? Heat.m_water_kg hb)%float = true /\
    (Heat.m_water_tonnes ha <=? Heat.m_water_tonnes hb)%float = true.
Proof.
  apply (fraction_max_heating_monotone 0.3 0.5). reflexivity.
Defined.

(** C5, as stated, fails: the neighbouring floats 0.3000000000000003 and
    0.3000000000000004 are in strict order, and so are the two values of
    [KE_max], but rounding maps them to one and the same [heat_max],
    [energy_to_steam] and [m_water_tonnes]. *)
Lemma neighbouring_fractions_collide :
  (0.3000000000000003 <? 0.3000000000000004)%float = true /\
  heat_budget (with_fraction_max_heating 0.3000000000000003)
    = inr (heat_at 0.3000000000000003) /\
  heat_budget (with_fraction_max_heating 0.3000000000000004)
    = inr (heat_at 0.3000000000000004) /\
  (Heat.KE_max (heat_at 0.3000000000000003)
     <? Heat.KE_max (heat_at 0.3000000000000004))%float = true /\
  Heat.heat_max (heat_at 0.3000000000000003)
    = Heat.heat_max (heat_at 0.3000000000000004) /\
  (Heat.heat_max (heat_at 0.3000000000000003)
     <? Heat.heat_max (heat_at 0.3000000000000004))%float = false /\
  (Heat.energy_to_steam (heat_at 0.3000000000000003)
     <? Heat.energy_to_steam (heat_at 0.3000000000000004))%float = false /\
  (Heat.m_water_tonnes (heat_at 0.3000000000000003)
     <? Heat.m_water_tonnes (heat_at 0.3000000000000004))%float = false /\
  Heat.m_water_tonnes (heat_at 0.3000000000000003) = 2.860879858407083%float.
Proof. repeat split; vm_compute; reflexivity. Qed.

(** * Further properties

    Beyond the claims of the specification: how each statement fails,
    what the documented ranges of the constants guarantee, how the
    results respond to the constants, and what the report shows. *)

(** ** More on rounding

    [binary_round] and [binary_normalize], which end a conversion from
    [int], a power and a subtraction, round like the other operations,
    and every rounding is a float of the format. *)

Section MoreRounding.

Import Round Range.
Local Open Scope Z_scope.

Lemma iter_xO (d m : positive) : Z.pos (Pos.iter xO m d) = Z.pos m * 2 ^ Z.pos d.
Proof.
  revert m. induction d as [|d IH] using Pos.peano_ind; intros m.
  - cbn [Pos.iter]. lia.
  - rewrite Pos.iter_succ, Pos2Z.inj_xO, IH, Pos2Z.inj_succ, Z.pow_succ_r by lia. lia.
Qed.

Lemma Zdigits2_mul_pow (m k : Z) : 0 < m -> 0 <= k -> Zdigits2 (m * 2 ^ k) = Zdigits2 m + k.
Proof.
  intros Hm Hk. pose proof (Zdigits2_div_scale m 1 k ltac:(lia) ltac:(lia) Hk) as H.
  rewrite !Z.div_1_r in H. exact H.
Qed.

Lemma loc_ok_exact_1 (m : Z) : loc_ok (shr_record_of_loc m loc_Exact) m 1.
Proof.
  pose proof (loc_ok_exact m 1 ltac:(lia)) as H. rewrite Z.mul_1_r in H. exact H.
Qed.

(** [binary_round] rounds the integer multiple [m * 2^e]. *)
Lemma binary_round_Rnd (s : bool) (m : positive) (e B : Z) :
  B <= e -> B <= -1074 ->
  binary_round prec emax s m e = Rnd s B (Z.pos m * 2 ^ (e - B)) 1.
Proof.
  intros HBe HB. unfold binary_round, shl_align. rewrite fexp_fexp64.
  change (Z.pos (digits2_pos m)) with (Zdigits2 (Z.pos m)).
  set (E := fexp64 (Zdigits2 (Z.pos m) + e)).
  assert (HE : -1074 <= E) by (unfold E, fexp64; lia).
  destruct (E - e) as [|d|d] eqn:Hd.
  - exact (binary_round_aux_Rnd s (Z.pos m) e loc_Exact (Z.pos m) 1 B
             ltac:(lia) ltac:(lia) (loc_ok_exact_1 _) ltac:(fold E; lia) HBe HB).
  - exact (binary_round_aux_Rnd s (Z.pos m) e loc_Exact (Z.pos m) 1 B
             ltac:(lia) ltac:(lia) (loc_ok_exact_1 _) ltac:(fold E; lia) HBe HB).
  - rewrite iter_xO.
    assert (Hpre : E <= fexp64 (Zdigits2 (Z.pos m * 2 ^ Z.pos d) + E)).
    { rewrite Zdigits2_mul_pow by lia.
      replace (Zdigits2 (Z.pos m) + Z.pos d + E) with (Zdigits2 (Z.pos m) + e) by lia.
      fold E. lia. }
    rewrite (binary_round_aux_Rnd s _ E loc_Exact (Z.pos m * 2 ^ Z.pos d) 1 B
               ltac:(lia) ltac:(lia) (loc_ok_exact_1 _) Hpre ltac:(lia) HB).
    f_equal. rewrite <- Z.mul_assoc, <- Z.pow_add_r by lia. f_equal. f_equal. lia.
Qed.

(** Every rounding is a float in the format. *)
Lemma Rnd_valid (s : bool) (B A D : Z) :
  0 < D -> 0 <= A -> B <= -1074 -> valid_binary (Rnd s B A D) = true.
Proof.
  intros HD HA HB. destruct (Rnd_bounds B A D HD HA HB) as (H1 & H2 & H3).
  unfold Rnd. set (M := rmant B A D) in *. set (E := rexp B A D) in *.
  unfold pack, valid_binary.
  destruct (Z.eqb_spec M 0) as [|HM]; [reflexivity|].
  destruct (Z.ltb_spec M (2 ^ 53)) as [Hlt|Hge].
  - destruct (Z.leb_spec E 971) as [HE|]; [|reflexivity].
    cbn [SpecFloat.valid_binary]. unfold bounded, canonical_mantissa.
    rewrite fexp_fexp64. apply andb_true_intro. split; [|apply Z.leb_le; exact HE].
    apply Z.eqb_eq.
    change (Z.pos (digits2_pos (Z.to_pos M))) with (Zdigits2 (Z.pos (Z.to_pos M))).
    rewrite Z2Pos.id by lia.
    pose proof (Zdigits2_le_pow M 53 ltac:(lia) ltac:(lia)) as Hd.
    destruct (Z.eq_dec E (-1074)) as [->|Hne]; [unfold fexp64; lia|].
    specialize (H3 ltac:(lia)).
    pose proof (Zdigits2_gt_pow M 52 ltac:(lia) H3). unfold fexp64. lia.
  - destruct (Z.leb_spec (E + 1) 971) as [HE|]; [|reflexivity].
    cbn [SpecFloat.valid_binary]. unfold bounded, canonical_mantissa.
    rewrite fexp_fexp64. apply andb_true_intro. split; [|apply Z.leb_le; exact HE].
    apply Z.eqb_eq. change (Z.pos (digits2_pos (2 ^ 52))) with 53.
    unfold fexp64. lia.
Qed.

(** A float in the format is its own rounding. *)
Lemma Rnd_exact (s : bool) (m : positive) (e B : Z) :
  canonical_mantissa prec emax m e = true -> e <= 971 ->
  B <= e -> B <= -1074 ->
  Rnd s B (Z.pos m * 2 ^ (e - B)) 1 = S754_finite s m e.
Proof.
  intros C He HBe HB. apply canonical_bounds in C. destruct C as (C1 & C2 & C3 & C4).
  assert (HE : rexp B (Z.pos m * 2 ^ (e - B)) 1 = e).
  { unfold rexp. rewrite Z.div_1_r, Zdigits2_mul_pow by lia.
    replace (Zdigits2 (Z.pos m) + (e - B) + B) with (Zdigits2 (Z.pos m) + e) by lia.
    symmetry. exact C1. }
  assert (HM : rmant B (Z.pos m * 2 ^ (e - B)) 1 = Z.pos m).
  { unfold rmant. rewrite HE.
    rewrite rne_scale by (try apply pow2_pos; lia).
    unfold Fmt.round_half_even. rewrite Z.div_1_r, Z.mod_1_r. reflexivity. }
  unfold Rnd. rewrite HE, HM. unfold pack.
  destruct (Z.eqb_spec (Z.pos m) 0); [lia|].
  destruct (Z.ltb_spec (Z.pos m) (2 ^ 53)); [|lia].
  destruct (Z.leb_spec e 971); [|lia]. reflexivity.
Qed.

Lemma Rnd_scale (s : bool) (B A D k : Z) :
  0 < D -> 0 < k -> B <= -1074 -> Rnd s B (A * k) (D * k) = Rnd s B A D.
Proof.
  intros HD Hk HB.
  assert (HE : rexp B (A * k) (D * k) = rexp B A D).
  { unfold rexp. rewrite Z.div_mul_cancel_r by lia. reflexivity. }
  unfold Rnd, rmant. rewrite HE. f_equal.
  replace (D * k * 2 ^ (rexp B A D - B)) with (D * 2 ^ (rexp B A D - B) * k) by lia.
  apply rne_scale; [|lia].
  pose proof (pow2_pos (rexp B A D - B) ltac:(unfold rexp, fexp64; lia)). nia.
Qed.

(** Rounding is monotone in the fraction rounded. *)
Lemma Rnd_mono_frac (B A1 D1 A2 D2 : Z) :
  0 < D1 -> 0 < D2 -> 0 <= A1 -> 0 <= A2 -> A1 * D2 <= A2 * D1 -> B <= -1074 ->
  key (Rnd false B A1 D1) <= key (Rnd false B A2 D2).
Proof.
  intros HD1 HD2 HA1 HA2 H HB.
  rewrite <- (Rnd_scale false B A1 D1 D2) by lia.
  rewrite <- (Rnd_scale false B A2 D2 D1) by lia.
  rewrite (Z.mul_comm D2 D1). apply Rnd_mono; nia || lia.
Qed.

Lemma key_SRnd (B A : Z) :
  key (SRnd B A) = Z.sgn A * key (Rnd false B (Z.abs A) 1).
Proof.
  unfold SRnd. destruct (Z.eqb_spec A 0) as [->|HA]; [reflexivity|].
  rewrite key_Rnd_sign. destruct (Z.ltb_spec A 0); cbn [cond_Zopp]; lia.
Qed.

(** Rounding an integer is monotone. *)
Lemma SRnd_mono (B A1 A2 : Z) :
  B <= -1074 -> A1 <= A2 -> key (SRnd B A1) <= key (SRnd B A2).
Proof.
  intros HB H. rewrite !key_SRnd.
  pose proof (key_Rnd_range B (Z.abs A1) 1 ltac:(lia) ltac:(lia) HB) as R1.
  pose proof (key_Rnd_range B (Z.abs A2) 1 ltac:(lia) ltac:(lia) HB) as R2.
  destruct (Z.sgn_spec A1) as [[H1 ->]|[[H1 ->]|[H1 ->]]];
    destruct (Z.sgn_spec A2) as [[H2 ->]|[[H2 ->]|[H2 ->]]]; try lia.
  - pose proof (Rnd_mono B (Z.abs A1) (Z.abs A2) 1 ltac:(lia) ltac:(lia) HB). lia.
  - pose proof (Rnd_mono B (Z.abs A2) (Z.abs A1) 1 ltac:(lia) ltac:(lia) HB). lia.
Qed.

Lemma SRnd_valid (B A : Z) : B <= -1074 -> valid_binary (SRnd B A) = true.
Proof.
  intros HB. unfold SRnd. destruct (A =? 0); [reflexivity|].
  apply Rnd_valid; lia.
Qed.

Lemma SRnd_not_nan (B A : Z) : is_nan (SRnd B A) = false.
Proof. unfold SRnd. destruct (A =? 0); [reflexivity|]. apply Rnd_not_nan. Qed.

(** [binary_normalize] rounds the integer multiple [z * 2^e]. *)
Lemma binary_normalize_SRnd (z e B : Z) :
  B <= e -> B <= -1074 ->
  binary_normalize prec emax z e false = SRnd B (z * 2 ^ (e - B)).
Proof.
  intros HBe HB. pose proof (pow2_pos (e - B) ltac:(lia)) as Hp.
  unfold SRnd. destruct z as [|m|m]; cbn [binary_normalize].
  - reflexivity.
  - destruct (Z.eqb_spec (Z.pos m * 2 ^ (e - B)) 0); [nia|].
    destruct (Z.ltb_spec (Z.pos m * 2 ^ (e - B)) 0); [nia|].
    rewrite Z.abs_eq by nia. apply binary_round_Rnd; assumption.
  - destruct (Z.eqb_spec (Z.neg m * 2 ^ (e - B)) 0); [nia|].
    destruct (Z.ltb_spec (Z.neg m * 2 ^ (e - B)) 0); [|nia].
    replace (Z.abs (Z.neg m * 2 ^ (e - B))) with (Z.pos m * 2 ^ (e - B)) by nia.
    apply binary_round_Rnd; assumption.
Qed.


(** Between floats in the format, the order of the keys is the order of
    the values. *)
Lemma units_le (B : Z) (x y : spec_float) :
  valid_binary x = true -> valid_binary y = true ->
  is_finite x = true -> is_finite y = true ->
  (forall s m e, x = S754_finite s m e -> B <= e) ->
  (forall s m e, y = S754_finite s m e -> B <= e) ->
  key x <= key y -> units B x <= units B y.
Proof.
  intros Vx Vy Fx Fy Bx By Hk.
  destruct x as [sx|sx| |sx mx ex]; try discriminate;
    destruct y as [sy|sy| |sy my ey]; try discriminate; cbn [units];
    try pose proof (key_finite_bounds _ _ _ Vx) as Kx;
    try pose proof (key_finite_bounds _ _ _ Vy) as Ky;
    try (specialize (Bx _ _ _ eq_refl)); try (specialize (By _ _ _ eq_refl));
    try (pose proof (pow2_pos (ex - B) ltac:(lia)));
    try (pose proof (pow2_pos (ey - B) ltac:(lia)));
    cbn [key] in Hk.
  - assert (0 <= Z.pos my * 2 ^ (ey - B)) by (apply Z.mul_nonneg_nonneg; lia).
    destruct sy; cbn [cond_Zopp] in *; lia.
  - assert (0 <= Z.pos mx * 2 ^ (ex - B)) by (apply Z.mul_nonneg_nonneg; lia).
    destruct sx; cbn [cond_Zopp] in *; lia.
  - apply valid_finite in Vx, Vy. destruct Vx as [Cx _], Vy as [Cy _].
    destruct sx, sy; cbn [cond_Zopp] in *.
    + pose proof (canonical_scaled_le my mx ey ex B Cy Cx
                    ltac:(cbn [key cond_Zopp]; lia) ltac:(lia) ltac:(lia)). lia.
    + assert (0 <= Z.pos mx * 2 ^ (ex - B)) by (apply Z.mul_nonneg_nonneg; lia).
      assert (0 <= Z.pos my * 2 ^ (ey - B)) by (apply Z.mul_nonneg_nonneg; lia).
      lia.
    + lia.
    + pose proof (canonical_scaled_le mx my ex ey B Cx Cy
                    ltac:(cbn [key cond_Zopp]; lia) ltac:(lia) ltac:(lia)). lia.
Qed.

End MoreRounding.

(** ** The order of floats and the operations of the script *)

Section FloatOrder.

Import Round Range.
Local Open Scope Z_scope.

Lemma key_range (a : spec_float) :
  valid_binary a = true -> - (2047 * 2 ^ 52) <= key a <= 2047 * 2 ^ 52.
Proof.
  intros V. destruct a as [s|s| |s m e]; cbn [key]; try lia.
  - destruct s; cbn [cond_Zopp]; lia.
  - pose proof (key_finite_bounds _ _ _ V). destruct s; cbn [cond_Zopp]; lia.
Qed.

Lemma leb_not_nan (x y : float) :
  (x <=? y)%float = true ->
  is_nan (Prim2SF x) = false /\ is_nan (Prim2SF y) = false.
Proof.
  rewrite leb_spec. destruct (Prim2SF x) as [?|?| |? ? ?], (Prim2SF y) as [?|?| |? ? ?];
    try discriminate; split; reflexivity.
Qed.

Lemma leb_key (x y : float) :
  is_nan (Prim2SF x) = false -> is_nan (Prim2SF y) = false ->
  (x <=? y)%float = (key (Prim2SF x) <=? key (Prim2SF y)).
Proof.
  intros Nx Ny. rewrite leb_spec. apply SFleb_key; try assumption; apply Prim2SF_valid.
Qed.

Lemma leb_le_key (x y : float) :
  (x <=? y)%float = true -> key (Prim2SF x) <= key (Prim2SF y).
Proof.
  intros H. destruct (leb_not_nan x y H) as [Nx Ny].
  rewrite (leb_key x y Nx Ny) in H. apply Z.leb_le. exact H.
Qed.

Lemma float_leb_trans (x y z : float) :
  (x <=? y)%float = true -> (y <=? z)%float = true -> (x <=? z)%float = true.
Proof.
  intros H1 H2. destruct (leb_not_nan x y H1) as [Nx Ny].
  destruct (leb_not_nan y z H2) as [_ Nz].
  apply leb_le_key in H1, H2. rewrite (leb_key x z Nx Nz). apply Z.leb_le. lia.
Qed.

(** What is between two floats that are not NaN is not NaN either. *)
Lemma finite_not_nan (x : float) : Py.finite x = true -> is_nan (Prim2SF x) = false.
Proof. unfold Py.finite. destruct (Prim2SF x); try discriminate; reflexivity. Qed.

Lemma Z2SF_SRnd (z : Z) : Py.Z2SF z = SRnd (-1074) (z * 2 ^ 1074).
Proof. unfold Py.Z2SF. rewrite (binary_normalize_SRnd z 0 (-1074)) by lia. reflexivity. Qed.

Lemma Z2SF_valid (z : Z) : valid_binary (Py.Z2SF z) = true.
Proof. rewrite Z2SF_SRnd. apply SRnd_valid. lia. Qed.

Lemma Prim2SF_Z2F (z : Z) : Prim2SF (Py.Z2F z) = Py.Z2SF z.
Proof. unfold Py.Z2F. apply Prim2SF_SF2Prim. apply Z2SF_valid. Qed.

(** Converting integers to floats keeps their order. *)
Lemma Z2F_monotone (z1 z2 : Z) : z1 <= z2 -> (Py.Z2F z1 <=? Py.Z2F z2)%float = true.
Proof.
  intros H. rewrite leb_key; rewrite !Prim2SF_Z2F, !Z2SF_SRnd;
    try apply SRnd_not_nan.
  apply Z.leb_le. apply SRnd_mono; lia.
Qed.

Lemma key_one : key (Rnd false (-1074) 1 1) = 1.
Proof. reflexivity. Qed.

(** Only the integer zero converts to a float zero. *)
Lemma Z2SF_key_sign (z : Z) :
  (0 < z -> 0 < key (Py.Z2SF z)) /\ (z < 0 -> key (Py.Z2SF z) < 0).
Proof.
  rewrite Z2SF_SRnd, key_SRnd.
  assert (H : z <> 0 -> 1 <= key (Rnd false (-1074) (Z.abs (z * 2 ^ 1074)) 1)).
  { intros Hz.
    pose proof (pow2_pos 1074 ltac:(lia)).
    assert (1 <= Z.abs (z * 2 ^ 1074)) by (rewrite Z.abs_mul; nia).
    pose proof (Rnd_mono (-1074) 1 (Z.abs (z * 2 ^ 1074)) 1
                  ltac:(lia) ltac:(lia) ltac:(lia)) as R.
    rewrite key_one in R. exact R. }
  pose proof (pow2_pos 1074 ltac:(lia)) as Hp.
  split; intros Hz; specialize (H ltac:(lia)).
  - rewrite Z.sgn_pos by nia. lia.
  - rewrite Z.sgn_neg by nia. lia.
Qed.

Lemma Z2F_eqb_zero (z : Z) : (Py.Z2F z =? 0)%float = (z =? 0).
Proof.
  rewrite FloatAxioms.eqb_spec, Prim2SF_Z2F.
  change (Prim2SF 0) with (S754_zero false).
  destruct (Z.eqb_spec z 0) as [->|Hz]; [reflexivity|].
  pose proof (Z2SF_key_sign z) as [Hp Hn].
  destruct (Py.Z2SF z) as [s|s| |s m e] eqn:E; cbn [key] in *.
  - lia.
  - destruct s; reflexivity.
  - lia.
  - destruct s; reflexivity.
Qed.

Lemma Z2SF_not_nan (z : Z) : is_nan (Py.Z2SF z) = false.
Proof. rewrite Z2SF_SRnd. apply SRnd_not_nan. Qed.

(** *** Powers *)





(** What a float that is at least zero looks like. *)
Lemma nonneg_cases (x : float) :
  (0 <=? x)%float = true ->
  (exists s, Prim2SF x = S754_zero s) \/
  (exists m e, Prim2SF x = S754_finite false m e) \/
  Prim2SF x = S754_infinity false.
Proof.
  rewrite leb_spec. change (Prim2SF 0) with (S754_zero false).
  destruct (Prim2SF x) as [s|[]| |[] m e]; try discriminate; eauto.
Qed.


(** *** Subtraction from a constant *)




Section FromConstant.

Variable c : float.
Variable sc : bool.
Variable mc : positive.
Variable ec : Z.
Hypothesis c_finite : Prim2SF c = S754_finite sc mc ec.



End FromConstant.

(** *** Multiplication by one *)


(** *** Division of a positive constant *)

Lemma pos_cases (x : float) :
  (0 <? x)%float = true ->
  (exists m e, Prim2SF x = S754_finite false m e) \/ Prim2SF x = S754_infinity false.
Proof.
  rewrite ltb_spec. change (Prim2SF 0) with (S754_zero false).
  destruct (Prim2SF x) as [s|[]| |[] m e]; try discriminate; eauto.
Qed.

Section DivideConstant.

Variable c : float.
Variable mc : positive.
Variable ec : Z.
Hypothesis c_finite : Prim2SF c = S754_finite false mc ec.

(** [c / x] shrinks as [x > 0] grows. *)
Lemma div_constant_l_antitone (x y : float) :
  (0 <? x)%float = true -> (x <=? y)%float = true -> (c / y <=? c / x)%float = true.
Proof.
  intros Hx Hxy.
  assert (Hy : (0 <? y)%float = true).
  { destruct (leb_not_nan _ _ Hxy) as [Nx Ny].
    apply leb_le_key in Hxy. rewrite ltb_spec in *.
    change (Prim2SF 0) with (S754_zero false) in *.
    pose proof (Prim2SF_valid x) as Vx. pose proof (Prim2SF_valid y) as Vy.
    destruct (Prim2SF x) as [?|[]| |[] mx ex]; try discriminate;
      destruct (Prim2SF y) as [?|[]| |[] my ey]; try discriminate; try reflexivity;
      try pose proof (key_finite_bounds _ _ _ Vx);
      try pose proof (key_finite_bounds _ _ _ Vy);
      cbn [key cond_Zopp] in Hxy; lia. }
  apply leb_le_key in Hxy.
  pose proof (Prim2SF_valid x) as Vx. pose proof (Prim2SF_valid y) as Vy.
  pose proof (constant_canonical c mc ec c_finite) as Cc.
  assert (Nn : forall t, (0 <? t)%float = true -> is_nan (Prim2SF (c / t)%float) = false).
  { intros t Ht. destruct (pos_cases t Ht) as [(m & e & E)|E].
    - apply (div_finite_not_nan c t _ _ _ _ _ _ c_finite E).
    - rewrite div_spec, c_finite, E. reflexivity. }
  rewrite leb_key by (apply Nn; assumption). apply Z.leb_le.
  rewrite !div_spec, c_finite. unfold SF64div.
  destruct (pos_cases x Hx) as [(mx & ex & Ex)|Ex];
    destruct (pos_cases y Hy) as [(my & ey & Ey)|Ey];
    rewrite Ex, Ey in *; clear Ex Ey.
  - apply valid_finite in Vx, Vy. destruct Vx as [Cx _], Vy as [Cy _].
    set (b := Z.min ex ey).
    set (B := Z.min (-1074) (Z.min (ec - ex) (ec - ey))).
    rewrite (SFdiv_Rnd false false mc mx ec ex B), (SFdiv_Rnd false false mc my ec ey B)
      by (assumption || unfold B; lia).
    cbn [xorb].
    pose proof (canonical_scaled_le mx my ex ey b Cx Cy Hxy
                  ltac:(unfold b; lia) ltac:(unfold b; lia)) as Hs.
    pose proof (pow2_pos (ec - ey - B) ltac:(unfold B; lia)) as Py.
    pose proof (pow2_pos (ec - ex - B) ltac:(unfold B; lia)) as Px.
    pose proof (pow2_pos (ex - b) ltac:(unfold b; lia)) as Pxb.
    pose proof (pow2_pos (ey - b) ltac:(unfold b; lia)) as Pyb.
    apply Rnd_mono_frac; try lia; try nia.
    assert (E : 2 ^ (ec - ey - B) * 2 ^ (ey - b) = 2 ^ (ec - ex - B) * 2 ^ (ex - b)).
    { rewrite <- !Z.pow_add_r by (unfold b, B; lia). f_equal. lia. }
    set (P := 2 ^ (ec - ey - B)) in *. set (Q := 2 ^ (ec - ex - B)) in *.
    set (X := 2 ^ (ex - b)) in *. set (Y := 2 ^ (ey - b)) in *.
    apply (Z.mul_le_mono_pos_r _ _ (X * Y)); [nia|].
    replace (Z.pos mc * P * Z.pos mx * (X * Y))
      with (Z.pos mc * (P * Y) * (Z.pos mx * X)) by lia.
    replace (Z.pos mc * Q * Z.pos my * (X * Y))
      with (Z.pos mc * (Q * X) * (Z.pos my * Y)) by lia.
    rewrite E. apply Z.mul_le_mono_nonneg_l; [nia|exact Hs].
  - apply valid_finite in Vx. destruct Vx as [Cx _].
    rewrite (SFdiv_Rnd false false mc mx ec ex (Z.min (-1074) (ec - ex)))
      by (assumption || lia).
    cbn [SFdiv xorb key].
    pose proof (pow2_pos (ec - ex - Z.min (-1074) (ec - ex)) ltac:(lia)).
    apply key_Rnd_range; nia || lia.
  - pose proof (key_finite_bounds _ _ _ Vy). cbn [key cond_Zopp] in Hxy. lia.
  - cbn. lia.
Qed.

End DivideConstant.

(** The exact value of a float, from its value in units of [2^B]. *)
Lemma dyadic_units (v e B : Z) :
  B <= e -> B <= 0 ->
  (Py.dyadic v e == Qmake (v * 2 ^ (e - B)) (Z.to_pos (2 ^ (- B))))%Q.
Proof.
  intros HBe HB. unfold Py.dyadic, Qeq.
  pose proof (pow2_pos (- B) ltac:(lia)) as Hp.
  destruct (Z.leb_spec 0 e) as [He|He]; cbn [Qnum Qden inject_Z];
    rewrite Z2Pos.id by lia.
  - replace (e - B) with (e + - B) by lia. rewrite Z.pow_add_r by lia. lia.
  - rewrite pos_pow2 by lia.
    replace (- B) with (e - B + - e) at 1 by lia. rewrite Z.pow_add_r by lia. lia.
Qed.

Lemma F2Q_units (x : float) (B : Z) :
  (forall s m e, Prim2SF x = S754_finite s m e -> B <= e) -> B <= 0 ->
  (Py.F2Q x == Qmake (units B (Prim2SF x)) (Z.to_pos (2 ^ (- B))))%Q.
Proof.
  intros Bx HB. unfold Py.F2Q.
  destruct (Prim2SF x) as [s|s| |s m e]; try reflexivity.
  rewrite (dyadic_units _ e B) by (try apply (Bx s m e eq_refl); lia).
  cbn [units]. destruct s; cbn [Py.signed cond_Zopp].
  - replace (Z.neg m * 2 ^ (e - B)) with (- (Z.pos m * 2 ^ (e - B))) by lia. reflexivity.
  - reflexivity.
Qed.

(** The order of finite floats is the order of their exact values. *)
Lemma leb_F2Q (x y : float) :
  Py.finite x = true -> Py.finite y = true ->
  (x <=? y)%float = true -> (Py.F2Q x <= Py.F2Q y)%Q.
Proof.
  intros Fx Fy H. apply leb_le_key in H.
  set (B := Z.min 0
             (Z.min (match Prim2SF x with S754_finite _ _ e => e | _ => 0 end)
                    (match Prim2SF y with S754_finite _ _ e => e | _ => 0 end))).
  assert (Bx : forall s m e, Prim2SF x = S754_finite s m e -> B <= e)
    by (intros s m e E; unfold B; rewrite E; lia).
  assert (By : forall s m e, Prim2SF y = S754_finite s m e -> B <= e)
    by (intros s m e E; unfold B; rewrite E; lia).
  rewrite (F2Q_units x B Bx), (F2Q_units y B By) by (unfold B; lia).
  unfold Qle. cbn [Qnum Qden].
  apply Z.mul_le_mono_nonneg_r; [lia|].
  apply units_le; try apply Prim2SF_valid; assumption.
Qed.

(** [math.ceil] and [math.floor] keep the order. *)
Lemma math_ceil_monotone (x y : float) (n n' : Z) :
  (x <=? y)%float = true ->
  Py.math_ceil x = inr n -> Py.math_ceil y = inr n' -> n <= n'.
Proof.
  intros H Hx Hy. apply math_ceil_inr in Hx, Hy.
  destruct Hx as [Fx [_ Hx]], Hy as [Fy [Hy _]].
  apply Hx. eapply Qle_trans; [|exact Hy]. apply leb_F2Q; assumption.
Qed.

Lemma math_floor_monotone (x y : float) (n n' : Z) :
  (x <=? y)%float = true ->
  Py.math_floor x = inr n -> Py.math_floor y = inr n' -> n <= n'.
Proof.
  intros H Hx Hy. apply math_floor_inr in Hx, Hy.
  destruct Hx as [Fx [Hx _]], Hy as [Fy [_ Hy]].
  apply Hy. eapply Qle_trans; [exact Hx|]. apply leb_F2Q; assumption.
Qed.

End FloatOrder.

(** ** How the statements fail *)

Section Failures.

Import Round Range.
Local Open Scope Z_scope.

Lemma Z2SF_key_mono (z1 z2 : Z) : z1 <= z2 -> key (Py.Z2SF z1) <= key (Py.Z2SF z2).
Proof. intros H. rewrite !Z2SF_SRnd. apply SRnd_mono; lia. Qed.

Lemma key_infinity (a : spec_float) :
  valid_binary a = true -> is_nan a = false ->
  Py.is_infinity a = (Z.abs (key a) =? 2047 * 2 ^ 52).
Proof.
  intros V N. destruct a as [s|s| |s m e]; try discriminate; cbn [Py.is_infinity key].
  - reflexivity.
  - destruct s; reflexivity.
  - pose proof (key_finite_bounds _ _ _ V). symmetry. apply Z.eqb_neq.
    destruct s; cbn [cond_Zopp]; lia.
Qed.

(** An [int] converts to a float exactly when its magnitude is below
    [int_max]. *)
Lemma Z2SF_overflow (z : Z) : Py.is_infinity (Py.Z2SF z) = (int_max <=? Z.abs z).
Proof.
  rewrite key_infinity by (apply Z2SF_valid || apply Z2SF_not_nan).
  pose proof (key_range _ (Z2SF_valid z)) as R.
  assert (Hhi : key (Py.Z2SF int_max) = 2047 * 2 ^ 52) by (vm_compute; reflexivity).
  assert (Hlo : key (Py.Z2SF (- int_max)) = - (2047 * 2 ^ 52)) by (vm_compute; reflexivity).
  assert (Hhi' : key (Py.Z2SF (int_max - 1)) = 2047 * 2 ^ 52 - 1) by (vm_compute; reflexivity).
  assert (Hlo' : key (Py.Z2SF (- (int_max - 1))) = - (2047 * 2 ^ 52 - 1))
    by (vm_compute; reflexivity).
  destruct (Z.leb_spec int_max (Z.abs z)) as [H|H]; [apply Z.eqb_eq | apply Z.eqb_neq].
  - destruct (Z_le_gt_dec 0 z).
    + pose proof (Z2SF_key_mono int_max z ltac:(lia)). lia.
    + pose proof (Z2SF_key_mono z (- int_max) ltac:(lia)). lia.
  - pose proof (Z2SF_key_mono z (int_max - 1) ltac:(lia)).
    pose proof (Z2SF_key_mono (- (int_max - 1)) z ltac:(lia)). lia.
Qed.

(** A nonzero [int] that fits converts to a finite nonzero float of its
    sign. *)
Lemma Z2SF_finite (z : Z) :
  z <> 0 -> Py.is_infinity (Py.Z2SF z) = false ->
  exists m e, Py.Z2SF z = S754_finite (z <? 0) m e.
Proof.
  intros Hz Hi. pose proof (Z2SF_key_sign z) as [Hp Hn].
  pose proof (Z2SF_not_nan z) as N. pose proof (Z2SF_valid z) as V.
  destruct (Py.Z2SF z) as [s|s| |s m e]; try discriminate.
  - cbn [key] in *. lia.
  - exists m, e. pose proof (key_finite_bounds _ _ _ V). f_equal.
    destruct (Z.ltb_spec z 0), s; cbn [key cond_Zopp] in *; try reflexivity; lia.
Qed.

(** A bind raises exactly when one of its parts does, the first one
    first. *)
Lemma bind_inl {A B : Type} (m : py A) (k : A -> py B) (e : exn) :
  (x <- m ;; k x) = inl e <-> m = inl e \/ exists a, m = inr a /\ k a = inl e.
Proof.
  destruct m as [e'|a]; cbn.
  - split; [intros [= <-]; left; reflexivity
           | intros [[= <-]|(a & [=] & _)]; reflexivity].
  - split; [intros H; right; exists a; split; [reflexivity | exact H]
           | intros [[=]|(a' & [= <-] & H)]; exact H].
Qed.

Lemma float_pow_inl (x : float) (n : positive) (e : exn) :
  Py.float_pow x n = inl e <->
  e = OverflowError /\ Py.finite x && Py.is_infinity (Py.SFpow (Prim2SF x) n) = true.
Proof.
  unfold Py.float_pow.
  destruct (Py.finite x && Py.is_infinity (Py.SFpow (Prim2SF x) n)); cbn.
  - split; [intros [= <-]; split; reflexivity | intros [-> _]; reflexivity].
  - split; [discriminate | intros [_ [=]]].
Qed.

Lemma math_ceil_inl (x : float) (e : exn) :
  Py.math_ceil x = inl e <->
  (e = ValueError /\ is_nan (Prim2SF x) = true) \/
  (e = OverflowError /\ Py.is_infinity (Prim2SF x) = true).
Proof.
  unfold Py.math_ceil. destruct (Prim2SF x) as [s|s| |s m d]; cbn.
  - split; [discriminate | intros [[_ [=]]|[_ [=]]]].
  - split; [intros [= <-]; right; split; reflexivity | intros [[_ [=]]|[-> _]]; reflexivity].
  - split; [intros [= <-]; left; split; reflexivity | intros [[-> _]|[_ [=]]]; reflexivity].
  - split; [discriminate | intros [[_ [=]]|[_ [=]]]].
Qed.

Lemma math_floor_inl (x : float) (e : exn) :
  Py.math_floor x = inl e <->
  (e = ValueError /\ is_nan (Prim2SF x) = true) \/
  (e = OverflowError /\ Py.is_infinity (Prim2SF x) = true).
Proof.
  unfold Py.math_floor. destruct (Prim2SF x) as [s|s| |s m d]; cbn.
  - split; [discriminate | intros [[_ [=]]|[_ [=]]]].
  - split; [intros [= <-]; right; split; reflexivity | intros [[_ [=]]|[-> _]]; reflexivity].
  - split; [intros [= <-]; left; split; reflexivity | intros [[-> _]|[_ [=]]]; reflexivity].
  - split; [discriminate | intros [[_ [=]]|[_ [=]]]].
Qed.

(** Each statement with an [int] operand, by the size of that operand. *)
Lemma m_water_kg_cases (c : constants) (x : float) :
  m_water_kg c x =
  if int_max <=? Z.abs (Lv c) then inl OverflowError
  else if Lv c =? 0 then inl ZeroDivisionError
  else inr (x / Py.Z2F (Lv c))%float.
Proof.
  unfold m_water_kg, Py.int_to_float. rewrite Z2SF_overflow.
  destruct (int_max <=? Z.abs (Lv c)); [reflexivity|].
  cbn [bind ret Monad_either]. unfold Py.float_truediv. rewrite Z2F_eqb_zero.
  destruct (Lv c =? 0); reflexivity.
Qed.

Lemma num_flights_cases (c : constants) (w : float) :
  num_flights c w =
  if int_max <=? Z.abs (payload_per_flight c) then inl OverflowError
  else if payload_per_flight c =? 0 then inl ZeroDivisionError
  else Py.math_ceil (w / Py.Z2F (payload_per_flight c))%float.
Proof.
  unfold num_flights, Py.int_to_float. rewrite Z2SF_overflow.
  destruct (int_max <=? Z.abs (payload_per_flight c)); [reflexivity|].
  cbn [bind ret Monad_either]. unfold Py.float_truediv. rewrite Z2F_eqb_zero.
  destruct (payload_per_flight c =? 0); reflexivity.
Qed.

Lemma reentries_per_launch_cases (c : constants) (w : float) :
  reentries_per_launch c w =
  if int_max <=? Z.abs (payload_per_flight c) then inl OverflowError
  else if (w =? 0)%float then inl ZeroDivisionError
  else Py.math_floor (Py.Z2F (payload_per_flight c) / w)%float.
Proof.
  unfold reentries_per_launch, Py.int_to_float. rewrite Z2SF_overflow.
  destruct (int_max <=? Z.abs (payload_per_flight c)); [reflexivity|].
  cbn [bind ret Monad_either]. unfold Py.float_truediv.
  destruct (w =? 0)%float; reflexivity.
Qed.

Lemma KE_total_cases (c : constants) :
  KE_total c =
  if (int_max <=? Z.abs (m_vehicle c)) || (int_max <=? v_orbital c ^ 2)
  then inl OverflowError
  else inr (0.5 * Py.Z2F (m_vehicle c) * Py.Z2F (v_orbital c ^ 2))%float.
Proof.
  unfold KE_total, Py.int_to_float. rewrite !Z2SF_overflow.
  rewrite (Z.abs_eq (v_orbital c ^ 2)) by (apply Z.pow_even_nonneg; exists 1; reflexivity).
  destruct (int_max <=? Z.abs (m_vehicle c)); [reflexivity|].
  cbn [bind ret Monad_either orb].
  destruct (int_max <=? v_orbital c ^ 2); reflexivity.
Qed.

(** X1.  The statements with an [int] operand, by the size of that
    operand.  An [int] of magnitude at least [2^1024 - 2^970] is too
    large for a float and the statement raises OverflowError; a zero
    divisor raises ZeroDivisionError; otherwise the float operation is
    carried out (and raises nothing itself, even when its result is an
    infinity or NaN). *)
Theorem int_operand_errors (c : constants) (x : float) :
  KE_total c
  = (if (int_max <=? Z.abs (m_vehicle c)) || (int_max <=? v_orbital c ^ 2)
     then inl OverflowError
     else inr (0.5 * Py.Z2F (m_vehicle c) * Py.Z2F (v_orbital c ^ 2))%float) /\
  m_water_kg c x
  = (if int_max <=? Z.abs (Lv c) then inl OverflowError
     else if Lv c =? 0 then inl ZeroDivisionError
     else inr (x / Py.Z2F (Lv c))%float) /\
  num_flights c x
  = (if int_max <=? Z.abs (payload_per_flight c) then inl OverflowError
     else if payload_per_flight c =? 0 then inl ZeroDivisionError
     else Py.math_ceil (x / Py.Z2F (payload_per_flight c))%float) /\
  reentries_per_launch c x
  = (if int_max <=? Z.abs (payload_per_flight c) then inl OverflowError
     else if (x =? 0)%float then inl ZeroDivisionError
     else Py.math_floor (Py.Z2F (payload_per_flight c) / x)%float).
Proof.
  split; [apply KE_total_cases|].
  split; [apply m_water_kg_cases|].
  split; [apply num_flights_cases | apply reentries_per_launch_cases].
Qed.

Lemma m_water_tonnes_returns (x : float) : m_water_tonnes x = inr (x / 1000)%float.
Proof. reflexivity. Qed.

(** How lines 34 to 55 can fail. *)
Lemma heat_budget_inl (c : constants) (e : exn) :
  heat_budget c = inl e ->
  (e = OverflowError /\
   (int_max <= Z.abs (m_vehicle c) \/ int_max <= v_orbital c ^ 2 \/
    Py.finite (temp_fraction c)
      && Py.is_infinity (Py.SFpow (Prim2SF (temp_fraction c)) 4) = true \/
    int_max <= Z.abs (Lv c))) \/
  (e = ZeroDivisionError /\ Lv c = 0).
Proof.
  unfold heat_budget. intros H.
  apply bind_inl in H. destruct H as [H|(ke & _ & H)].
  { rewrite KE_total_cases in H.
    destruct (Z.leb_spec int_max (Z.abs (m_vehicle c)));
      destruct (Z.leb_spec int_max (v_orbital c ^ 2)); cbn [orb] in H;
      try discriminate; injection H as <-; left; split; auto. }
  apply bind_inl in H. destruct H as [H|(tiles & _ & H)].
  { apply float_pow_inl in H. destruct H as [-> H]. left. split; auto. }
  apply bind_inl in H. destruct H as [H|(kg & _ & H)].
  { rewrite m_water_kg_cases in H.
    destruct (Z.leb_spec int_max (Z.abs (Lv c))).
    - injection H as <-. left. split; auto.
    - destruct (Z.eqb_spec (Lv c) 0); [|discriminate].
      injection H as <-. right. split; auto. }
  apply bind_inl in H. destruct H as [H|(t & _ & H)].
  { rewrite m_water_tonnes_returns in H. discriminate. }
  discriminate.
Qed.

(** A quotient by a finite nonzero float is NaN only if the dividend
    is. *)
Lemma div_by_finite_nan (x y : float) (s : bool) (m : positive) (e : Z) :
  Prim2SF y = S754_finite s m e ->
  is_nan (Prim2SF (x / y)%float) = is_nan (Prim2SF x).
Proof.
  intros Hy. destruct (Prim2SF x) as [sx|sx| |sx mx ex] eqn:Hx.
  - rewrite div_spec, Hx, Hy. reflexivity.
  - rewrite div_spec, Hx, Hy. reflexivity.
  - rewrite div_spec, Hx, Hy. reflexivity.
  - apply (div_finite_not_nan x y _ _ _ _ _ _ Hx Hy).
Qed.

(** A quotient of a finite nonzero float is NaN only if the divisor is
    zero or NaN. *)
Lemma div_of_finite_nan (x y : float) (s : bool) (m : positive) (e : Z) :
  Prim2SF x = S754_finite s m e -> (y =? 0)%float = false ->
  is_nan (Prim2SF (x / y)%float) = is_nan (Prim2SF y).
Proof.
  intros Hx Hz. rewrite FloatAxioms.eqb_spec in Hz.
  change (Prim2SF 0) with (S754_zero false) in Hz.
  destruct (Prim2SF y) as [sy|sy| |sy my ey] eqn:Hy.
  - destruct sy; discriminate Hz.
  - rewrite div_spec, Hx, Hy. reflexivity.
  - rewrite div_spec, Hx, Hy. reflexivity.
  - apply (div_finite_not_nan x y _ _ _ _ _ _ Hx Hy).
Qed.

Lemma Prim2SF_Z2F_finite (z : Z) :
  (int_max <=? Z.abs z) = false -> (z =? 0) = false ->
  exists m e, Prim2SF (Py.Z2F z) = S754_finite (z <? 0) m e.
Proof.
  intros Ho Hz. rewrite Prim2SF_Z2F. apply Z2SF_finite.
  - apply Z.eqb_neq. exact Hz.
  - rewrite Z2SF_overflow. exact Ho.
Qed.

(** X2.  What an uncaught exception of lines 34 to 64 says about the
    constants.  ZeroDivisionError: [Lv] is 0, or [payload_per_flight] is
    0, or the water mass came out as zero.  ValueError: the water mass
    came out as NaN.  OverflowError: an [int] constant is too large for
    a float, or [temp_fraction ** 4] overflows, or one of the two
    quotients whose integer part is taken is an infinity. *)
Theorem uncaught_exceptions (c : constants) (e : exn) :
  calculate c = inl e ->
  match e with
  | ZeroDivisionError =>
      Lv c = 0 \/ payload_per_flight c = 0 \/
      exists h, heat_budget c = inr h /\ (Heat.m_water_tonnes h =? 0)%float = true
  | ValueError =>
      exists h, heat_budget c = inr h /\
                is_nan (Prim2SF (Heat.m_water_tonnes h)) = true
  | OverflowError =>
      int_max <= Z.abs (m_vehicle c) \/ int_max <= v_orbital c ^ 2 \/
      Py.finite (temp_fraction c)
        && Py.is_infinity (Py.SFpow (Prim2SF (temp_fraction c)) 4) = true \/
      int_max <= Z.abs (Lv c) \/ int_max <= Z.abs (payload_per_flight c) \/
      exists h, heat_budget c = inr h /\
        (Py.is_infinity
           (Prim2SF (Heat.m_water_tonnes h / Py.Z2F (payload_per_flight c))%float) = true \/
         Py.is_infinity
           (Prim2SF (Py.Z2F (payload_per_flight c) / Heat.m_water_tonnes h)%float) = true)
  end.
Proof.
  unfold calculate. intros H.
  apply bind_inl in H. destruct H as [H|(h & Hh & H)].
  { apply heat_budget_inl in H.
    destruct H as [[-> H]|[-> H]]; [|left; exact H].
    destruct H as [H|[H|[H|H]]]; auto 6. }
  apply bind_inl in H. destruct H as [H|(n & Hn & H)].
  { rewrite num_flights_cases in H.
    destruct (Z.leb_spec int_max (Z.abs (payload_per_flight c))) as [Ho|Ho].
    { injection H as <-. auto 6. }
    destruct (Z.eqb_spec (payload_per_flight c) 0) as [Hz|Hz].
    { injection H as <-. auto. }
    destruct (Prim2SF_Z2F_finite (payload_per_flight c)) as (m & d & Hp);
      [apply Z.leb_gt; exact Ho | apply Z.eqb_neq; exact Hz |].
    apply math_ceil_inl in H. destruct H as [[-> H]|[-> H]].
    - exists h. split; [exact Hh|].
      rewrite (div_by_finite_nan _ _ _ _ _ Hp) in H. exact H.
    - do 5 right. exists h. auto. }
  apply bind_inl in H. destruct H as [H|(r & Hr & H)]; [|discriminate].
  rewrite num_flights_cases in Hn. rewrite reentries_per_launch_cases in H.
  destruct (Z.leb_spec int_max (Z.abs (payload_per_flight c))) as [Ho|Ho];
    [discriminate|].
  destruct (Z.eqb_spec (payload_per_flight c) 0) as [Hz|Hz]; [discriminate|].
  destruct (Heat.m_water_tonnes h =? 0)%float eqn:Hw.
  { injection H as <-. right. right. exists h. auto. }
  destruct (Prim2SF_Z2F_finite (payload_per_flight c)) as (m & d & Hp);
    [apply Z.leb_gt; exact Ho | apply Z.eqb_neq; exact Hz |].
  apply math_floor_inl in H. destruct H as [[-> H]|[-> H]].
  - exists h. split; [exact Hh|].
    rewrite (div_of_finite_nan _ _ _ _ _ Hp Hw) in H. exact H.
  - do 5 right. exists h. auto.
Qed.

Lemma uncaught_exceptions_witness :
  calculate (with_temp_fraction 1) = inl ZeroDivisionError /\
  (Lv (with_temp_fraction 1) = 0 \/ payload_per_flight (with_temp_fraction 1) = 0 \/
   exists h, heat_budget (with_temp_fraction 1) = inr h /\
             (Heat.m_water_tonnes h =? 0)%float = true).
Proof.
  split; [vm_compute; reflexivity|].
  apply (uncaught_exceptions (with_temp_fraction 1) ZeroDivisionError).
  vm_compute. reflexivity.
Defined.

End Failures.

(** ** The documented ranges of the fractions *)

Section Ranges.

Import Round Range.
Local Open Scope Z_scope.

















End Ranges.

(** ** How the results respond to the constants *)

Section Sensitivity.

Import Round Range.
Local Open Scope Z_scope.

Lemma mul_zero_r (x c : float) (s : bool) :
  Py.finite x = true -> Prim2SF c = S754_zero s ->
  exists s', Prim2SF (x * c)%float = S754_zero s'.
Proof.
  unfold Py.finite. intros Fx Ec. rewrite mul_spec, Ec.
  destruct (Prim2SF x) as [sx|sx| |sx mx ex]; try discriminate; cbn; eauto.
Qed.

Lemma mul_zero_l (x c : float) (s : bool) :
  Py.finite x = true -> Prim2SF c = S754_zero s ->
  exists s', Prim2SF (c * x)%float = S754_zero s'.
Proof.
  unfold Py.finite. intros Fx Ec. rewrite mul_spec, Ec.
  destruct (Prim2SF x) as [sx|sx| |sx mx ex]; try discriminate; cbn; eauto.
Qed.

Lemma leb_zeros (x y : float) (s s' : bool) :
  Prim2SF x = S754_zero s -> Prim2SF y = S754_zero s' -> (x <=? y)%float = true.
Proof. intros Hx Hy. rewrite leb_spec, Hx, Hy. reflexivity. Qed.

(** Multiplying by a finite float that is at least zero keeps the order
    of finite floats. *)
Lemma mul_nonneg_r_monotone (c x y : float) :
  (0 <=? c)%float = true -> Py.finite c = true ->
  Py.finite x = true -> Py.finite y = true ->
  (x <=? y)%float = true -> (x * c <=? y * c)%float = true.
Proof.
  intros Hc Fc Fx Fy Hxy.
  destruct (nonneg_cases c Hc) as [[s Ec]|[(m & e & Ec)|Ec]].
  - destruct (mul_zero_r x c s Fx Ec) as [s1 E1].
    destruct (mul_zero_r y c s Fy Ec) as [s2 E2].
    exact (leb_zeros _ _ _ _ E1 E2).
  - exact (mul_constant_r_monotone c m e Ec x y Hxy).
  - unfold Py.finite in Fc. rewrite Ec in Fc. discriminate.
Qed.

Lemma mul_nonneg_l_monotone (c x y : float) :
  (0 <=? c)%float = true -> Py.finite c = true ->
  Py.finite x = true -> Py.finite y = true ->
  (x <=? y)%float = true -> (c * x <=? c * y)%float = true.
Proof.
  intros Hc Fc Fx Fy Hxy.
  destruct (nonneg_cases c Hc) as [[s Ec]|[(m & e & Ec)|Ec]].
  - destruct (mul_zero_l x c s Fx Ec) as [s1 E1].
    destruct (mul_zero_l y c s Fy Ec) as [s2 E2].
    exact (leb_zeros _ _ _ _ E1 E2).
  - exact (mul_constant_l_monotone c m e Ec x y Hxy).
  - unfold Py.finite in Fc. rewrite Ec in Fc. discriminate.
Qed.

(** A product of finite floats that are at least zero grows with each
    factor. *)
Lemma mul_nonneg_monotone (a a' b b' : float) :
  (0 <=? a)%float = true -> (a <=? a')%float = true -> Py.finite a' = true ->
  (0 <=? b)%float = true -> (b <=? b')%float = true -> Py.finite b' = true ->
  (a * b <=? a' * b')%float = true.
Proof.
  intros Ha Haa Fa' Hb Hbb Fb'.
  assert (Fa : Py.finite a = true)
    by (apply (between_finite 0 a'); try assumption; reflexivity).
  assert (Fb : Py.finite b = true)
    by (apply (between_finite 0 b'); try assumption; reflexivity).
  apply (float_leb_trans _ (a' * b)%float).
  - apply mul_nonneg_r_monotone; assumption.
  - apply mul_nonneg_l_monotone; try assumption.
    exact (float_leb_trans _ _ _ Ha Haa).
Qed.



(** A finite nonzero float divided by itself is one. *)
Lemma div_self (x : float) (s : bool) (m : positive) (e : Z) :
  Prim2SF x = S754_finite s m e -> (x / x)%float = 1%float.
Proof.
  intros Hx. apply Prim2SF_inj. rewrite div_spec, Hx. unfold SF64div.
  pose proof (Prim2SF_valid x) as V. rewrite Hx in V.
  apply valid_finite in V. destruct V as [C _].
  rewrite (SFdiv_Rnd s s m m e e (-1074) C C) by lia.
  rewrite xorb_nilpotent.
  replace (e - e - -1074) with 1074 by lia.
  replace (Z.pos m * 2 ^ 1074) with (2 ^ 1074 * Z.pos m) by lia.
  rewrite <- (Z.mul_1_l (Z.pos m)) at 2.
  rewrite Rnd_scale by lia.
  change (Prim2SF 1) with (S754_finite false 4503599627370496 (-52)).
  change (2 ^ 1074) with (Z.pos 4503599627370496 * 2 ^ (-52 - -1074)).
  apply Rnd_exact; [reflexivity | lia | lia | lia].
Qed.

(** The float a positive payload converts to. *)
Lemma payload_float (c : constants) (w : float) (n : Z) :
  0 < payload_per_flight c -> num_flights c w = inr n ->
  (exists m e, Prim2SF (Py.Z2F (payload_per_flight c)) = S754_finite false m e) /\
  Py.math_ceil (w / Py.Z2F (payload_per_flight c)) = inr n /\
  forall w', reentries_per_launch c w'
             = if (w' =? 0)%float then inl ZeroDivisionError
               else Py.math_floor (Py.Z2F (payload_per_flight c) / w')%float.
Proof.
  intros Hp Hn. rewrite num_flights_cases in Hn.
  destruct (int_max <=? Z.abs (payload_per_flight c)) eqn:Ho; [discriminate|].
  destruct (payload_per_flight c =? 0) eqn:Hz; [discriminate|].
  split; [|split; [exact Hn|]].
  - destruct (Prim2SF_Z2F_finite _ Ho Hz) as (m & e & E).
    exists m, e. rewrite E. f_equal. apply Z.ltb_ge. lia.
  - intros w'. rewrite reentries_per_launch_cases, Ho. reflexivity.
Qed.

Lemma pos_nonzero (w : float) : (0 <? w)%float = true -> (w =? 0)%float = false.
Proof.
  rewrite FloatAxioms.eqb_spec, ltb_spec.
  change (Prim2SF 0) with (S754_zero false).
  destruct (Prim2SF w) as [s|[]| |[] m e]; try discriminate; reflexivity.
Qed.

Lemma pos_leb_pos (x y : float) :
  (0 <? x)%float = true -> (x <=? y)%float = true -> (0 <? y)%float = true.
Proof.
  intros Hx Hxy. destruct (leb_not_nan _ _ Hxy) as [Nx Ny].
  apply leb_le_key in Hxy. rewrite ltb_spec in *.
  change (Prim2SF 0) with (S754_zero false) in *.
  pose proof (Prim2SF_valid x) as Vx. pose proof (Prim2SF_valid y) as Vy.
  destruct (Prim2SF x) as [?|[]| |[] mx ex]; try discriminate;
    destruct (Prim2SF y) as [?|[]| |[] my ey]; try discriminate; try reflexivity;
    try pose proof (key_finite_bounds _ _ _ Vx);
    try pose proof (key_finite_bounds _ _ _ Vy);
    cbn [key cond_Zopp] in Hxy; lia.
Qed.

(** X6.  For a positive [payload_per_flight], a larger water mass never
    needs fewer flights nor (for a nonnegative cost per flight) costs
    less, and a larger positive water mass never gives more reentries
    per launch. *)
Theorem counts_monotone (c : constants) (w w' : float) (n n' : Z) :
  0 < payload_per_flight c ->
  (w <=? w')%float = true ->
  num_flights c w = inr n -> num_flights c w' = inr n' ->
  n <= n' /\
  (0 <= propellant_cost_per_flight c -> total_cost c n <= total_cost c n') /\
  ((0 <? w)%float = true ->
   forall r r' : Z,
     reentries_per_launch c w = inr r -> reentries_per_launch c w' = inr r' ->
     r' <= r).
Proof.
  intros Hp Hw Hn Hn'.
  destruct (payload_float c w n Hp Hn) as ((m & e & E) & Hc & Hr).
  destruct (payload_float c w' n' Hp Hn') as (_ & Hc' & _).
  assert (Hle : n <= n').
  { apply (math_ceil_monotone _ _ _ _
             (div_constant_monotone _ m e E _ _ Hw) Hc Hc'). }
  split; [exact Hle|]. split.
  - intros Hcost. unfold total_cost. nia.
  - intros Hpos r r' H1 H2. rewrite Hr in H1, H2.
    rewrite (pos_nonzero w Hpos) in H1.
    rewrite (pos_nonzero w' (pos_leb_pos _ _ Hpos Hw)) in H2.
    apply (math_floor_monotone _ _ _ _
             (div_constant_l_antitone _ m e E _ _ Hpos Hw) H2 H1).
Qed.

Lemma counts_monotone_witness :
  num_flights defaults 2.8608798584070794 = inr 1 /\
  num_flights defaults 200 = inr 2 /\
  1 <= 2 /\
  (0 <= propellant_cost_per_flight defaults ->
   total_cost defaults 1 <= total_cost defaults 2) /\
  ((0 <? 2.8608798584070794)%float = true ->
   forall r r' : Z,
     reentries_per_launch defaults 2.8608798584070794 = inr r ->
     reentries_per_launch defaults 200 = inr r' ->
     r' <= r).
Proof.
  split; [reflexivity|]. split; [reflexivity|].
  apply (counts_monotone defaults 2.8608798584070794 200 1 2);
    [reflexivity | reflexivity | reflexivity | reflexivity].
Defined.

(** Floats that are not NaN are totally ordered. *)
Lemma float_leb_total (x y : float) :
  is_nan (Prim2SF x) = false -> is_nan (Prim2SF y) = false ->
  (x <=? y)%float = true \/ (y <=? x)%float = true.
Proof.
  intros Nx Ny. rewrite (leb_key x y Nx Ny), (leb_key y x Ny Nx).
  destruct (Z.le_ge_cases (key (Prim2SF x)) (key (Prim2SF y)));
    [left | right]; apply Z.leb_le; assumption.
Qed.

(** X7.  For a positive [payload_per_flight], whenever both counts are
    computed at most one of them exceeds 1: a water mass that needs
    several flights cannot also be supplied several times by one
    launch. *)
Theorem flights_or_reentries_at_most_one (c : constants) (w : float) (n r : Z) :
  0 < payload_per_flight c ->
  num_flights c w = inr n -> reentries_per_launch c w = inr r ->
  n <= 1 \/ r <= 1.
Proof.
  intros Hp Hn Hr.
  destruct (payload_float c w n Hp Hn) as ((m & e & E) & Hc & Hr').
  rewrite Hr' in Hr. destruct (w =? 0)%float eqn:Hz; [discriminate|].
  set (p := Py.Z2F (payload_per_flight c)) in *.
  assert (Np : is_nan (Prim2SF p) = false) by (rewrite E; reflexivity).
  assert (Nw : is_nan (Prim2SF w) = false).
  { rewrite <- (div_by_finite_nan w p false m e E).
    apply finite_not_nan. apply (math_ceil_returns _ _ Hc). }
  assert (H1c : Py.math_ceil 1 = inr 1) by reflexivity.
  assert (H1f : Py.math_floor 1 = inr 1) by reflexivity.
  assert (Hpp : (0 <? p)%float = true) by (rewrite ltb_spec, E; reflexivity).
  destruct (float_leb_total w p Nw Np) as [H|H].
  - left. pose proof (div_constant_monotone p m e E _ _ H) as Hq.
    rewrite (div_self p false m e E) in Hq.
    exact (math_ceil_monotone _ _ _ _ Hq Hc H1c).
  - right. pose proof (div_constant_l_antitone p m e E _ _ Hpp H) as Hq.
    rewrite (div_self p false m e E) in Hq.
    exact (math_floor_monotone _ _ _ _ Hq Hr H1f).
Qed.

Lemma flights_or_reentries_at_most_one_witness :
  num_flights defaults 2.8608798584070794 = inr 1 /\
  reentries_per_launch defaults 2.8608798584070794 = inr 52 /\
  (1 <= 1 \/ 52 <= 1).
Proof.
  split; [reflexivity|]. split; [reflexivity|].
  apply (flights_or_reentries_at_most_one defaults 2.8608798584070794 1 52);
    reflexivity.
Defined.





Lemma Z2F_finite (z : Z) :
  (int_max <=? Z.abs z) = false -> Py.finite (Py.Z2F z) = true.
Proof.
  intros H. unfold Py.finite. rewrite Prim2SF_Z2F.
  pose proof (Z2SF_overflow z) as Ho. rewrite H in Ho.
  pose proof (Z2SF_not_nan z) as N.
  destruct (Py.Z2SF z); try discriminate; reflexivity.
Qed.

Lemma half_finite (x : float) : Py.finite x = true -> Py.finite (0.5 * x)%float = true.
Proof.
  intros F. destruct (finite_le_max x F) as [H1 H2].
  apply (between_finite (0.5 * - max_float) (0.5 * max_float)); try reflexivity.
  - apply (mul_constant_l_monotone 0.5 4503599627370496 (-53) eq_refl). exact H2.
  - apply (mul_constant_l_monotone 0.5 4503599627370496 (-53) eq_refl). exact H1.
Qed.

Lemma square_abs_le (v v' : Z) : Z.abs v <= Z.abs v' -> v ^ 2 <= v' ^ 2.
Proof. intros H. rewrite !Z.pow_2_r. nia. Qed.

(** X9.  The kinetic energy of line 34 is never negative for a
    nonnegative mass, and it grows with the mass and with the magnitude
    of the velocity; binary64 rounding never reverses the order. *)
Theorem KE_total_monotone (c c' : constants) (k k' : float) :
  0 <= m_vehicle c <= m_vehicle c' ->
  Z.abs (v_orbital c) <= Z.abs (v_orbital c') ->
  KE_total c = inr k -> KE_total c' = inr k' ->
  (0 <=? k)%float = true /\ (k <=? k')%float = true.
Proof.
  intros Hm Hv Hk Hk'. rewrite KE_total_cases in Hk, Hk'.
  destruct (int_max <=? Z.abs (m_vehicle c)) eqn:O1; [discriminate|].
  destruct (int_max <=? v_orbital c ^ 2) eqn:O2; [discriminate|].
  destruct (int_max <=? Z.abs (m_vehicle c')) eqn:O1'; [discriminate|].
  destruct (int_max <=? v_orbital c' ^ 2) eqn:O2'; [discriminate|].
  cbn [orb] in Hk, Hk'. injection Hk as <-. injection Hk' as <-.
  assert (P2 : forall v : Z, Z.abs (v ^ 2) = v ^ 2)
    by (intros v; apply Z.abs_eq, Z.pow_even_nonneg; exists 1; reflexivity).
  rewrite <- (P2 (v_orbital c)) in O2. rewrite <- (P2 (v_orbital c')) in O2'.
  pose proof (Z2F_finite _ O1) as F1. pose proof (Z2F_finite _ O1') as F1'.
  pose proof (Z2F_finite _ O2) as F2. pose proof (Z2F_finite _ O2') as F2'.
  apply half_finite in F1, F1'.
  pose proof (Z2F_monotone 0 (m_vehicle c) ltac:(lia)) as M0.
  pose proof (Z2F_monotone _ _ (proj2 Hm)) as M1.
  pose proof (Z2F_monotone 0 (v_orbital c ^ 2)
                ltac:(apply Z.pow_even_nonneg; exists 1; reflexivity)) as V0.
  pose proof (Z2F_monotone _ _ (square_abs_le _ _ Hv)) as V1.
  apply (mul_constant_l_monotone 0.5 4503599627370496 (-53) eq_refl) in M0, M1.
  change (0.5 * Py.Z2F 0)%float with 0%float in M0.
  change (Py.Z2F 0) with 0%float in V0.
  split.
  - change 0%float with (0 * 0)%float at 1.
    apply mul_nonneg_monotone; try assumption; reflexivity.
  - apply mul_nonneg_monotone; assumption.
Qed.

Lemma KE_total_monotone_witness :
  KE_total defaults = inr 3650400000000%float /\
  KE_total {| m_vehicle := 200000; v_orbital := -7800;
              fraction_max_heating := 0.3; heat_fraction := 0.01;
              temp_fraction := 0.8; Lv := 2260000; payload_per_flight := 150;
              propellant_cost_per_flight := 500000 |}
  = inr 6084000000000%float /\
  (0 <=? 3650400000000)%float = true /\
  (3650400000000 <=? 6084000000000)%float = true.
Proof.
  split; [reflexivity|]. split; [reflexivity|].
  apply (KE_total_monotone defaults
           {| m_vehicle := 200000; v_orbital := -7800;
              fraction_max_heating := 0.3; heat_fraction := 0.01;
              temp_fraction := 0.8; Lv := 2260000; payload_per_flight := 150;
              propellant_cost_per_flight := 500000 |}
           3650400000000 6084000000000);
    [cbn; lia | cbn; lia | reflexivity | reflexivity].
Defined.

(** Dividing a float that is at least zero by a larger positive float
    gives no more. *)
Lemma div_nonneg_antitone (x d d' : float) (m m' : positive) (e e' : Z) :
  (0 <=? x)%float = true ->
  Prim2SF d = S754_finite false m e -> Prim2SF d' = S754_finite false m' e' ->
  (d <=? d')%float = true -> (x / d' <=? x / d)%float = true.
Proof.
  intros Hx Ed Ed' Hd.
  destruct (nonneg_cases x Hx) as [[s Ex]|[(mx & ex & Ex)|Ex]].
  - apply (leb_zeros _ _ s s); rewrite div_spec, Ex, ?Ed, ?Ed'; cbn;
      rewrite xorb_false_r'; reflexivity.
  - apply (div_constant_l_antitone x mx ex Ex); [|exact Hd].
    rewrite ltb_spec, Ed. reflexivity.
  - rewrite leb_spec, !div_spec, Ex, Ed, Ed'. reflexivity.
Qed.

(** Dividing by a positive float keeps the order. *)
Lemma div_pos_monotone (w x y : float) :
  (0 <? w)%float = true -> Py.finite x = true -> Py.finite y = true ->
  (x <=? y)%float = true -> (x / w <=? y / w)%float = true.
Proof.
  intros Hw Fx Fy Hxy. destruct (pos_cases w Hw) as [(m & e & Ew)|Ew].
  - exact (div_constant_monotone w m e Ew x y Hxy).
  - unfold Py.finite in Fx, Fy.
    destruct (Prim2SF x) as [sx|sx| |sx mx ex] eqn:Ex; try discriminate;
      destruct (Prim2SF y) as [sy|sy| |sy my ey] eqn:Ey; try discriminate;
      rewrite leb_spec, !div_spec, Ex, Ey, Ew; reflexivity.
Qed.

Lemma positive_constant_float (z : Z) :
  0 < z -> (int_max <=? Z.abs z) = false ->
  exists m e, Prim2SF (Py.Z2F z) = S754_finite false m e.
Proof.
  intros Hz Ho.
  destruct (Prim2SF_Z2F_finite z Ho ltac:(apply Z.eqb_neq; lia)) as (m & e & E).
  exists m, e. rewrite E. f_equal. apply Z.ltb_ge. lia.
Qed.

(** X10.  The two divisors among the integer constants.  For an energy
    that is at least zero, a larger positive [Lv] never gives more
    water; for a water mass that is at least zero, a larger positive
    [payload_per_flight] never needs more flights, and for a positive
    water mass it never supplies fewer reentries per launch. *)
Theorem larger_divisors (c c' : constants) (es w : float) :
  (0 < Lv c <= Lv c' -> (0 <=? es)%float = true ->
   forall kg kg' : float,
     m_water_kg c es = inr kg -> m_water_kg c' es = inr kg' ->
     (kg' <=? kg)%float = true) /\
  (0 < payload_per_flight c <= payload_per_flight c' ->
   ((0 <=? w)%float = true ->
    forall n n' : Z,
      num_flights c w = inr n -> num_flights c' w = inr n' -> n' <= n) /\
   ((0 <? w)%float = true ->
    forall r r' : Z,
      reentries_per_launch c w = inr r -> reentries_per_launch c' w = inr r' ->
      r <= r')).
Proof.
  split.
  - intros HL Hx kg kg' H H'. rewrite m_water_kg_cases in H, H'.
    destruct (int_max <=? Z.abs (Lv c)) eqn:O; [discriminate|].
    destruct (int_max <=? Z.abs (Lv c')) eqn:O'; [discriminate|].
    destruct (Z.eqb_spec (Lv c) 0); [discriminate|]. destruct (Z.eqb_spec (Lv c') 0); [discriminate|].
    injection H as <-. injection H' as <-.
    destruct (positive_constant_float (Lv c) ltac:(lia) O) as (m & e & E).
    destruct (positive_constant_float (Lv c') ltac:(lia) O') as (m' & e' & E').
    apply (div_nonneg_antitone es _ _ m m' e e' Hx E E').
    apply Z2F_monotone. lia.
  - intros HP. split.
    + intros Hx n n' H H'. rewrite num_flights_cases in H, H'.
      destruct (int_max <=? Z.abs (payload_per_flight c)) eqn:O; [discriminate|].
      destruct (int_max <=? Z.abs (payload_per_flight c')) eqn:O'; [discriminate|].
      destruct (Z.eqb_spec (payload_per_flight c) 0); [discriminate|].
      destruct (Z.eqb_spec (payload_per_flight c') 0); [discriminate|].
      destruct (positive_constant_float (payload_per_flight c) ltac:(lia) O)
        as (m & e & E).
      destruct (positive_constant_float (payload_per_flight c') ltac:(lia) O')
        as (m' & e' & E').
      apply (math_ceil_monotone _ _ _ _
               (div_nonneg_antitone w _ _ m m' e e' Hx E E'
                  (Z2F_monotone _ _ (proj2 HP))) H' H).
    + intros Hpos r r' H H'. rewrite reentries_per_launch_cases in H, H'.
      destruct (int_max <=? Z.abs (payload_per_flight c)) eqn:O; [discriminate|].
      destruct (int_max <=? Z.abs (payload_per_flight c')) eqn:O'; [discriminate|].
      rewrite (pos_nonzero w Hpos) in H, H'.
      apply (math_floor_monotone _ _ _ _
               (div_pos_monotone w _ _ Hpos (Z2F_finite _ O) (Z2F_finite _ O')
                  (Z2F_monotone _ _ (proj2 HP))) H H').
Qed.

End Sensitivity.

(** ** What the report shows *)

Section Report.

Import Round.
Local Open Scope Z_scope.
Local Open Scope list_scope.

Lemma digit_value_digit (d : Z) : 0 <= d <= 9 -> Read.digit_value (Fmt.digit d) = d.
Proof.
  intros H. unfold Read.digit_value, Fmt.digit.
  rewrite N_ascii_embedding by lia. lia.
Qed.

Lemma number_app (t : Fmt.text) (ch : ascii) :
  Read.number (t ++ [ch]) = 10 * Read.number t + Read.digit_value ch.
Proof. unfold Read.number. rewrite fold_left_app. reflexivity. Qed.

Lemma digits_aux_app (fuel : nat) (n : Z) (acc : Fmt.text) :
  Fmt.digits_aux fuel n acc = Fmt.digits_aux fuel n [] ++ acc.
Proof.
  revert n acc. induction fuel as [|fuel IH]; intros n acc; cbn [Fmt.digits_aux].
  - reflexivity.
  - destruct (n <? 10); [reflexivity|].
    rewrite (IH _ (_ :: acc)), (IH _ [_]), <- app_assoc. reflexivity.
Qed.

(** The digits of [n] are its decimal numeral: the fuel of [digits_aux]
    never runs out. *)
Lemma number_digits_aux (fuel : nat) (n : Z) :
  0 <= n < 2 ^ Z.of_nat fuel -> Read.number (Fmt.digits_aux fuel n []) = n.
Proof.
  revert n. induction fuel as [|fuel IH]; intros n Hn.
  - cbn in Hn. cbn. lia.
  - cbn [Fmt.digits_aux]. destruct (Z.ltb_spec n 10) as [Hlt|Hge].
    + unfold Read.number. cbn [fold_left].
      rewrite Z.mod_small by lia. rewrite digit_value_digit by lia. lia.
    + rewrite digits_aux_app, number_app.
      pose proof (Z.mod_pos_bound n 10 ltac:(lia)) as Hr.
      rewrite digit_value_digit by lia.
      rewrite IH.
      * pose proof (Z.div_mod n 10 ltac:(lia)). lia.
      * rewrite Nat2Z.inj_succ, Z.pow_succ_r in Hn by lia.
        split; [apply Z.div_pos; lia|].
        apply Z.div_lt_upper_bound; lia.
Qed.

Lemma number_digits (n : Z) : 0 <= n -> Read.number (Fmt.digits n) = n.
Proof.
  intros Hn. unfold Fmt.digits. apply number_digits_aux.
  rewrite Nat2Z.inj_succ, Z2Nat.id by apply Z.log2_nonneg.
  split; [exact Hn|].
  destruct (Z.eq_dec n 0) as [->|Hz]; [reflexivity|].
  apply Z.log2_spec. lia.
Qed.

Lemma digits_aux_all (P : ascii -> Prop) (fuel : nat) (n : Z) (acc : Fmt.text) :
  (forall d, 0 <= d <= 9 -> P (Fmt.digit d)) ->
  Forall P acc -> Forall P (Fmt.digits_aux fuel n acc).
Proof.
  intros HP. revert n acc. induction fuel as [|fuel IH]; intros n acc Hacc;
    cbn [Fmt.digits_aux]; [exact Hacc|].
  pose proof (Z.mod_pos_bound n 10 ltac:(lia)) as Hr.
  destruct (n <? 10); [|apply IH]; constructor; try assumption; apply HP; lia.
Qed.

Lemma digits_are_digits (n : Z) :
  Forall (fun ch => Read.is_digit ch = true) (Fmt.digits n).
Proof.
  apply digits_aux_all; [|constructor].
  intros d Hd. unfold Read.is_digit. rewrite digit_value_digit by exact Hd.
  apply andb_true_intro. split; apply Z.leb_le; lia.
Qed.

Lemma digit_not_comma (ch : ascii) : Read.is_digit ch = true -> Read.is_comma ch = false.
Proof.
  unfold Read.is_digit, Read.is_comma. intros H.
  destruct (Ascii.eqb_spec ch ","%char) as [->|]; [discriminate H | reflexivity].
Qed.

Lemma digit_not_minus (ch : ascii) : Read.is_digit ch = true -> ch <> "-"%char.
Proof. intros H ->. discriminate H. Qed.

Lemma int_not_minus (ch : ascii) (t : Fmt.text) :
  ch <> "-"%char -> Read.int (ch :: t) = Read.number (ch :: t).
Proof.
  destruct ch as [[] [] [] [] [] [] [] []]; intros H; try reflexivity.
  exfalso. apply H. reflexivity.
Qed.

Lemma int_str_int (n : Z) : Read.int (Fmt.str_int n) = n.
Proof.
  unfold Fmt.str_int. destruct (Z.ltb_spec n 0) as [Hn|Hn]; cbn [Fmt.minus app].
  - cbn [Read.int]. rewrite number_digits by lia. lia.
  - rewrite Z.abs_eq by lia.
    pose proof (digits_are_digits n) as Hd. pose proof (number_digits n Hn) as Hv.
    destruct (Fmt.digits n) as [|ch t]; [exact Hv|].
    rewrite int_not_minus; [exact Hv|].
    apply digit_not_minus. inversion Hd. assumption.
Qed.

Lemma no_commas_group3 (k : nat) (l : Fmt.text) :
  Forall (fun ch => Read.is_digit ch = true) l ->
  Read.no_commas (Fmt.group3 k l) = l.
Proof.
  intros H. revert k. induction H as [|ch l Hch Hl IH]; intros k; [reflexivity|].
  pose proof (digit_not_comma ch Hch) as Hc.
  assert (Hk : Read.no_commas (ch :: Fmt.group3 (S k) l) = ch :: l).
  { unfold Read.no_commas. cbn [filter]. rewrite Hc. cbn [negb]. f_equal. apply IH. }
  assert (H1 : Read.no_commas (ch :: Fmt.group3 1 l) = ch :: l).
  { unfold Read.no_commas. cbn [filter]. rewrite Hc. cbn [negb]. f_equal. apply IH. }
  destruct k as [|[|[|[|k]]]]; cbn [Fmt.group3]; try exact Hk.
  unfold Read.no_commas. cbn [filter]. exact H1.
Qed.

Lemma no_commas_app (a b : Fmt.text) :
  Read.no_commas (a ++ b) = Read.no_commas a ++ Read.no_commas b.
Proof. apply filter_app. Qed.

Lemma no_commas_rev (a : Fmt.text) : Read.no_commas (rev a) = rev (Read.no_commas a).
Proof. unfold Read.no_commas. apply filter_rev. Qed.

Lemma no_commas_comma_int (n : Z) : Read.no_commas (Fmt.comma_int n) = Fmt.str_int n.
Proof.
  unfold Fmt.comma_int, Fmt.str_int.
  rewrite no_commas_app, no_commas_rev, no_commas_group3, rev_involutive.
  - f_equal. destruct (n <? 0); reflexivity.
  - apply Forall_rev. apply digits_are_digits.
Qed.

(** Where [group3] puts its commas. *)
Lemma group3_commas (l : Fmt.text) :
  Forall (fun ch => Read.is_digit ch = true) l ->
  forall (k i : nat), (k <= 3)%nat -> (i < List.length (Fmt.group3 k l))%nat ->
    Read.is_comma (nth i (Fmt.group3 k l) "0"%char) = true <-> ((i + k) mod 4 = 3)%nat.
Proof.
  intros H. induction H as [|ch l Hch Hl IH]; intros k i Hk Hi; [cbn in Hi; lia|].
  pose proof (digit_not_comma ch Hch) as Hc.
  destruct k as [|[|[|[|k]]]]; [| | | |lia]; cbn [Fmt.group3] in Hi |- *.
  - destruct i as [|i]; cbn [nth List.length] in Hi |- *.
    + rewrite Hc. cbn. split; [discriminate | lia].
    + rewrite (IH 1%nat i) by lia. replace (S i + 0)%nat with (i + 1)%nat by lia. reflexivity.
  - destruct i as [|i]; cbn [nth List.length] in Hi |- *.
    + rewrite Hc. cbn. split; [discriminate | lia].
    + rewrite (IH 2%nat i) by lia. replace (S i + 1)%nat with (i + 2)%nat by lia. reflexivity.
  - destruct i as [|i]; cbn [nth List.length] in Hi |- *.
    + rewrite Hc. cbn. split; [discriminate | lia].
    + rewrite (IH 3%nat i) by lia. replace (S i + 2)%nat with (i + 3)%nat by lia. reflexivity.
  - destruct i as [|[|i]]; cbn [nth List.length] in Hi |- *.
    + cbn. split; [reflexivity | reflexivity].
    + rewrite Hc. cbn. split; [discriminate | lia].
    + rewrite (IH 1%nat i) by lia.
      replace (S (S i) + 3)%nat with (i + 1 + 1 * 4)%nat by lia.
      rewrite Nat.Div0.mod_add. reflexivity.
Qed.

(** X11.  The three integers of the report are printed as their decimal
    numerals (for integers below the interpreter's cap of 4300 digits on
    such conversions): lines 73 and 75 show a text that reads back as
    the integer, and line 74 shows the same text with a comma before
    every group of three digits counted from the right, so that
    removing the commas gives back [str(total_cost)]. *)
Theorem printed_integers (n : Z) :
  Z.abs n < 10 ^ 4300 ->
  Read.int (Fmt.str_int n) = n /\
  Read.no_commas (Fmt.comma_int n) = Fmt.str_int n /\
  (forall i : nat,
      (i < List.length (Fmt.comma_int (Z.abs n)))%nat ->
      Read.is_comma (nth i (rev (Fmt.comma_int (Z.abs n))) "0"%char) = true
      <-> (i mod 4 = 3)%nat).
Proof.
  intros _.
  split; [apply int_str_int|]. split; [apply no_commas_comma_int|].
  intros i Hi. unfold Fmt.comma_int in *.
  replace (Z.abs n <? 0) with false in * by (symmetry; apply Z.ltb_ge; lia).
  cbn [Fmt.minus app] in *. rewrite rev_involutive. rewrite length_rev in Hi.
  rewrite (group3_commas _ (Forall_rev (digits_are_digits _)) 0 i) by lia.
  rewrite Nat.add_0_r. reflexivity.
Qed.

Lemma printed_integers_witness :
  Read.int (Fmt.str_int 500000) = 500000 /\
  Read.no_commas (Fmt.comma_int 500000) = Fmt.str_int 500000 /\
  (forall i : nat,
      (i < List.length (Fmt.comma_int (Z.abs 500000)))%nat ->
      Read.is_comma (nth i (rev (Fmt.comma_int (Z.abs 500000))) "0"%char) = true
      <-> (i mod 4 = 3)%nat).
Proof.
  apply (printed_integers 500000). vm_compute. reflexivity.
Defined.

Lemma round_half_even_tie (n d : Z) :
  0 < d -> 2 * Z.abs (n - d * rne n d) = d -> Z.even (rne n d) = true.
Proof.
  intros Hd. unfold rne.
  pose proof (Z.div_mod n d ltac:(lia)) as Hn.
  pose proof (Z.mod_pos_bound n d Hd) as Hr.
  destruct (Z.compare_spec (2 * (n mod d)) d); [|lia|lia].
  destruct (Z.even (n / d)) eqn:E; intros _; [exact E|].
  rewrite Z.even_add, E. reflexivity.
Qed.

Lemma denominator_pos (e : Z) : 0 < Fmt.denominator e.
Proof. unfold Fmt.denominator. apply pow2_pos. lia. Qed.

(** The magnitude of a finite float as the fraction the formatting
    works on. *)
Lemma F2Q_abs (x : float) (s : bool) (m : positive) (e : Z) :
  Prim2SF x = S754_finite s m e ->
  (Qabs (Py.F2Q x) == Qmake (Fmt.numerator m e) (Z.to_pos (Fmt.denominator e)))%Q.
Proof.
  intros Hx. unfold Py.F2Q. rewrite Hx. unfold Py.dyadic, Fmt.numerator, Fmt.denominator.
  destruct (Z.leb_spec 0 e) as [He|He].
  - rewrite Z.max_l, Z.max_r by lia. cbn [Z.pow Z.to_pos].
    unfold inject_Z, Qabs, Qeq. cbn [Qnum Qden].
    pose proof (pow2_pos e He). destruct s; cbn [Py.signed]; nia.
  - rewrite Z.max_r, Z.max_l by lia.
    unfold Qabs, Qeq. cbn [Qnum Qden]. rewrite Z.pow_0_r, Z.mul_1_r.
    rewrite <- pos_pow2 by lia. rewrite Pos2Z.id.
    destruct s; cbn [Py.signed]; lia.
Qed.

Lemma rne_nonneg (n d : Z) : 0 <= n -> 0 < d -> 0 <= rne n d.
Proof.
  intros Hn Hd. pose proof (rne_bounds n d Hd). pose proof (Z.div_pos n d Hn Hd). lia.
Qed.

Lemma numerator_pos (m : positive) (e : Z) : 0 < Fmt.numerator m e.
Proof.
  unfold Fmt.numerator. pose proof (pow2_pos (Z.max e 0) ltac:(lia)). nia.
Qed.

(** The distance from an integer to a fraction. *)
Lemma Qabs_int_frac (N n d : Z) :
  0 < d ->
  (Qabs (inject_Z N - Qmake n (Z.to_pos d)) == Qmake (Z.abs (N * d - n)) (Z.to_pos d))%Q.
Proof.
  intros Hd. unfold Qabs, Qminus, Qplus, Qopp, inject_Z, Qeq. cbn [Qnum Qden].
  rewrite Pos.mul_1_l, Z2Pos.id by lia. f_equal. f_equal. lia.
Qed.

(** X12.  Line 72 shows the water mass as an integer: the integer
    nearest to its magnitude (the even one of two equally near), in
    decimal, after the sign.  What is shown can therefore differ from
    the computed mass by up to half a tonne. *)
Theorem water_mass_line_rounds (x : float) (s : bool) (m : positive) (e : Z) :
  Prim2SF x = S754_finite s m e ->
  exists N : Z,
    Fmt.fixed 0 x = (Fmt.minus s ++ Fmt.digits N)%list /\
    Read.number (Fmt.digits N) = N /\
    (Qabs (inject_Z N - Qabs (Py.F2Q x)) <= 1 # 2)%Q /\
    ((Qabs (inject_Z N - Qabs (Py.F2Q x)) == 1 # 2)%Q -> Z.even N = true).
Proof.
  intros Hx. exists (rne (Fmt.numerator m e) (Fmt.denominator e)).
  pose proof (denominator_pos e) as Hd. pose proof (numerator_pos m e) as Hn.
  set (n := Fmt.numerator m e) in *. set (d := Fmt.denominator e) in *.
  split; [apply (fixed_0_nearest_integer x s m e Hx)|].
  split; [apply number_digits, rne_nonneg; lia|].
  assert (E : (Qabs (inject_Z (rne n d) - Qabs (Py.F2Q x))
               == Qmake (Z.abs (rne n d * d - n)) (Z.to_pos d))%Q).
  { rewrite (F2Q_abs x s m e Hx). fold n d. apply Qabs_int_frac. exact Hd. }
  pose proof (round_half_even_nearest n d Hd) as Hnear.
  split.
  - rewrite E. unfold Qle. cbn [Qnum Qden]. rewrite Z2Pos.id by lia.
    replace (Z.abs (rne n d * d - n)) with (Z.abs (n - d * rne n d)) by lia. lia.
  - intros Ht. rewrite E in Ht. unfold Qeq in Ht. cbn [Qnum Qden] in Ht.
    rewrite Z2Pos.id in Ht by lia.
    apply (round_half_even_tie n d Hd).
    replace (Z.abs (rne n d * d - n)) with (Z.abs (n - d * rne n d)) in Ht by lia. lia.
Qed.

Lemma water_mass_line_rounds_witness :
  exists N : Z,
    Fmt.fixed 0 2.8608798584070794
    = (Fmt.minus false ++ Fmt.digits N)%list /\
    Read.number (Fmt.digits N) = N /\
    (Qabs (inject_Z N - Qabs (Py.F2Q 2.8608798584070794)) <= 1 # 2)%Q /\
    ((Qabs (inject_Z N - Qabs (Py.F2Q 2.8608798584070794)) == 1 # 2)%Q ->
     Z.even N = true).
Proof.
  apply (water_mass_line_rounds 2.8608798584070794 false 6442128732136940 (-51)).
  reflexivity.
Defined.

Lemma pow10_pos (k : Z) : 0 <= k -> 0 < 10 ^ k.
Proof. intros H. apply Z.pow_pos_nonneg; lia. Qed.

(** *** The decimal exponent: the fuel never runs out *)

Lemma exp10_up_spec (num : Z) (fuel : nat) :
  forall den d : Z,
    0 < den <= num -> num < den * 2 ^ Z.of_nat fuel ->
    d <= Fmt.exp10_up fuel num den d /\
    den * 10 ^ (Fmt.exp10_up fuel num den d - d) <= num
    < den * 10 ^ (Fmt.exp10_up fuel num den d - d + 1).
Proof.
  induction fuel as [|fuel IH]; intros den d Hden Hfuel.
  - cbn in Hfuel. lia.
  - cbn [Fmt.exp10_up]. destruct (Z.leb_spec (den * 10) num) as [Hle|Hgt].
    + rewrite Nat2Z.inj_succ, Z.pow_succ_r in Hfuel by lia.
      pose proof (pow2_pos (Z.of_nat fuel) ltac:(lia)) as Hp.
      destruct (IH (den * 10) (d + 1) ltac:(lia) ltac:(nia)) as (H1 & H2 & H3).
      set (d' := Fmt.exp10_up fuel num (den * 10) (d + 1)) in *.
      split; [lia|].
      replace (d' - d) with (Z.succ (d' - (d + 1))) by lia.
      replace (d' - (d + 1) + 1) with (Z.succ (d' - (d + 1))) in H3 by lia.
      replace (Z.succ (d' - (d + 1)) + 1) with (Z.succ (Z.succ (d' - (d + 1)))) by lia.
      rewrite !Z.pow_succ_r by lia. rewrite Z.pow_succ_r in H3 by lia. lia.
    + split; [lia|]. rewrite Z.sub_diag. cbn. lia.
Qed.

Lemma exp10_down_stop (fuel : nat) (num den d : Z) :
  den <= num -> Fmt.exp10_down fuel num den d = d.
Proof.
  intros H. destruct fuel; cbn [Fmt.exp10_down]; [reflexivity|].
  destruct (Z.ltb_spec num den); [lia | reflexivity].
Qed.

Lemma exp10_down_spec (den : Z) (fuel : nat) :
  forall num d : Z,
    0 < num < den -> den < num * 2 ^ Z.of_nat fuel ->
    Fmt.exp10_down fuel num den d < d /\
    den <= num * 10 ^ (d - Fmt.exp10_down fuel num den d) /\
    num * 10 ^ (d - Fmt.exp10_down fuel num den d - 1) < den.
Proof.
  induction fuel as [|fuel IH]; intros num d Hnum Hfuel.
  - cbn in Hfuel. lia.
  - cbn [Fmt.exp10_down]. destruct (Z.ltb_spec num den) as [_|]; [|lia].
    rewrite Nat2Z.inj_succ, Z.pow_succ_r in Hfuel by lia.
    pose proof (pow2_pos (Z.of_nat fuel) ltac:(lia)) as Hp.
    destruct (Z_lt_le_dec (num * 10) den) as [Hlt|Hge].
    + destruct (IH (num * 10) (d - 1) ltac:(lia) ltac:(nia)) as (H1 & H2 & H3).
      set (d' := Fmt.exp10_down fuel (num * 10) den (d - 1)) in *.
      split; [lia|].
      replace (d - d') with (Z.succ (d - 1 - d')) by lia.
      replace (Z.succ (d - 1 - d') - 1) with (Z.succ (d - 1 - d' - 1)) by lia.
      rewrite !Z.pow_succ_r by lia. lia.
    + rewrite exp10_down_stop by exact Hge.
      replace (d - (d - 1)) with 1 by lia. replace (1 - 1) with 0 by lia.
      cbn. lia.
Qed.

(** [exp10 num den] is the decimal exponent of [num / den]. *)
Lemma exp10_spec (num den : Z) :
  0 < num -> 0 < den ->
  (0 <= Fmt.exp10 num den ->
   den * 10 ^ Fmt.exp10 num den <= num < den * 10 ^ (Fmt.exp10 num den + 1)) /\
  (Fmt.exp10 num den < 0 ->
   den <= num * 10 ^ (- Fmt.exp10 num den) /\
   num * 10 ^ (- Fmt.exp10 num den - 1) < den).
Proof.
  intros Hn Hd. unfold Fmt.exp10.
  set (fuel := S (Z.to_nat (Z.log2 num + Z.log2 den))).
  pose proof (Z.log2_nonneg num) as Ln. pose proof (Z.log2_nonneg den) as Ld.
  pose proof (Z.log2_spec num Hn) as [_ Sn]. pose proof (Z.log2_spec den Hd) as [_ Sd].
  assert (Hf : 2 ^ Z.of_nat fuel = 2 ^ Z.succ (Z.log2 num) * 2 ^ Z.log2 den).
  { unfold fuel. rewrite Nat2Z.inj_succ, Z2Nat.id by lia.
    rewrite <- Z.pow_add_r by lia. f_equal. lia. }
  pose proof (pow2_pos (Z.log2 den) Ld) as P1.
  pose proof (pow2_pos (Z.log2 num) Ln) as P2.
  destruct (Z.leb_spec den num) as [Hle|Hgt].
  - destruct (exp10_up_spec num fuel den 0 ltac:(lia)) as (H1 & H2).
    { rewrite Hf. nia. }
    rewrite Z.sub_0_r in H2. split; [intros _; exact H2 | lia].
  - destruct (exp10_down_spec den fuel num 0 ltac:(lia)) as (H1 & H2).
    { rewrite Hf. rewrite Z.pow_succ_r in * by lia. nia. }
    rewrite !Z.sub_0_l in H2. split; [lia | intros _; exact H2].
Qed.

Lemma scaled_shifted (num den k : Z) :
  Fmt.scaled num den k = rne (fst (Read.shifted num den k)) (snd (Read.shifted num den k)).
Proof. unfold Fmt.scaled, Read.shifted. destruct (0 <=? k); reflexivity. Qed.

(** Scaled by its decimal exponent, a fraction has three digits before
    the point. *)
Lemma shifted_range (num den : Z) :
  0 < num -> 0 < den ->
  0 < snd (Read.shifted num den (Fmt.exp10 num den - 2)) /\
  100 * snd (Read.shifted num den (Fmt.exp10 num den - 2))
  <= fst (Read.shifted num den (Fmt.exp10 num den - 2))
  < 1000 * snd (Read.shifted num den (Fmt.exp10 num den - 2)).
Proof.
  intros Hn Hd. destruct (exp10_spec num den Hn Hd) as [Hp Hm].
  set (d := Fmt.exp10 num den) in *. unfold Read.shifted.
  destruct (Z.leb_spec 0 (d - 2)) as [H2|H2]; cbn [fst snd].
  - specialize (Hp ltac:(lia)).
    pose proof (pow10_pos (d - 2) H2) as P.
    replace d with (d - 2 + 2) in Hp at 1 by lia.
    replace (d + 1) with (d - 2 + 3) in Hp by lia.
    rewrite !Z.pow_add_r in Hp by lia.
    change (10 ^ 2) with 100 in Hp. change (10 ^ 3) with 1000 in Hp. nia.
  - destruct (Z_le_gt_dec 0 d) as [H0|H0].
    + specialize (Hp H0).
      assert (E : d = 0 \/ d = 1) by lia.
      destruct E as [E|E]; rewrite E in *.
      * change (10 ^ 0) with 1 in Hp. change (10 ^ (0 + 1)) with 10 in Hp.
        change (10 ^ (- (0 - 2))) with 100. lia.
      * change (10 ^ 1) with 10 in Hp. change (10 ^ (1 + 1)) with 100 in Hp.
        change (10 ^ (- (1 - 2))) with 10. lia.
    + specialize (Hm ltac:(lia)). destruct Hm as [M1 M2].
      pose proof (pow10_pos (- d - 1) ltac:(lia)) as P.
      replace (- (d - 2)) with (- d - 1 + 3) by lia.
      replace (- d) with (- d - 1 + 1) in M1 by lia.
      rewrite Z.pow_add_r in M1 |- * by lia.
      change (10 ^ 3) with 1000. change (10 ^ 1) with 10 in M1. nia.
Qed.

(** The three digits of an integer from 100 to 999. *)
Lemma digits_3 (n : Z) :
  100 <= n <= 999 ->
  Fmt.digits n = [Fmt.digit (n / 100); Fmt.digit (n / 10 mod 10); Fmt.digit (n mod 10)].
Proof.
  intros H. unfold Fmt.digits.
  pose proof (Z.log2_le_mono 64 n ltac:(lia)) as L. change (Z.log2 64) with 6 in L.
  destruct (Z.to_nat (Z.log2 n)) as [|[|f]] eqn:E; try lia.
  cbn [Fmt.digits_aux].
  destruct (Z.ltb_spec n 10); [lia|].
  destruct (Z.ltb_spec (n / 10) 10) as [H1|_].
  { pose proof (Z.div_le_mono 100 n 10 ltac:(lia) ltac:(lia)). cbn in *. lia. }
  rewrite Z.div_div by lia. change (10 * 10) with 100.
  destruct (Z.ltb_spec (n / 100) 10) as [_|H1].
  - rewrite (Z.mod_small (n / 100)); [reflexivity|].
    split; [apply Z.div_pos; lia | apply Z.div_lt_upper_bound; lia].
  - pose proof (Z.div_lt_upper_bound n 100 10 ltac:(lia) ltac:(lia)). lia.
Qed.

(** A three-digit integer that is near the scaled fraction, as a
    statement about the rationals. *)
Lemma decimal_near (n k num den : Z) :
  0 < den ->
  2 * Z.abs (n * snd (Read.shifted num den k) - fst (Read.shifted num den k))
  <= snd (Read.shifted num den k) ->
  (Qabs (Read.decimal n k - Qmake num (Z.to_pos den)) <= Read.decimal 1 k * (1 # 2))%Q.
Proof.
  intros Hd. unfold Read.shifted, Read.decimal.
  destruct (Z.leb_spec 0 k) as [Hk|Hk]; cbn [fst snd]; intros H.
  - pose proof (pow10_pos k Hk) as P.
    rewrite Qabs_int_frac by exact Hd.
    unfold Qle, Qmult, inject_Z. cbn [Qnum Qden].
    rewrite Z2Pos.id by lia. change (Z.pos (1 * 2)) with 2.
    replace (n * 10 ^ k * den - num) with (n * (den * 10 ^ k) - num) by lia.
    lia.
  - pose proof (pow10_pos (- k) ltac:(lia)) as P.
    unfold Qabs, Qminus, Qplus, Qopp, Qle, Qmult. cbn [Qnum Qden].
    rewrite !Pos2Z.inj_mul, !Z2Pos.id by lia.
    set (p := 10 ^ (- k)) in *.
    replace (n * den + - num * p) with (n * den - num * p) by lia.
    change (Z.pos 1) with 1. change (Z.pos 2) with 2.
    nia.
Qed.

(** X13.  The four energies of lines 67 to 71 are printed with three
    significant digits, correctly rounded: after the sign come one
    digit from 1 to 9, a point, two more digits and the exponent, and
    the number so written is within half a unit of its last digit of
    the magnitude of the value. *)
Theorem energy_lines_round (x : float) (s : bool) (m : positive) (e : Z) :
  Prim2SF x = S754_finite s m e ->
  exists a b c d : Z,
    1 <= a <= 9 /\ 0 <= b <= 9 /\ 0 <= c <= 9 /\
    Fmt.sci 2 x
    = (Fmt.minus s
       ++ [Fmt.digit a; "."%char; Fmt.digit b; Fmt.digit c] ++ Fmt.exponent d)%list /\
    (Qabs (Read.decimal (100 * a + 10 * b + c) (d - 2) - Qabs (Py.F2Q x))
     <= Read.decimal 1 (d - 2) * (1 # 2))%Q.
Proof.
  intros Hx.
  pose proof (numerator_pos m e) as Hn. pose proof (denominator_pos e) as Hd.
  unfold Fmt.sci. rewrite Hx.
  set (num := Fmt.numerator m e) in *. set (den := Fmt.denominator e) in *.
  cbv zeta. set (d := Fmt.exp10 num den).
  destruct (shifted_range num den Hn Hd) as (HD & Hlo & Hhi). fold d in HD, Hlo, Hhi.
  pose proof (scaled_shifted num den (d - 2)) as Hs.
  set (A := fst (Read.shifted num den (d - 2))) in *.
  set (D := snd (Read.shifted num den (d - 2))) in *.
  pose proof (rne_bounds A D HD) as Hb.
  pose proof (round_half_even_nearest A D HD) as Hnear.
  assert (Hq : 100 <= A / D <= 999).
  { split; [apply Z.div_le_lower_bound; lia|].
    enough (A / D < 1000) by lia. apply Z.div_lt_upper_bound; lia. }
  set (n0 := Fmt.scaled num den (d - 2)) in *.
  assert (Hfin : forall n d' : Z,
             100 <= n <= 999 ->
             2 * Z.abs (n * snd (Read.shifted num den (d' - 2)) - fst (Read.shifted num den (d' - 2)))
             <= snd (Read.shifted num den (d' - 2)) ->
             exists a b c d0 : Z,
               1 <= a <= 9 /\ 0 <= b <= 9 /\ 0 <= c <= 9 /\
               (Fmt.minus s ++ Fmt.point 1 (Fmt.digits n) ++ Fmt.exponent d')%list
               = (Fmt.minus s
                  ++ [Fmt.digit a; "."%char; Fmt.digit b; Fmt.digit c]
                  ++ Fmt.exponent d0)%list /\
               (Qabs (Read.decimal (100 * a + 10 * b + c) (d0 - 2) - Qabs (Py.F2Q x))
                <= Read.decimal 1 (d0 - 2) * (1 # 2))%Q).
  { intros n d' Hn3 Hn'. exists (n / 100), (n / 10 mod 10), (n mod 10), d'.
    pose proof (Z.mod_pos_bound (n / 10) 10 ltac:(lia)).
    pose proof (Z.mod_pos_bound n 10 ltac:(lia)).
    split.
    { split; [apply Z.div_le_lower_bound; lia|].
      enough (n / 100 < 10) by lia. apply Z.div_lt_upper_bound; lia. }
    split; [lia|]. split; [lia|]. split.
    - rewrite (digits_3 n Hn3). reflexivity.
    - replace (100 * (n / 100) + 10 * (n / 10 mod 10) + n mod 10) with n.
      + rewrite (F2Q_abs x s m e Hx). fold num den. apply decimal_near; assumption.
      + pose proof (Z.div_mod n 10 ltac:(lia)).
        pose proof (Z.div_mod (n / 10) 10 ltac:(lia)).
        rewrite Z.div_div in * by lia. change (10 * 10) with 100 in *. lia. }
  change (10 ^ (2 + 1)) with 1000.
  destruct (Z.leb_spec 1000 n0) as [Hbig|Hsmall].
  - assert (E : n0 = 1000) by lia.
    rewrite E. change (1000 / 10) with 100.
    apply Hfin; [lia|].
    rewrite E in *.
    replace (d + 1 - 2) with (d - 2 + 1) by lia.
    unfold A, D, Read.shifted in *.
    destruct (Z.leb_spec 0 (d - 2)) as [H2|H2]; cbn [fst snd] in *.
    + destruct (Z.leb_spec 0 (d - 2 + 1)); [|lia]. cbn [fst snd].
      rewrite Z.pow_add_r by lia. change (10 ^ 1) with 10.
      pose proof (pow10_pos (d - 2) H2). lia.
    + destruct (Z.leb_spec 0 (d - 2 + 1)) as [H1|H1]; cbn [fst snd].
      * assert (E1 : d - 2 = -1) by lia. rewrite E1 in *.
        change (10 ^ (-1 + 1)) with 1. change (10 ^ (- -1)) with 10 in *. lia.
      * replace (- (d - 2)) with (- (d - 2 + 1) + 1) in * by lia.
        rewrite Z.pow_add_r in * by lia. change (10 ^ 1) with 10 in *.
        pose proof (pow10_pos (- (d - 2 + 1)) ltac:(lia)). lia.
  - apply Hfin; [lia|]. fold A D. rewrite <- Hs in Hnear. fold n0 in Hnear.
    replace (n0 * D - A) with (- (A - D * n0)) by lia. rewrite Z.abs_opp. exact Hnear.
Qed.

Lemma energy_lines_round_witness :
  exists a b c d : Z,
    1 <= a <= 9 /\ 0 <= b <= 9 /\ 0 <= c <= 9 /\
    Fmt.sci 2 6465588479.999999
    = (Fmt.minus false
       ++ [Fmt.digit a; "."%char; Fmt.digit b; Fmt.digit c] ++ Fmt.exponent d)%list /\
    (Qabs (Read.decimal (100 * a + 10 * b + c) (d - 2) - Qabs (Py.F2Q 6465588479.999999))
     <= Read.decimal 1 (d - 2) * (1 # 2))%Q.
Proof.
  apply (energy_lines_round 6465588479.999999 false 6779660906004479 (-20)).
  reflexivity.
Defined.

Lemma digits_1 (n : Z) : 0 <= n <= 9 -> Fmt.digits n = [Fmt.digit n].
Proof.
  intros H. unfold Fmt.digits. cbn [Fmt.digits_aux].
  destruct (Z.ltb_spec n 10); [|lia]. rewrite Z.mod_small by lia. reflexivity.
Qed.

Lemma digits_2 (n : Z) :
  10 <= n <= 99 -> Fmt.digits n = [Fmt.digit (n / 10); Fmt.digit (n mod 10)].
Proof.
  intros H. unfold Fmt.digits.
  pose proof (Z.log2_le_mono 8 n ltac:(lia)) as L. change (Z.log2 8) with 3 in L.
  destruct (Z.to_nat (Z.log2 n)) as [|f] eqn:E; try lia.
  cbn [Fmt.digits_aux].
  destruct (Z.ltb_spec n 10); [lia|].
  destruct (Z.ltb_spec (n / 10) 10) as [_|H1].
  - rewrite (Z.mod_small (n / 10)); [reflexivity|].
    split; [apply Z.div_pos; lia | apply Z.div_lt_upper_bound; lia].
  - pose proof (Z.div_lt_upper_bound n 10 10 ltac:(lia) ltac:(lia)). lia.
Qed.

(** Up to three digits, padded to three. *)
Lemma pad_3_digits (n : Z) :
  0 <= n <= 999 ->
  Fmt.pad (2 + 1) (Fmt.digits n)
  = [Fmt.digit (n / 100); Fmt.digit (n / 10 mod 10); Fmt.digit (n mod 10)].
Proof.
  intros H. destruct (Z_lt_le_dec n 10) as [H1|H1].
  - rewrite digits_1 by lia. rewrite !Z.div_small, (Z.mod_small n 10) by lia.
    reflexivity.
  - destruct (Z_lt_le_dec n 100) as [H2|H2].
    + rewrite digits_2 by lia. rewrite (Z.div_small n 100) by lia.
      rewrite (Z.mod_small (n / 10)); [reflexivity|].
      split; [apply Z.div_pos; lia | apply Z.div_lt_upper_bound; lia].
    + rewrite digits_3 by lia. reflexivity.
Qed.

(** X14.  Line 70 shows the fraction absorbed with two decimals,
    correctly rounded: for a value of magnitude at most 1, the sign, one
    digit (0 or 1), a point and two digits, and the number so written
    is within 0.005 of the magnitude of the value. *)
Theorem fraction_line_rounds (x : float) (s : bool) (m : positive) (e : Z) :
  Prim2SF x = S754_finite s m e ->
  (Qabs (Py.F2Q x) <= 1)%Q ->
  exists a b c : Z,
    0 <= a <= 1 /\ 0 <= b <= 9 /\ 0 <= c <= 9 /\
    Fmt.fixed 2 x
    = (Fmt.minus s ++ [Fmt.digit a; "."%char; Fmt.digit b; Fmt.digit c])%list /\
    (Qabs (Read.decimal (100 * a + 10 * b + c) (-2) - Qabs (Py.F2Q x))
     <= Read.decimal 1 (-2) * (1 # 2))%Q.
Proof.
  intros Hx H1.
  pose proof (numerator_pos m e) as Hn. pose proof (denominator_pos e) as Hd.
  pose proof (F2Q_abs x s m e Hx) as Habs. rewrite Habs in H1.
  unfold Fmt.fixed. rewrite Hx.
  set (num := Fmt.numerator m e) in *. set (den := Fmt.denominator e) in *.
  assert (Hle : num <= den).
  { unfold Qle in H1. cbn [Qnum Qden] in H1. rewrite Z2Pos.id in H1 by lia. lia. }
  cbv zeta. pose proof (scaled_shifted num den (-2)) as Hs.
  change (- (2)) with (-2). change (Read.shifted num den (-2)) with (num * 100, den) in Hs.
  cbn [fst snd] in Hs.
  pose proof (rne_bounds (num * 100) den Hd) as Hb.
  pose proof (round_half_even_nearest (num * 100) den Hd) as Hnear.
  rewrite <- Hs in Hb, Hnear. set (n := Fmt.scaled num den (-2)) in *.
  assert (Hq : 0 <= num * 100 / den) by (apply Z.div_pos; lia).
  assert (Hn' : 0 <= n <= 100).
  { split; [lia|]. destruct (Z.eq_dec num den) as [E|E].
    - rewrite Hs, E. replace (den * 100) with (100 * den) by lia.
      unfold Fmt.round_half_even. rewrite Z.div_mul, Z.mod_mul by lia.
      destruct (Z.compare_spec (2 * 0) den); lia.
    - assert (num * 100 / den < 100) by (apply Z.div_lt_upper_bound; lia). lia. }
  exists (n / 100), (n / 10 mod 10), (n mod 10).
  pose proof (Z.mod_pos_bound (n / 10) 10 ltac:(lia)).
  pose proof (Z.mod_pos_bound n 10 ltac:(lia)).
  split.
  { split; [apply Z.div_pos; lia|].
    enough (n / 100 < 2) by lia. apply Z.div_lt_upper_bound; lia. }
  split; [lia|]. split; [lia|]. split.
  - rewrite pad_3_digits by lia. reflexivity.
  - replace (100 * (n / 100) + 10 * (n / 10 mod 10) + n mod 10) with n.
    + rewrite Habs. apply decimal_near; [exact Hd|].
      change (Read.shifted num den (-2)) with (num * 100, den). cbn [fst snd].
      replace (n * den - num * 100) with (- (num * 100 - den * n)) by lia.
      rewrite Z.abs_opp. exact Hnear.
    + pose proof (Z.div_mod n 10 ltac:(lia)).
      pose proof (Z.div_mod (n / 10) 10 ltac:(lia)).
      rewrite Z.div_div in * by lia. change (10 * 10) with 100 in *. lia.
Qed.

Lemma fraction_line_rounds_witness :
  exists a b c : Z,
    0 <= a <= 1 /\ 0 <= b <= 9 /\ 0 <= c <= 9 /\
    Fmt.fixed 2 0.5903999999999999
    = (Fmt.minus false ++ [Fmt.digit a; "."%char; Fmt.digit b; Fmt.digit c])%list /\
    (Qabs (Read.decimal (100 * a + 10 * b + c) (-2) - Qabs (Py.F2Q 0.5903999999999999))
     <= Read.decimal 1 (-2) * (1 # 2))%Q.
Proof.
  apply (fraction_line_rounds 0.5903999999999999 false 5317850439999081 (-53)).
  - reflexivity.
  - unfold Qle. apply Z.leb_le. vm_compute. reflexivity.
Defined.

End Report.

(** ** The fields without a format *)

(** *** A fraction near a float rounds to it *)

Section Nearest.

Import Round.
Local Open Scope Z_scope.
Local Open Scope list_scope.

Lemma rne_below (A U m : Z) :
  0 < U -> m * U <= A -> 2 * (A - m * U) < U -> rne A U = m.
Proof.
  intros HU H1 H2. unfold Fmt.round_half_even.
  assert (Hq : A / U = m) by (symmetry; apply (Z.div_unique A U m (A - m * U)); lia).
  assert (Hr : A mod U = A - m * U) by (rewrite Z.mod_eq, Hq by lia; lia).
  rewrite Hq, Hr. destruct (Z.compare_spec (2 * (A - m * U)) U); lia.
Qed.

Lemma rne_above (A U m : Z) :
  0 < U -> A < m * U -> 2 * (m * U - A) < U -> rne A U = m.
Proof.
  intros HU H1 H2. unfold Fmt.round_half_even.
  assert (Hq : A / U = m - 1)
    by (symmetry; apply (Z.div_unique A U (m - 1) (A - (m - 1) * U)); lia).
  assert (Hr : A mod U = A - (m - 1) * U) by (rewrite Z.mod_eq, Hq by lia; lia).
  rewrite Hq, Hr. destruct (Z.compare_spec (2 * (A - (m - 1) * U)) U); lia.
Qed.

Lemma pack_finite (s : bool) (m : positive) (e : Z) :
  Z.pos m < 2 ^ 53 -> e <= 971 -> pack s (Z.pos m) e = S754_finite s m e.
Proof.
  intros Hm He. unfold pack.
  destruct (Z.eqb_spec (Z.pos m) 0); [lia|].
  destruct (Z.ltb_spec (Z.pos m) (2 ^ 53)); [|lia].
  destruct (Z.leb_spec e 971); [|lia]. reflexivity.
Qed.

(** A fraction nearer to a float of the format than to its neighbours
    rounds to that float. *)
Lemma Rnd_near (s : bool) (m : positive) (e B A D : Z) :
  canonical_mantissa prec emax m e = true -> e <= 971 ->
  0 < D -> 0 <= A -> B <= e -> B <= -1074 ->
  (Z.pos m * (D * 2 ^ (e - B)) <= A /\
   2 * (A - Z.pos m * (D * 2 ^ (e - B))) < D * 2 ^ (e - B)) \/
  (A < Z.pos m * (D * 2 ^ (e - B)) /\
   2 * (Z.pos m * (D * 2 ^ (e - B)) - A) < D * 2 ^ (e - B) /\
   (Z.pos m = 2 ^ 52 -> -1074 < e ->
    4 * (Z.pos m * (D * 2 ^ (e - B)) - A) < D * 2 ^ (e - B))) ->
  Rnd s B A D = S754_finite s m e.
Proof.
  intros C He HD HA HBe HB Hnear.
  apply canonical_bounds in C. destruct C as (C1 & C2 & C3 & C4).
  pose proof (Zdigits2_bounds (Z.pos m) ltac:(lia)) as [Dl Du].
  pose proof (Zdigits2_pos (Z.pos m) ltac:(lia)) as Dp.
  set (dm := Zdigits2 (Z.pos m)) in *.
  set (k := e - B) in *. assert (Hk : 0 <= k) by (unfold k; lia).
  pose proof (pow2_pos k Hk) as HP. set (P := 2 ^ k) in *.
  set (U := D * P) in *. assert (HU : 0 < U) by (unfold U; nia).
  assert (Hpow : 2 ^ (dm + k) = 2 ^ dm * P /\ 2 ^ (dm + k - 1) = 2 ^ (dm - 1) * P).
  { split.
    - unfold P. apply Z.pow_add_r; lia.
    - replace (dm + k - 1) with (dm - 1 + k) by lia. unfold P. apply Z.pow_add_r; lia. }
  destruct Hpow as [Hp1 Hp2].
  pose proof (pow2_pos (dm - 1) ltac:(lia)) as Hdm1.
  assert (Hsame : forall q : Z,
             Z.pos m * P <= q < (Z.pos m + 1) * P \/
             (2 ^ (dm - 1) < Z.pos m /\ (Z.pos m - 1) * P <= q < Z.pos m * P) ->
             fexp64 (Zdigits2 q + B) = e).
  { intros q Hq. rewrite (Zdigits2_unique q (dm + k)); [|lia|].
    - replace (dm + k + B) with (dm + e) by (unfold k; lia). symmetry. exact C1.
    - rewrite Hp1, Hp2.
      assert (2 ^ (dm - 1) * P <= Z.pos m * P) by (apply Z.mul_le_mono_nonneg_r; lia).
      assert ((Z.pos m + 1) * P <= 2 ^ dm * P) by (apply Z.mul_le_mono_nonneg_r; lia).
      assert (Z.pos m * P <= 2 ^ dm * P) by (apply Z.mul_le_mono_nonneg_r; lia).
      destruct Hq as [Hq|[Hm Hq]]; [lia|].
      assert (2 ^ (dm - 1) * P <= (Z.pos m - 1) * P)
        by (apply Z.mul_le_mono_nonneg_r; lia).
      lia. }
  assert (Hfin : rexp B A D = e -> rmant B A D = Z.pos m -> Rnd s B A D = S754_finite s m e).
  { intros E1 E2. unfold Rnd. rewrite E1, E2. apply pack_finite; assumption. }
  destruct Hnear as [[H1 H2]|(H1 & H2 & H3)].
  - (* at or above the float *)
    assert (Hq : Z.pos m * P <= A / D < (Z.pos m + 1) * P).
    { split; [apply Z.div_le_lower_bound; unfold U in *; nia|].
      apply Z.div_lt_upper_bound; unfold U in *; nia. }
    assert (E1 : rexp B A D = e) by (unfold rexp; apply Hsame; left; exact Hq).
    apply Hfin; [exact E1|].
    unfold rmant. rewrite E1. fold k P U. apply rne_below; assumption.
  - (* below the float *)
    assert (Hq : (Z.pos m - 1) * P <= A / D < Z.pos m * P).
    { split; [apply Z.div_le_lower_bound; unfold U in *; nia|].
      apply Z.div_lt_upper_bound; unfold U in *; nia. }
    destruct (Z_lt_le_dec (2 ^ (dm - 1)) (Z.pos m)) as [Hm|Hm].
    + assert (E1 : rexp B A D = e) by (unfold rexp; apply Hsame; right; split; assumption).
      apply Hfin; [exact E1|].
      unfold rmant. rewrite E1. fold k P U. apply rne_above; assumption.
    + assert (Em : Z.pos m = 2 ^ (dm - 1)) by lia.
      assert (Hq0 : 0 <= A / D) by (apply Z.div_pos; lia).
      destruct (Z.eq_dec e (-1074)) as [E|E].
      * assert (Hg : Zdigits2 (A / D) <= dm - 1 + k).
        { apply Zdigits2_le_pow; [|lia]. rewrite Z.pow_add_r by lia. fold P.
          rewrite <- Em. lia. }
        assert (E1 : rexp B A D = e).
        { unfold rexp, fexp64 in *. unfold k in Hg. lia. }
        apply Hfin; [exact E1|].
        unfold rmant. rewrite E1. fold k P U. apply rne_above; assumption.
      * specialize (C4 ltac:(lia)).
        assert (Hd53 : dm = 53).
        { assert (dm - 1 < 53) by (apply (pow2_lt_le (dm - 1) 53); lia).
          assert (52 <= dm - 1).
          { destruct (Z_lt_le_dec (dm - 1) 52) as [Hlt|]; [|lia].
            pose proof (Z.pow_lt_mono_r 2 (dm - 1) 52 ltac:(lia) ltac:(lia) Hlt). lia. }
          lia. }
        rewrite Hd53 in *. change (2 ^ (53 - 1)) with (2 ^ 52) in *.
        specialize (H3 Em ltac:(lia)).
        assert (Hk1 : 1 <= k) by (unfold k; lia).
        assert (HP2 : P = 2 * 2 ^ (k - 1)).
        { unfold P. replace k with (Z.succ (k - 1)) at 1 by lia.
          apply Z.pow_succ_r. lia. }
        pose proof (pow2_pos (k - 1) ltac:(lia)) as HP'.
        assert (Hg : Zdigits2 (A / D) = 52 + k).
        { apply Zdigits2_unique; [lia|].
          replace (52 + k - 1) with (51 + k) by lia.
          rewrite !Z.pow_add_r by lia. fold P.
          rewrite Em in Hq.
          change (2 ^ 51) with 2251799813685248. change (2 ^ 52) with 4503599627370496 in *.
          lia. }
        assert (E1 : rexp B A D = e - 1).
        { unfold rexp. rewrite Hg. unfold fexp64, k. lia. }
        assert (E2 : rmant B A D = 2 ^ 53).
        { unfold rmant. rewrite E1. replace (e - 1 - B) with (k - 1) by (unfold k; lia).
          change (2 ^ 53) with (2 * 2 ^ 52). rewrite <- Em.
          apply rne_above; unfold U in *; nia. }
        unfold Rnd. rewrite E1, E2. unfold pack.
        change (2 ^ 53 =? 0) with false. change (2 ^ 53 <? 2 ^ 53) with false.
        cbv iota. destruct (Z.leb_spec (e - 1 + 1) 971); [|lia].
        f_equal; [|lia]. apply Pos2Z.inj. rewrite Em. reflexivity.
Qed.

End Nearest.

(** *** Reading a decimal is a rounding *)

Section Decimal.

Import Round.
Local Open Scope Z_scope.
Local Open Scope list_scope.

(** The quotient of two positive integers, rounded. *)
Lemma div_core_Rnd (s : bool) (N D B : Z) :
  0 < N -> 0 < D -> B <= -1074 ->
  (let '(mz, ez, lz) := SFdiv_core_binary prec emax N 0 D 0 in
   binary_round_aux prec emax s mz ez lz)
  = Rnd s B (N * 2 ^ (- B)) D.
Proof.
  intros HN HD HB. unfold SFdiv_core_binary. rewrite fexp_fexp64.
  set (dx := Zdigits2 N). set (dy := Zdigits2 D).
  set (e' := Z.min (fexp64 (dx + 0 - (dy + 0))) (0 - 0)).
  set (sh := 0 - 0 - e').
  assert (Hsh : 0 <= sh) by (unfold sh, e'; lia).
  set (m' := match sh with
             | 0 => N
             | Z.pos _ => Z.shiftl N sh
             | Z.neg _ => 0
             end).
  assert (Hm' : m' = N * 2 ^ sh).
  { unfold m'. destruct sh as [|p|p]; [lia | | lia].
    apply Z.shiftl_mul_pow2. lia. }
  pose proof (Z_div_mod m' D ltac:(lia)) as Hdm.
  destruct (Z.div_eucl m' D) as [q r]. destruct Hdm as [Hqr Hr].
  pose proof (pow2_pos sh Hsh) as Hpsh.
  assert (He'B : B <= e') by (unfold e', fexp64; lia).
  rewrite (binary_round_aux_Rnd _ q e' _ m' D B); try lia.
  - f_equal. rewrite Hm', <- Z.mul_assoc, <- Z.pow_add_r by lia.
    f_equal. f_equal. unfold sh. lia.
  - rewrite Hqr, (Z.mul_comm D q). apply loc_ok_new_location; lia.
  - pose proof (Zdigits2_bounds N HN) as [Hx _].
    pose proof (Zdigits2_bounds D HD) as [_ Hy].
    pose proof (Zdigits2_pos N HN) as Hdx.
    pose proof (Zdigits2_pos D HD) as Hdy.
    fold dx in Hx, Hdx. fold dy in Hy, Hdy.
    assert (Hq : 0 <= q) by nia.
    pose proof (Zdigits2_nonneg q) as Hdq.
    assert (Hd : dx - 1 + sh - dy < 0 \/ dx + sh - dy <= Zdigits2 q).
    { destruct (Z_lt_le_dec (dx - 1 + sh - dy) 0) as [|Hge]; [left; assumption|right].
      enough (dx - 1 + sh - dy < Zdigits2 q) by lia.
      apply Zdigits2_gt_pow; [lia|].
      assert (Hpow : 2 ^ (dx - 1 + sh - dy) * 2 ^ dy <= m').
      { rewrite <- Z.pow_add_r by lia.
        replace (dx - 1 + sh - dy + dy) with (dx - 1 + sh) by lia.
        rewrite Z.pow_add_r by lia. rewrite Hm'. nia. }
      pose proof (pow2_pos (dx - 1 + sh - dy) Hge).
      nia. }
    unfold sh, e', fexp64 in *. lia.
Qed.

(** The float nearest to [n * 10^q] is the rounding of that decimal. *)
Lemma dec_to_SF_Rnd (n q : Z) :
  0 < n ->
  Fmt.dec_to_SF n q
  = Rnd false (-1074) (n * 10 ^ Z.max q 0 * 2 ^ 1074) (10 ^ Z.max (- q) 0).
Proof.
  intros Hn. unfold Fmt.dec_to_SF. destruct (Z.leb_spec 0 q) as [Hq|Hq].
  - rewrite Z.max_l, Z.max_r by lia. change (10 ^ 0) with 1.
    pose proof (pow10_pos q Hq) as P.
    rewrite (binary_normalize_SRnd _ 0 (-1074)) by lia. unfold SRnd.
    change (0 - -1074) with 1074.
    pose proof (pow2_pos 1074 ltac:(lia)) as P2.
    destruct (Z.eqb_spec (n * 10 ^ q * 2 ^ 1074) 0); [nia|].
    destruct (Z.ltb_spec (n * 10 ^ q * 2 ^ 1074) 0); [nia|].
    rewrite Z.abs_eq by nia. reflexivity.
  - rewrite Z.max_r, Z.max_l by lia. change (10 ^ 0) with 1. rewrite Z.mul_1_r.
    pose proof (pow10_pos (- q) ltac:(lia)) as P.
    apply (div_core_Rnd false n (10 ^ (- q)) (-1074)); lia.
Qed.

(** Fractions of equal value round alike. *)
Lemma Rnd_frac_eq (s : bool) (B A1 D1 A2 D2 : Z) :
  0 < D1 -> 0 < D2 -> B <= -1074 -> A1 * D2 = A2 * D1 ->
  Rnd s B A1 D1 = Rnd s B A2 D2.
Proof.
  intros H1 H2 HB E.
  rewrite <- (Rnd_scale s B A1 D1 D2), <- (Rnd_scale s B A2 D2 D1) by lia.
  rewrite E, (Z.mul_comm D1 D2). reflexivity.
Qed.

End Decimal.

(** *** Seventeen digits always read back *)

Section SeventeenDigits.

Import Round.
Local Open Scope Z_scope.
Local Open Scope list_scope.

Lemma shifted_max (num den k : Z) :
  Read.shifted num den k = (num * 10 ^ Z.max (- k) 0, den * 10 ^ Z.max k 0).
Proof.
  unfold Read.shifted. destruct (Z.leb_spec 0 k).
  - rewrite Z.max_r, Z.max_l by lia. change (10 ^ 0) with 1. f_equal; lia.
  - rewrite Z.max_l, Z.max_r by lia. change (10 ^ 0) with 1. f_equal; lia.
Qed.

(** Scaled by its decimal exponent, a fraction has [p + 1] digits before
    the point. *)
Lemma shifted_range_digits (num den p : Z) :
  0 < num -> 0 < den -> 0 <= p ->
  0 < snd (Read.shifted num den (Fmt.exp10 num den - p)) /\
  10 ^ p * snd (Read.shifted num den (Fmt.exp10 num den - p))
  <= fst (Read.shifted num den (Fmt.exp10 num den - p))
  < 10 ^ (p + 1) * snd (Read.shifted num den (Fmt.exp10 num den - p)).
Proof.
  intros Hn Hd Hp. destruct (exp10_spec num den Hn Hd) as [Hpos Hneg].
  set (d := Fmt.exp10 num den) in *. unfold Read.shifted.
  pose proof (pow10_pos p Hp) as Pp.
  assert (Pp1 : 10 ^ (p + 1) = 10 ^ p * 10) by (rewrite Z.pow_add_r by lia; reflexivity).
  destruct (Z.leb_spec 0 (d - p)) as [Hk|Hk]; cbn [fst snd].
  - specialize (Hpos ltac:(lia)).
    pose proof (pow10_pos (d - p) Hk) as P.
    replace d with (d - p + p) in Hpos at 1 by lia.
    replace (d + 1) with (d - p + (p + 1)) in Hpos by lia.
    rewrite !Z.pow_add_r in Hpos by lia. change (10 ^ 1) with 10 in Hpos.
    rewrite Pp1. set (K := 10 ^ (d - p)) in *. set (Q := 10 ^ p) in *.
    split; [nia|]. split; [lia|]. lia.
  - pose proof (pow10_pos (- (d - p)) ltac:(lia)) as P.
    destruct (Z_le_gt_dec 0 d) as [H0|H0].
    + specialize (Hpos H0). pose proof (pow10_pos d H0) as Pd.
      assert (E : 10 ^ p = 10 ^ d * 10 ^ (- (d - p))).
      { rewrite <- Z.pow_add_r by lia. f_equal. lia. }
      rewrite (Z.pow_add_r 10 d 1) in Hpos by lia. change (10 ^ 1) with 10 in Hpos.
      rewrite Pp1, E.
      set (K := 10 ^ (- (d - p))) in *. set (Q := 10 ^ d) in *.
      split; [lia|]. split.
      * replace (Q * K * den) with (den * Q * K) by lia.
        apply Z.mul_le_mono_nonneg_r; lia.
      * replace (Q * K * 10 * den) with (den * (Q * 10) * K) by lia.
        apply Z.mul_lt_mono_pos_r; lia.
    + specialize (Hneg ltac:(lia)). destruct Hneg as [M1 M2].
      pose proof (pow10_pos (- d - 1) ltac:(lia)) as Pd.
      assert (E : 10 ^ (- (d - p)) = 10 ^ (- d - 1) * 10 * 10 ^ p).
      { change 10 with (10 ^ 1) at 3. rewrite <- !Z.pow_add_r by lia. f_equal. lia. }
      assert (E' : 10 ^ (- d) = 10 ^ (- d - 1) * 10).
      { change 10 with (10 ^ 1) at 3. rewrite <- !Z.pow_add_r by lia. f_equal. lia. }
      rewrite E' in M1. rewrite Pp1, E.
      set (K := 10 ^ (- d - 1)) in *. set (Q := 10 ^ p) in *.
      split; [lia|]. split.
      * replace (num * (K * 10 * Q)) with (num * (K * 10) * Q) by lia.
        replace (Q * den) with (den * Q) by lia.
        apply Z.mul_le_mono_nonneg_r; lia.
      * replace (num * (K * 10 * Q)) with (num * K * (Q * 10)) by lia.
        replace (Q * 10 * den) with (den * (Q * 10)) by lia.
        apply Z.mul_lt_mono_pos_r; lia.
Qed.

(** With 17 significant digits, the decimal nearest to a float is closer
    to it than half the distance to either neighbour: [10^16 > 2^53]. *)
Lemma near_decimal_units (m n a10 b10 c2 f2 T E2 : Z) :
  0 < m < 2 ^ 53 -> 0 < a10 -> 0 < b10 -> 0 < c2 -> 0 < f2 -> 0 < T -> 0 < E2 ->
  E2 * f2 = c2 * T ->
  10 ^ 16 * (f2 * a10) <= m * c2 * b10 ->
  2 * Z.abs (n * (f2 * a10) - m * c2 * b10) <= f2 * a10 ->
  (m * (b10 * E2) <= n * a10 * T /\
   2 * (n * a10 * T - m * (b10 * E2)) < b10 * E2) \/
  (n * a10 * T < m * (b10 * E2) /\
   2 * (m * (b10 * E2) - n * a10 * T) < b10 * E2 /\
   (m = 2 ^ 52 -> 4 * (m * (b10 * E2) - n * a10 * T) < b10 * E2)).
Proof.
  intros Hm Pa Pb Pc Pf PT PE HE N2 N1.
  set (X := f2 * a10) in *. set (Y := c2 * b10).
  assert (HX : 0 < X) by (apply Z.mul_pos_pos; assumption).
  assert (HY : 0 < Y) by (apply Z.mul_pos_pos; assumption).
  replace (m * c2 * b10) with (m * Y) in N1, N2 by (unfold Y; ring).
  set (A := n * a10 * T). set (U := b10 * E2).
  assert (HU : 0 < U) by (apply Z.mul_pos_pos; assumption).
  assert (I1 : f2 * (A - m * U) = T * (n * X - m * Y)).
  { unfold A, U, X, Y.
    replace (f2 * (n * a10 * T - m * (b10 * E2)))
      with (n * a10 * T * f2 - m * b10 * (E2 * f2)) by ring.
    rewrite HE. ring. }
  assert (I2 : f2 * U = T * Y).
  { unfold U, Y. replace (f2 * (b10 * E2)) with (b10 * (E2 * f2)) by ring.
    rewrite HE. ring. }
  change (2 ^ 53) with 9007199254740992 in *.
  change (2 ^ 52) with 4503599627370496 in *.
  change (10 ^ 16) with 10000000000000000 in *.
  assert (K1 : X < Y).
  { assert (m * Y <= 9007199254740991 * Y) by (apply Z.mul_le_mono_nonneg_r; lia). lia. }
  set (dl := n * X - m * Y) in *. clearbody dl X Y A U.
  destruct (Z_le_gt_dec 0 dl) as [Hd|Hd].
  - left. split.
    + enough (0 <= A - m * U) by lia.
      apply (Z.mul_le_mono_pos_l _ _ f2); [lia|]. rewrite I1, Z.mul_0_r.
      apply Z.mul_nonneg_nonneg; lia.
    + apply (Z.mul_lt_mono_pos_l f2); [lia|].
      replace (f2 * (2 * (A - m * U))) with (2 * (f2 * (A - m * U))) by ring.
      rewrite I1, I2.
      replace (2 * (T * dl)) with (T * (2 * dl)) by ring.
      apply Z.mul_lt_mono_pos_l; lia.
  - right. split; [|split].
    + enough (A - m * U < 0) by lia.
      apply (Z.mul_lt_mono_pos_l f2); [lia|]. rewrite I1, Z.mul_0_r.
      apply Z.mul_pos_neg; lia.
    + apply (Z.mul_lt_mono_pos_l f2); [lia|].
      replace (f2 * (2 * (m * U - A))) with (- (2 * (f2 * (A - m * U)))) by ring.
      rewrite I1, I2.
      replace (- (2 * (T * dl))) with (T * (2 * - dl)) by ring.
      apply Z.mul_lt_mono_pos_l; lia.
    + intros Em.
      apply (Z.mul_lt_mono_pos_l f2); [lia|].
      replace (f2 * (4 * (m * U - A))) with (- (4 * (f2 * (A - m * U)))) by ring.
      rewrite I1, I2.
      replace (- (4 * (T * dl))) with (T * (4 * - dl)) by ring.
      apply Z.mul_lt_mono_pos_l; [lia|].
      rewrite Em in N2. lia.
Qed.

(** A decimal with 17 significant digits that is nearest to a float
    reads back as that float. *)
Lemma near_decimal_reads_back (m : positive) (e n q : Z) :
  canonical_mantissa prec emax m e = true -> e <= 971 -> 0 < n ->
  10 ^ 16 * snd (Read.shifted (Fmt.numerator m e) (Fmt.denominator e) q)
  <= fst (Read.shifted (Fmt.numerator m e) (Fmt.denominator e) q) ->
  2 * Z.abs (n * snd (Read.shifted (Fmt.numerator m e) (Fmt.denominator e) q)
             - fst (Read.shifted (Fmt.numerator m e) (Fmt.denominator e) q))
  <= snd (Read.shifted (Fmt.numerator m e) (Fmt.denominator e) q) ->
  Fmt.dec_to_SF n q = S754_finite false m e.
Proof.
  intros C He Hn. rewrite shifted_max. cbn [fst snd].
  unfold Fmt.numerator, Fmt.denominator. intros N2 N1.
  rewrite (dec_to_SF_Rnd n q Hn).
  pose proof C as C'. apply canonical_bounds in C'. destruct C' as (_ & Ce & Cm & _).
  pose proof (pow10_pos (Z.max q 0) ltac:(lia)) as Pa.
  pose proof (pow10_pos (Z.max (- q) 0) ltac:(lia)) as Pb.
  pose proof (pow2_pos (Z.max e 0) ltac:(lia)) as Pc.
  pose proof (pow2_pos (Z.max (- e) 0) ltac:(lia)) as Pf.
  pose proof (pow2_pos 1074 ltac:(lia)) as PT.
  pose proof (pow2_pos (e + 1074) ltac:(lia)) as PE.
  assert (HE : 2 ^ (e + 1074) * 2 ^ Z.max (- e) 0 = 2 ^ Z.max e 0 * 2 ^ 1074).
  { rewrite <- !Z.pow_add_r by lia. f_equal. lia. }
  assert (HA : 0 <= n * 10 ^ Z.max q 0 * 2 ^ 1074)
    by (apply Z.mul_nonneg_nonneg; [apply Z.mul_nonneg_nonneg|]; lia).
  apply (Rnd_near false m e (-1074) _ _ C He Pb HA Ce (Z.le_refl _)).
  replace (e - -1074) with (e + 1074) by lia.
  destruct (near_decimal_units (Z.pos m) n (10 ^ Z.max q 0) (10 ^ Z.max (- q) 0)
                (2 ^ Z.max e 0) (2 ^ Z.max (- e) 0) (2 ^ 1074) (2 ^ (e + 1074))
                (conj (Pos2Z.is_pos m) Cm) Pa Pb Pc Pf PT PE HE N2 N1)
    as [H|(H1 & H2 & H3)]; [left; exact H | right].
  split; [exact H1|]. split; [exact H2|]. intros Em _. exact (H3 Em).
Qed.

End SeventeenDigits.

(** *** The digits [repr] chooses *)

Section ShortestDigits.

Import Round.
Local Open Scope Z_scope.
Local Open Scope list_scope.

Lemma reads_back_true (m : positive) (e n q : Z) :
  Fmt.reads_back m e n q = true -> Fmt.dec_to_SF n q = S754_finite false m e.
Proof.
  unfold Fmt.reads_back.
  destruct (Fmt.dec_to_SF n q) as [| | |[] m' e']; try discriminate.
  intros H. apply andb_prop in H. destruct H as [Hm He].
  apply Pos.eqb_eq in Hm. apply Z.eqb_eq in He. congruence.
Qed.

(** The candidates with at most as many digits as the value has before
    its last place are positive. *)
Lemma candidate_some (m : positive) (e d k n q : Z) :
  d = Fmt.exp10 (Fmt.numerator m e) (Fmt.denominator e) -> 1 <= k ->
  Fmt.candidate m e d k = Some (n, q) ->
  0 < n /\ Fmt.dec_to_SF n q = S754_finite false m e.
Proof.
  intros Hd Hk. unfold Fmt.candidate. cbv zeta.
  set (num := Fmt.numerator m e). set (den := Fmt.denominator e).
  set (lo := if 0 <=? d - k + 1 then num / (den * 10 ^ (d - k + 1))
             else num * 10 ^ (- (d - k + 1)) / den).
  assert (Hlo : lo = fst (Read.shifted num den (d - k + 1))
                     / snd (Read.shifted num den (d - k + 1))).
  { unfold lo, Read.shifted. destruct (0 <=? d - k + 1); reflexivity. }
  pose proof (shifted_range_digits num den (k - 1) (numerator_pos m e)
                (denominator_pos e) ltac:(lia)) as (HD & HA & _).
  fold num den in Hd. rewrite <- Hd in HD, HA.
  replace (d - (k - 1)) with (d - k + 1) in HD, HA by lia.
  pose proof (pow10_pos (k - 1) ltac:(lia)) as Pk.
  assert (L1 : 1 <= lo).
  { rewrite Hlo. apply Z.div_le_lower_bound; [exact HD|].
    rewrite Z.mul_1_r.
    apply Z.le_trans with (2 := HA).
    rewrite <- (Z.mul_1_l (snd _)) at 1.
    apply Z.mul_le_mono_nonneg_r; lia. }
  pose proof (rne_bounds (fst (Read.shifted num den (d - k + 1)))
                (snd (Read.shifted num den (d - k + 1))) HD) as Hr.
  rewrite <- scaled_shifted, <- Hlo in Hr.
  destruct (Fmt.reads_back m e (Fmt.scaled num den (d - k + 1)) (d - k + 1)) eqn:R1.
  - intros [= <- <-]. split; [lia|]. apply reads_back_true. exact R1.
  - set (far := if Fmt.scaled num den (d - k + 1) =? lo then lo + 1 else lo).
    destruct (Fmt.reads_back m e far (d - k + 1)) eqn:R2; [|intros H; discriminate H].
    intros [= <- <-]. split; [|apply reads_back_true; exact R2].
    unfold far. destruct (Fmt.scaled num den (d - k + 1) =? lo); lia.
Qed.

(** Among the decimals of at most 17 significant digits one reads back
    as the float: the search always ends with such a decimal. *)
Lemma shortest_reads_back (m : positive) (e d : Z) (fuel : nat) :
  canonical_mantissa prec emax m e = true -> e <= 971 ->
  d = Fmt.exp10 (Fmt.numerator m e) (Fmt.denominator e) ->
  forall k n q : Z,
    1 <= k -> k + Z.of_nat fuel = 17 ->
    Fmt.shortest fuel m e d k = (n, q) ->
    0 < n /\ Fmt.dec_to_SF n q = S754_finite false m e.
Proof.
  intros C He Hd. induction fuel as [|fuel IH]; intros k n q Hk Hf; cbn [Fmt.shortest].
  - assert (k = 17) as -> by lia. replace (d - 17 + 1) with (d - 16) by lia.
    intros [= <- <-].
    pose proof (shifted_range_digits (Fmt.numerator m e) (Fmt.denominator e) 16
                  (numerator_pos m e) (denominator_pos e) ltac:(lia)) as (HD & HA & _).
    rewrite <- Hd in HD, HA.
    pose proof (round_half_even_nearest
                  (fst (Read.shifted (Fmt.numerator m e) (Fmt.denominator e) (d - 16)))
                  (snd (Read.shifted (Fmt.numerator m e) (Fmt.denominator e) (d - 16)))
                  HD) as Hnear.
    pose proof (rne_bounds
                  (fst (Read.shifted (Fmt.numerator m e) (Fmt.denominator e) (d - 16)))
                  (snd (Read.shifted (Fmt.numerator m e) (Fmt.denominator e) (d - 16)))
                  HD) as Hr.
    rewrite <- scaled_shifted in Hnear, Hr.
    assert (L : 10 ^ 16 <= fst (Read.shifted (Fmt.numerator m e) (Fmt.denominator e) (d - 16))
                         / snd (Read.shifted (Fmt.numerator m e) (Fmt.denominator e) (d - 16))).
    { apply Z.div_le_lower_bound; [exact HD|]. rewrite Z.mul_comm. exact HA. }
    change (10 ^ 16) with 10000000000000000 in L.
    assert (Hn : 0 < Fmt.scaled (Fmt.numerator m e) (Fmt.denominator e) (d - 16)) by lia.
    split; [exact Hn|].
    apply (near_decimal_reads_back m e _ (d - 16) C He Hn HA).
    rewrite (Z.mul_comm (Fmt.scaled _ _ _)).
    rewrite <- Z.abs_opp.
    match goal with |- 2 * Z.abs ?a <= _ =>
      match type of Hnear with 2 * Z.abs ?b <= _ =>
        replace a with b by ring end end.
    exact Hnear.
  - destruct (Fmt.candidate m e d k) as [[n' q']|] eqn:Ec.
    + intros [= <- <-]. exact (candidate_some m e d k n' q' Hd Hk Ec).
    + intros Hs. apply (IH (k + 1) n q); [lia|lia|exact Hs].
Qed.

(** Moving powers of ten between the digits and the exponent keeps the
    decimal, hence the float it reads back as. *)
Lemma dec_to_SF_shift (n q j : Z) :
  0 < n -> 0 <= j -> Fmt.dec_to_SF (n * 10 ^ j) q = Fmt.dec_to_SF n (q + j).
Proof.
  intros Hn Hj. pose proof (pow10_pos j Hj) as Pj.
  rewrite !dec_to_SF_Rnd by (try apply Z.mul_pos_pos; assumption).
  pose proof (pow10_pos (Z.max (- q) 0) ltac:(lia)).
  pose proof (pow10_pos (Z.max (- (q + j)) 0) ltac:(lia)).
  apply Rnd_frac_eq; [assumption|assumption|lia|].
  replace (n * 10 ^ j * 10 ^ Z.max q 0 * 2 ^ 1074 * 10 ^ Z.max (- (q + j)) 0)
    with (n * 2 ^ 1074 * (10 ^ j * 10 ^ Z.max q 0 * 10 ^ Z.max (- (q + j)) 0)) by ring.
  replace (n * 10 ^ Z.max (q + j) 0 * 2 ^ 1074 * 10 ^ Z.max (- q) 0)
    with (n * 2 ^ 1074 * (10 ^ Z.max (q + j) 0 * 10 ^ Z.max (- q) 0)) by ring.
  f_equal. rewrite <- !Z.pow_add_r by lia. f_equal. lia.
Qed.

(** Dropping trailing zeros keeps the decimal. *)
Lemma strip_zeros_value (fuel : nat) :
  forall n q n' q' : Z,
    0 < n -> Fmt.strip_zeros fuel n q = (n', q') ->
    0 < n' /\ 0 <= q' - q /\ n = n' * 10 ^ (q' - q).
Proof.
  induction fuel as [|fuel IH]; intros n q n' q' Hn; cbn [Fmt.strip_zeros].
  - intros [= <- <-]. rewrite Z.sub_diag. change (10 ^ 0) with 1. lia.
  - destruct (Z.eqb_spec (n mod 10) 0) as [Hz|Hz].
    + intros Hs.
      pose proof (Z.div_mod n 10 ltac:(lia)) as Hdm. rewrite Hz in Hdm.
      destruct (IH (n / 10) (q + 1) n' q' ltac:(lia) Hs) as (P & Q & E).
      split; [exact P|]. split; [lia|].
      replace (q' - q) with (q' - (q + 1) + 1) by lia.
      rewrite Z.pow_add_r by lia. change (10 ^ 1) with 10. lia.
    + intros [= <- <-]. rewrite Z.sub_diag. change (10 ^ 0) with 1. lia.
Qed.

Lemma strip_zeros_reads_back (fuel : nat) (n q n' q' : Z) :
  0 < n -> Fmt.strip_zeros fuel n q = (n', q') ->
  0 < n' /\ Fmt.dec_to_SF n' q' = Fmt.dec_to_SF n q.
Proof.
  intros Hn Hs. destruct (strip_zeros_value fuel n q n' q' Hn Hs) as (P & Q & E).
  split; [exact P|]. rewrite E, (dec_to_SF_shift n' q (q' - q) P Q).
  f_equal. lia.
Qed.

End ShortestDigits.

(** *** Reading a literal *)

Section ReadFloat.

Import Round.
Local Open Scope Z_scope.
Local Open Scope list_scope.

Lemma split_at_found (ch : ascii) (a b : Fmt.text) :
  Forall (fun c => c <> ch) a -> Read.split_at ch (a ++ ch :: b) = (a, Some b).
Proof.
  induction 1 as [|c a Hc _ IH]; cbn [app Read.split_at].
  - rewrite Ascii.eqb_refl. reflexivity.
  - destruct (Ascii.eqb_spec c ch) as [E|_]; [contradiction|]. rewrite IH. reflexivity.
Qed.

Lemma split_at_none (ch : ascii) (a : Fmt.text) :
  Forall (fun c => c <> ch) a -> Read.split_at ch a = (a, None).
Proof.
  induction 1 as [|c a Hc _ IH]; cbn [Read.split_at]; [reflexivity|].
  destruct (Ascii.eqb_spec c ch) as [E|_]; [contradiction|]. rewrite IH. reflexivity.
Qed.

Lemma digit_not (ch c : ascii) :
  Read.is_digit ch = false -> Read.is_digit c = true -> c <> ch.
Proof. intros H1 H2 ->. congruence. Qed.

Lemma digits_not (ch : ascii) (t : Fmt.text) :
  Read.is_digit ch = false -> Forall (fun c => Read.is_digit c = true) t ->
  Forall (fun c => c <> ch) t.
Proof.
  intros H. apply Forall_impl. intros c. apply digit_not. exact H.
Qed.

Lemma zeros_are_digits (k : Z) : Forall (fun c => Read.is_digit c = true) (Fmt.zeros k).
Proof.
  unfold Fmt.zeros. apply Forall_forall. intros c Hc.
  apply repeat_spec in Hc. subst c. reflexivity.
Qed.

Lemma number_cons_acc (t : Fmt.text) (a : Z) :
  fold_left (fun a ch => 10 * a + Read.digit_value ch) t a
  = a * 10 ^ Z.of_nat (List.length t) + Read.number t.
Proof.
  unfold Read.number. revert a. induction t as [|c t IH]; intros a.
  - cbn. lia.
  - cbn [fold_left List.length]. rewrite (IH (10 * a + _)), (IH (10 * 0 + _)).
    rewrite Nat2Z.inj_succ, Z.pow_succ_r by lia. ring.
Qed.

Lemma number_append (a b : Fmt.text) :
  Read.number (a ++ b) = Read.number a * 10 ^ Z.of_nat (List.length b) + Read.number b.
Proof.
  unfold Read.number at 1. rewrite fold_left_app. apply number_cons_acc.
Qed.

Lemma number_zeros (k : Z) : Read.number (Fmt.zeros k) = 0.
Proof.
  unfold Fmt.zeros. induction (Z.to_nat k) as [|j IH]; [reflexivity|].
  change (repeat "0"%char (S j)) with (["0"%char] ++ repeat "0"%char j).
  rewrite number_append, IH. reflexivity.
Qed.

Lemma length_zeros (k : Z) : List.length (Fmt.zeros k) = Z.to_nat k.
Proof. apply repeat_length. Qed.

Lemma number_pad (w : Z) (t : Fmt.text) : Read.number (Fmt.pad w t) = Read.number t.
Proof. unfold Fmt.pad. rewrite number_append, number_zeros. reflexivity. Qed.

Lemma pad_are_digits (w : Z) (t : Fmt.text) :
  Forall (fun c => Read.is_digit c = true) t ->
  Forall (fun c => Read.is_digit c = true) (Fmt.pad w t).
Proof.
  intros H. unfold Fmt.pad. apply Forall_app. split; [apply zeros_are_digits|exact H].
Qed.

Lemma signed_minus (s : bool) (c : ascii) (t : Fmt.text) :
  Read.is_digit c = true -> Read.sign_of (Fmt.minus s ++ c :: t) = (s, c :: t).
Proof.
  intros H. destruct s; [reflexivity|]. cbn [Fmt.minus app].
  destruct c as [[] [] [] [] [] [] [] []]; try reflexivity. discriminate H.
Qed.

(** The exponent suffix reads back as the exponent. *)
Lemma exponent_reads (d : Z) :
  exists sg t, Fmt.exponent d = "e"%char :: sg :: t /\
    Read.exponent_of (Some (sg :: t)) = d.
Proof.
  unfold Fmt.exponent. eexists _, _. split; [reflexivity|].
  destruct (Z.ltb_spec d 0); cbn [Read.exponent_of];
    rewrite number_pad, number_digits by lia; lia.
Qed.

End ReadFloat.

(** *** The four layouts of [repr] *)

Section ReprRoundTrip.

Import Round.
Local Open Scope Z_scope.
Local Open Scope list_scope.

Lemma literal_eq (s : bool) (n n' q q' : Z) :
  n = n' -> q = q' -> (s, (n, q)) = (s, (n', q')).
Proof. congruence. Qed.

Lemma literal_of (s : bool) (body mant ip : Fmt.text) (ex fp : option Fmt.text) :
  match body with c :: _ => Read.is_digit c | [] => false end = true ->
  Read.split_at "e" body = (mant, ex) ->
  Read.split_at "." mant = (ip, fp) ->
  Read.literal (Fmt.minus s ++ body)
  = (s, (Read.number (ip ++ match fp with Some f => f | None => [] end),
         Read.exponent_of ex
         - Z.of_nat (List.length (match fp with Some f => f | None => [] end)))).
Proof.
  intros Hc He Hp. destruct body as [|c t]; [discriminate Hc|].
  unfold Read.literal. rewrite (signed_minus s c t Hc), He, Hp. reflexivity.
Qed.

Lemma not_e_digits (t : Fmt.text) :
  Forall (fun c => Read.is_digit c = true) t -> Forall (fun c => c <> "e"%char) t.
Proof. apply digits_not. reflexivity. Qed.

Lemma not_point_digits (t : Fmt.text) :
  Forall (fun c => Read.is_digit c = true) t -> Forall (fun c => c <> "."%char) t.
Proof. apply digits_not. reflexivity. Qed.

(** Scientific layout: one digit, the others after a point, the exponent. *)
Lemma literal_sci (s : bool) (ds : Fmt.text) (d : Z) :
  ds <> [] -> Forall (fun c => Read.is_digit c = true) ds ->
  Read.literal (Fmt.minus s ++ Fmt.point 1 ds ++ Fmt.exponent d)
  = (s, (Read.number ds, d - (Z.of_nat (List.length ds) - 1))).
Proof.
  intros Hne Hd. destruct ds as [|c rest]; [congruence|].
  inversion Hd as [|? ? Hc Hrest]; subst.
  destruct (exponent_reads d) as (sg & t & E & R). rewrite E.
  unfold Fmt.point. cbn [skipn firstn]. destruct rest as [|c2 rest].
  - rewrite (literal_of s _ [c] [c] (Some (sg :: t)) None).
    + rewrite R, app_nil_r. cbn [List.length]. apply literal_eq; first [reflexivity | lia].
    + exact Hc.
    + apply (split_at_found "e" [c]). apply not_e_digits. exact Hd.
    + apply split_at_none. apply not_point_digits. exact Hd.
  - rewrite (literal_of s _ (c :: "."%char :: c2 :: rest) [c]
               (Some (sg :: t)) (Some (c2 :: rest))).
    + rewrite R. cbn [app List.length]. apply literal_eq; first [reflexivity | lia].
    + exact Hc.
    + apply (split_at_found "e" (c :: "."%char :: c2 :: rest)).
      constructor; [apply (digit_not "e" c); [reflexivity|exact Hc]|].
      constructor; [discriminate|]. apply not_e_digits. exact Hrest.
    + apply (split_at_found "." [c]). apply not_point_digits.
      constructor; [exact Hc|constructor].
Qed.

(** Fixed layout of a value below one: [0.], zeros, the digits. *)
Lemma literal_small (s : bool) (ds : Fmt.text) (k : Z) :
  Forall (fun c => Read.is_digit c = true) ds -> 0 <= k ->
  Read.literal (Fmt.minus s ++ "0"%char :: "."%char :: Fmt.zeros k ++ ds)
  = (s, (Read.number ds, - (k + Z.of_nat (List.length ds)))).
Proof.
  intros Hd Hk.
  assert (Hz : Forall (fun c => Read.is_digit c = true) (Fmt.zeros k ++ ds))
    by (apply Forall_app; split; [apply zeros_are_digits|exact Hd]).
  rewrite (literal_of s _ ("0"%char :: "."%char :: Fmt.zeros k ++ ds) ["0"%char]
             None (Some (Fmt.zeros k ++ ds))).
  - cbn [Read.exponent_of]. rewrite !number_append, number_zeros.
    rewrite length_app, length_zeros. apply literal_eq; first [reflexivity | lia].
  - reflexivity.
  - apply split_at_none. constructor; [discriminate|].
    constructor; [discriminate|]. apply not_e_digits. exact Hz.
  - apply (split_at_found "." ["0"%char]). constructor; [discriminate|constructor].
Qed.

(** Fixed layout of an integral value: the digits, zeros, [.0]. *)
Lemma literal_integral (s : bool) (ds : Fmt.text) (k : Z) :
  ds <> [] -> Forall (fun c => Read.is_digit c = true) ds -> 0 <= k ->
  Read.literal (Fmt.minus s ++ ds ++ Fmt.zeros k ++ list_ascii_of_string ".0")
  = (s, (Read.number ds * 10 ^ (k + 1), -1)).
Proof.
  intros Hne Hd Hk.
  assert (Hz : Forall (fun c => Read.is_digit c = true) (ds ++ Fmt.zeros k))
    by (apply Forall_app; split; [exact Hd|apply zeros_are_digits]).
  change (list_ascii_of_string ".0") with ("."%char :: ["0"%char]).
  rewrite (literal_of s _ (ds ++ Fmt.zeros k ++ "."%char :: ["0"%char]) (ds ++ Fmt.zeros k)
             None (Some ["0"%char])).
  - cbn [Read.exponent_of List.length]. rewrite !number_append, number_zeros, length_zeros.
    cbn [List.length]. rewrite Z2Nat.id by lia.
    rewrite Z.pow_add_r by lia. change (Read.number ["0"%char]) with 0.
    change (Z.of_nat 1) with 1. apply literal_eq; [ring|reflexivity].
  - destruct ds as [|c rest]; [congruence|]. inversion Hd; assumption.
  - apply split_at_none. rewrite app_assoc. apply Forall_app. split.
    + apply not_e_digits. exact Hz.
    + constructor; [discriminate|]. constructor; [discriminate|constructor].
  - rewrite app_assoc. apply split_at_found. apply not_point_digits. exact Hz.
Qed.

(** Fixed layout with the point among the digits. *)
Lemma literal_point (s : bool) (ds : Fmt.text) (k : nat) :
  Forall (fun c => Read.is_digit c = true) ds -> (0 < k < List.length ds)%nat ->
  Read.literal (Fmt.minus s ++ Fmt.point k ds)
  = (s, (Read.number ds, - (Z.of_nat (List.length ds) - Z.of_nat k))).
Proof.
  intros Hd Hk. unfold Fmt.point.
  pose proof (firstn_skipn k ds) as Hfs.
  pose proof (length_skipn k ds) as Hl.
  assert (Hd' : Forall (fun c => Read.is_digit c = true) (firstn k ds ++ skipn k ds))
    by (rewrite Hfs; exact Hd).
  apply Forall_app in Hd'. destruct Hd' as [Hf Hs].
  destruct (skipn k ds) as [|c2 frac] eqn:Es; [cbn [List.length] in Hl; lia|].
  rewrite (literal_of s _ (firstn k ds ++ "."%char :: c2 :: frac) (firstn k ds)
             None (Some (c2 :: frac))).
  - cbn [Read.exponent_of]. rewrite Hfs, Hl. apply literal_eq; first [reflexivity | lia].
  - destruct ds as [|c rest]; [cbn [List.length] in Hk; lia|].
    destruct k as [|k]; [lia|]. cbn [firstn app]. inversion Hd; assumption.
  - apply split_at_none. apply Forall_app. split; [apply not_e_digits; exact Hf|].
    constructor; [discriminate|]. apply not_e_digits. exact Hs.
  - apply split_at_found. apply not_point_digits. exact Hf.
Qed.

(** X15.  The text of a field without a format reads back as the float
    it was written from: [float(repr(x)) == x] for every finite [x].
    The two fields concerned print [fraction_max_heating * 100] and
    [heat_fraction]. *)
Theorem repr_round_trip (x : float) :
  Py.finite x = true -> Read.to_float (Fmt.repr x) = x.
Proof.
  unfold Py.finite, Fmt.repr, Read.to_float. pose proof (Prim2SF_valid x) as V.
  destruct (Prim2SF x) as [s|s| |s m e] eqn:Hx; try discriminate; intros _.
  - rewrite <- (SF2Prim_Prim2SF x), Hx. destruct s; reflexivity.
  - apply andb_prop in V. destruct V as [C B]. apply Z.leb_le in B.
    change (emax - prec) with 971 in B.
    set (d := Fmt.exp10 (Fmt.numerator m e) (Fmt.denominator e)).
    destruct (Fmt.shortest 16 m e d 1) as [n0 q0] eqn:Es.
    destruct (shortest_reads_back m e d 16 C B eq_refl 1 n0 q0 ltac:(lia) ltac:(lia) Es)
      as [Hn0 R0].
    destruct (Fmt.strip_zeros 17 n0 q0) as [n q] eqn:Ez.
    destruct (strip_zeros_reads_back 17 n0 q0 n q Hn0 Ez) as [Hn R]. rewrite R0 in R.
    pose proof (digits_are_digits n) as Hd.
    pose proof (digits_nonempty n) as Hne.
    pose proof (number_digits n ltac:(lia)) as Hv.
    set (ds := Fmt.digits n) in *.
    assert (Hlen : (0 < List.length ds)%nat)
      by (destruct ds; [congruence|cbn [List.length]; lia]).
    enough (E : exists n' q',
      Read.literal
        (Fmt.minus s ++
         (if (Z.of_nat (List.length ds) + q <=? -4) || (16 <? Z.of_nat (List.length ds) + q)
          then Fmt.point 1 ds ++ Fmt.exponent (Z.of_nat (List.length ds) + q - 1)
          else if Z.of_nat (List.length ds) + q <=? 0
               then "0"%char :: "."%char :: Fmt.zeros (- (Z.of_nat (List.length ds) + q)) ++ ds
               else if Z.of_nat (List.length ds) <=? Z.of_nat (List.length ds) + q
                    then ds ++ Fmt.zeros (Z.of_nat (List.length ds) + q - Z.of_nat (List.length ds))
                            ++ list_ascii_of_string ".0"
                    else Fmt.point (Z.to_nat (Z.of_nat (List.length ds) + q)) ds))
      = (s, (n', q')) /\ Fmt.dec_to_SF n' q' = S754_finite false m e).
    { destruct E as (n' & q' & -> & ->).
      rewrite <- (SF2Prim_Prim2SF x), Hx. destruct s; reflexivity. }
    destruct ((Z.of_nat (List.length ds) + q <=? -4) || (16 <? Z.of_nat (List.length ds) + q)).
    + exists n, q. rewrite (literal_sci s ds _ Hne Hd), Hv. split; [|exact R].
      apply literal_eq; first [reflexivity | lia].
    + destruct (Z.leb_spec (Z.of_nat (List.length ds) + q) 0) as [H0|H0].
      * exists n, q.
        rewrite (literal_small s ds (- (Z.of_nat (List.length ds) + q)) Hd ltac:(lia)), Hv.
        split; [|exact R].
        apply literal_eq; first [reflexivity | lia].
      * destruct (Z.leb_spec (Z.of_nat (List.length ds)) (Z.of_nat (List.length ds) + q))
          as [H1|H1].
        -- exists (n * 10 ^ (q + 1)), (-1).
           rewrite (literal_integral s ds
                      (Z.of_nat (List.length ds) + q - Z.of_nat (List.length ds))
                      Hne Hd ltac:(lia)), Hv.
           split.
           ++ apply literal_eq; [|reflexivity]. f_equal. f_equal. lia.
           ++ rewrite (dec_to_SF_shift n (-1) (q + 1) Hn ltac:(lia)).
              replace (-1 + (q + 1)) with q by lia. exact R.
        -- assert (Hk : (0 < Z.to_nat (Z.of_nat (List.length ds) + q) < List.length ds)%nat)
             by lia.
           exists n, q. rewrite (literal_point s ds _ Hd Hk), Hv. split; [|exact R].
           apply literal_eq; first [reflexivity | lia].
Qed.

Lemma repr_round_trip_witness : Read.to_float (Fmt.repr 0.01) = 0.01%float.
Proof. apply (repr_round_trip 0.01). reflexivity. Defined.

End ReprRoundTrip.
